(** * Node generation for RBF / RBF-FD: a shallow embedding of
    [rbf/pde/nodes.py] ([_disperse_step], [disperse], [neighbor_argsort],
    [prepare_nodes]).

    The dispersion is modelled over the real numbers [R] (rows of an
    [(n, d)] float array are [list R]); the IEEE behaviour that the source
    relies on explicitly (the [0/0] of a zero net force, cleaned up by
    [np.nan_to_num]) is modelled with a small extended-float type.  The
    bookkeeping of [prepare_nodes] is generic in the scalar type of the
    arrays, which only needs a NaN value, [+] and [*].

    The geometric domain, the k-nearest-neighbour tree and the
    Reverse-Cuthill-McKee routine are collaborators outside this module;
    they enter as parameters, with the contract the spec gives them stated
    as hypotheses where a proof needs it. *)

From Stdlib Require Import Reals Lra.
From stdpp Require Import base list sorting strings gmap.

(* ================================================================= *)
(** ** Array helpers (numpy fancy indexing on rows) *)

Module Arr.

(** [np.nonzero] of a 1-d array of counts: the positions of the non-zero
    entries, in increasing order. *)
Fixpoint nonzero_from (k : nat) (c : list nat) : list nat :=
  match c with
  | [] => []
  | x :: c' => if Nat.eqb x 0 then nonzero_from (S k) c'
               else k :: nonzero_from (S k) c'
  end.

Definition nonzero (c : list nat) : list nat := nonzero_from 0 c.

(** [a[idx]] for an index array [idx] whose entries are in range. *)
Definition rows {A} `{Inhabited A} (a : list A) (idx : list nat) : list A :=
  map (fun i => a !!! i) idx.

(** [a[idx] = vals]: row assignment through an index array. *)
Fixpoint scatter {A} (a : list A) (idx : list nat) (vals : list A) : list A :=
  match idx, vals with
  | i :: idx', v :: vals' => scatter (<[i := v]> a) idx' vals'
  | _, _ => a
  end.

End Arr.

(* ================================================================= *)
(** ** Dispersion: points, the domain collaborator, the bounce *)

Module Disperse.
Import Arr.
Local Open Scope R_scope.

Definition point := list R.

Definition vsub (x y : point) : point := zip_with Rminus x y.
Definition vadd (x y : point) : point := zip_with Rplus x y.
(** [np.sum(x*y, axis=1)] for one row. *)
Definition vdot (x y : point) : R := foldr Rplus 0 (zip_with Rmult x y).

(** The queries [disperse] makes on [as_domain(domain)], one segment at a
    time (the source calls them on arrays of segments, row-wise). *)
Record Domain := {
  dom_dim : nat;
  intersection_count : point -> point -> nat;
  intersection_point : point -> point -> point * nat;
  dom_normals : list point
}.

(** Lines 139-154 of [disperse]: find the nodes whose proposed move
    crosses the boundary and bounce them.  Returns [crossed] and the
    updated [new_nodes]. *)
Definition bounce (dom : Domain) (nodes new_nodes : list point)
  : list nat * list point :=
  let crossed := nonzero (zip_with (intersection_count dom) nodes new_nodes) in
  let ip := zip_with (intersection_point dom)
              (rows nodes crossed) (rows new_nodes crossed) in
  let intr_pnt := map fst ip in
  let intr_idx := map snd ip in
  let intr_norms := rows (dom_normals dom) intr_idx in
  let res := zip_with vsub (rows new_nodes crossed) intr_pnt in
  let res_perp := zip_with vdot res intr_norms in
  (* new_nodes[crossed] -= 2*intr_norms*res_perp[:, None] *)
  let upd := zip_with vsub (rows new_nodes crossed)
               (zip_with (fun n r => map (fun nk => 2 * nk * r) n)
                  intr_norms res_perp) in
  (crossed, scatter new_nodes crossed upd).

(** The position line 154 gives one crossed node, row by row: the
    proposed position [y] (from [x]) minus [2*n*(res . n)], with [res] the
    residual past the intersection point and [n] the crossed simplex's
    normal. *)
Definition bounce_row (dom : Domain) (x y : point) : point :=
  let ip := intersection_point dom x y in
  let n := dom_normals dom !!! ip.2 in
  let r := vsub y ip.1 in
  vsub y (map (fun nk => 2 * nk * vdot r n) n).

(** Lines 158-163: nodes whose bounced position still crosses the
    boundary are put back where they started. *)
Definition revert (dom : Domain) (nodes : list point) (crossed : list nat)
    (new_nodes : list point) : list point :=
  let still_crossed := nonzero (zip_with (intersection_count dom)
                          (rows nodes crossed) (rows new_nodes crossed)) in
  let back := map (fun s => crossed !!! s) still_crossed in
  scatter new_nodes back (rows nodes back).

(** The boundary handling of one iteration, after the step proposed
    [new_nodes]. *)
Definition bounce_revert (dom : Domain) (nodes new_nodes : list point)
  : list point :=
  let '(crossed, bounced) := bounce dom nodes new_nodes in
  revert dom nodes crossed bounced.

(** Extended floats, for the one place where the source relies on IEEE
    division by zero: the normalisation of the net force. *)
Inductive xfloat := Fin (r : R) | PInf | NInf | NaN.

(** IEEE [x / y] on finite operands ([y] is a norm, hence never [-0.]). *)
Definition ieee_div (x y : R) : xfloat :=
  if Req_EM_T y 0 then
    if Req_EM_T x 0 then NaN else if Rlt_dec 0 x then PInf else NInf
  else Fin (x / y).

(** Largest finite double, the value [np.nan_to_num] gives to [inf]. *)
Definition max_float : R := (2 - / 2 ^ 52) * 2 ^ 1023.

Definition nan_to_num (v : xfloat) : R :=
  match v with
  | Fin r => r
  | NaN => 0
  | PInf => max_float
  | NInf => - max_float
  end.

(** [np.linalg.norm] of a row. *)
Definition norm (v : point) : R := sqrt (vdot v v).

(** Lines 48-50: [direction /= norm(direction)] under
    [np.errstate(invalid='ignore')], then [np.nan_to_num]. *)
Definition normalize (v : point) : point :=
  map (fun x => nan_to_num (ieee_div x (norm v))) v.

(** The force exerted on [x] by a neighbour [y] at distance [d] (lines 38
    and 42): [c*(x - y)/d**3] with [c = 1/(rho(y)*rho(x))]. *)
Definition force (rho : point -> R) (x y : point) (d : R) : point :=
  let c := 1 / (rho y * rho x) in
  map (fun k => c * k / d ^ 3) (vsub x y).

Section Step.

(** [KDTree(pts).query(x, k)] for one query point: the [(distance, index)]
    pairs of its [k] nearest points; [None] when the query faults. *)
Variable knn : list point -> point -> nat -> option (list (R * nat)).

(** One row of [_disperse_step], given the row's neighbours with the node
    itself already dropped ([dist[:, 1:], idx[:, 1:]]).  [all_nodes[idx]]
    faults on an index out of range, and so does [dist[:, 0]] when there
    is no neighbour. *)
Definition step_row (rho : point -> R) (all_nodes : list point) (delta : R)
    (x : point) (q : list (R * nat)) : option point :=
  fs ← mapM (fun dj => y ← all_nodes !! dj.2; Some (force rho x y dj.1)) q;
  let direction := foldr vadd (repeat 0 (length x)) fs in
  let u := normalize direction in
  match q with
  | [] => None
  | (d0, _) :: _ => Some (vadd x (map (fun uk => delta * d0 * uk) u))
  end.

(** [_disperse_step(nodes, rho, fixed_nodes, neighbors, delta)];
    [rho] is evaluated row by row. *)
Definition disperse_step (rho : point -> R) (nodes fixed_nodes : list point)
    (neighbors : Z) (delta : R) : option (list point) :=
  match nodes with
  | [] => Some nodes
  | _ :: _ =>
      let all_nodes := nodes ++ fixed_nodes in
      qs ← mapM (fun x => knn all_nodes x (Z.to_nat (neighbors + 1))) nodes;
      mapM (fun xq => step_row rho all_nodes delta xq.1 (tail xq.2))
           (zip nodes qs)
  end.

(** One iteration of the loop of [disperse] (lines 136-164). *)
Definition disperse_iteration (dom : Domain) (rho : point -> R)
    (fixed_nodes : list point) (neighbors : Z) (delta : R)
    (nodes : list point) : option (list point) :=
  new_nodes ← disperse_step rho nodes fixed_nodes neighbors delta;
  Some (bounce_revert dom nodes new_nodes).

Fixpoint disperse_loop (dom : Domain) (rho : point -> R)
    (fixed_nodes : list point) (neighbors : Z) (delta : R)
    (iterations : nat) (nodes : list point) : option (list point) :=
  match iterations with
  | O => Some nodes
  | S it =>
      nodes' ← disperse_iteration dom rho fixed_nodes neighbors delta nodes;
      disperse_loop dom rho fixed_nodes neighbors delta it nodes'
  end.

Definition shape_ok (d : nat) (a : list point) : bool :=
  forallb (fun r => Nat.eqb (length r) d) a.

(** [disperse(nodes, domain, iterations, rho, fixed_nodes, neighbors,
    delta)]; [None] for the exceptions it can raise ([assert_shape], and
    [min(None, ...)] for a dimension other than 2 or 3). *)
Definition disperse (dom : Domain) (nodes : list point) (iterations : nat)
    (rho : option (point -> R)) (fixed_nodes : option (list point))
    (neighbors : option Z) (delta : R) : option (list point) :=
  if negb (shape_ok (dom_dim dom) nodes) then None else
  let rho := default (fun _ => 1) rho in
  fixed ← match fixed_nodes with
          | None => Some []
          | Some f => if shape_ok (dom_dim dom) f then Some f else None
          end;
  nb ← match neighbors with
       | Some m => Some m
       | None => if Nat.eqb (dom_dim dom) 2 then Some 3%Z
                 else if Nat.eqb (dom_dim dom) 3 then Some 4%Z else None
       end;
  let nb := Z.min nb (Z.of_nat (length nodes + length fixed) - 1) in
  disperse_loop dom rho fixed nb delta iterations nodes.

End Step.

End Disperse.

(* ================================================================= *)
(** ** [prepare_nodes]: snapping, groups, ghost nodes, reordering *)

Module Prepare.
Import Arr.

(** The exceptions [prepare_nodes] can raise. *)
Inductive PyError := ValueError | KeyError | IndexError | ShapeError.

Definition res (A : Type) : Type := (PyError + A)%type.
Global Instance res_ret : MRet res := fun A a => inr a.
Global Instance res_bind : MBind res :=
  fun A B f m => match m with inl e => inl e | inr a => f a end.

Definition raise {A} (e : PyError) : res A := inl e.

(** [a[idx]] with an index array; an index out of range raises. *)
Definition gather {A} (a : list A) (idx : list nat) : res (list A) :=
  match mapM (fun i => a !! i) idx with
  | Some l => inr l
  | None => raise IndexError
  end.

(** Python's [a[j]] index normalisation for a list of length [n]. *)
Definition py_index (n : nat) (j : Z) : option nat :=
  if decide (0 <= j < Z.of_nat n)%Z then Some (Z.to_nat j)
  else if decide (- Z.of_nat n <= j < 0)%Z then Some (Z.to_nat (Z.of_nat n + j))
  else None.

(** Python dicts keyed by strings, as association lists in insertion
    order: [d[k] = v] overwrites in place or appends. *)
Fixpoint dict_set {V} (k : string) (v : V) (d : list (string * V))
  : list (string * V) :=
  match d with
  | [] => [(k, v)]
  | (k', v') :: d' => if String.eqb k k' then (k, v) :: d'
                      else (k', v') :: dict_set k v d'
  end.

Fixpoint dict_get {V} (k : string) (d : list (string * V)) : option V :=
  match d with
  | [] => None
  | (k', v') :: d' => if String.eqb k k' then Some v' else dict_get k d'
  end.

(** [{k: v for k, v in items}]. *)
Definition dict_of_items {V} (items : list (string * V)) : list (string * V) :=
  foldl (fun d kv => dict_set kv.1 kv.2 d) [] items.

(** The positions [i] with [p a[i]]: [(p(a)).nonzero()]. *)
Definition where_idx {A} (p : A -> bool) (a : list A) : list nat :=
  List.filter (fun i => match a !! i with Some x => p x | None => false end)
         (seq 0 (length a)).

(** [np.argsort] of an index array (its entries are distinct here, so
    the sort is unique). *)
Definition key_le (a b : nat * nat) : Prop := a.1 <= b.1.
Global Instance key_le_dec : RelDecision key_le :=
  fun a b => decide (a.1 <= b.1).

Definition argsort (l : list nat) : list nat :=
  map snd (merge_sort key_le (zip l (seq 0 (length l)))).

Section Prepare.

Context {Flt : Type} (nan : Flt) (fadd fmul : Flt -> Flt -> Flt).
Local Abbreviation row := (list Flt).

(** The domain as [prepare_nodes] uses it. *)
Record PDomain := {
  pdim : nat;
  vertices : list row;
  n_simplices : nat;
  pnormals : list row
}.

(** Collaborators: [domain.orient_simplices()]; the call to [disperse]
    (nodes, fixed nodes; its other options are fixed by the caller);
    [domain.snap(nodes, delta=snap_delta)]; [KDTree(pts).query(x, 2)[0][1]];
    the neighbour indices [KDTree(pts).query(x, m)[1]]; and
    [reverse_cuthill_mckee] of the [n x n] boolean matrix with the given
    non-zero entries. *)
Variable orient : PDomain -> PDomain.
Variable disperse_fn : list row -> list row -> res (list row).
Variable snap_fn : PDomain -> list row -> list row * list Z.
Variable kd_nn : list row -> row -> Flt.
Variable knn_idx : list row -> row -> nat -> list nat.
Variable rcm : nat -> list (nat * nat) -> list nat.

Definition nan_row (r : row) : row := repeat nan (length r).

Definition assert_shape (d : nat) (a : list row) : res unit :=
  if forallb (fun r => Nat.eqb (length r) d) a then inr () else raise ShapeError.

(** [neighbor_argsort(nodes)] with the default [m = 5**d].  With no
    nodes, [m = min(m, 0) = 0]: the query [KDTree(nodes).query(nodes, 0)]
    and the [csc_matrix] built from zero-size index arrays raise
    [ValueError]. *)
Definition neighbor_argsort (nodes : list row) : res (list nat) :=
  let d := match nodes with r :: _ => length r | [] => 0 end in
  let m := Nat.min (5 ^ d) (length nodes) in
  if Nat.eqb m 0 then raise ValueError else
  let idx := map (fun x => knn_idx nodes x m) nodes in
  let entries := concat (imap (fun i js => map (fun j => (i, j)) js) idx) in
  mret (rcm (length nodes) entries).

Definition groups_t := list (string * list nat).

(** The result of [prepare_nodes], with the warnings logged on the way. *)
Record Output := {
  out_nodes : list row;
  out_groups : groups_t;
  out_normals : list row;
  out_warnings : list (nat * nat)
}.

(** Lines 361-401: orientation, shape checks, the fixed nodes, the
    dispersion, the optional vertices, and the snapping.  Returns the
    (oriented) domain, the snapped nodes and their simplex ids. *)
Definition stage_snap (nodes : list row) (dom0 : PDomain)
    (pinned_nodes : option (list row)) (include_vertices orient_simplices : bool)
  : res (PDomain * list row * list Z) :=
  let dom := if orient_simplices then orient dom0 else dom0 in
  _ ← assert_shape (pdim dom) nodes;
  fixed ← match pinned_nodes with
          | None => mret []
          | Some p => _ ← assert_shape (pdim dom) p; mret p
          end;
  let fixed := if include_vertices then fixed ++ vertices dom else fixed in
  nodes ← disperse_fn nodes fixed;
  let nodes := if include_vertices then nodes ++ vertices dom else nodes in
  let '(nodes, smpid) := snap_fn dom nodes in
  mret (dom, nodes, smpid).

(** Lines 403-404: [normals = np.full_like(nodes, np.nan)] and
    [normals[smpid >= 0] = domain.normals[smpid[smpid >= 0]]]. *)
Definition initial_normals (dom : PDomain) (nodes : list row) (smpid : list Z)
  : res (list row) :=
  let pos := where_idx (fun j => Z.leb 0 j) smpid in
  js ← gather smpid pos;
  ns ← gather (pnormals dom) (map Z.to_nat js);
  mret (scatter (map nan_row nodes) pos ns).

(** Lines 448-451: [smp_to_nodes[j].append(i)] for every snapped node. *)
Fixpoint build_smp_to_nodes (acc : list (list nat)) (i : nat) (smpid : list Z)
  : res (list (list nat)) :=
  match smpid with
  | [] => mret acc
  | j :: smpid' =>
      if Z.eqb j (-1) then build_smp_to_nodes acc (S i) smpid'
      else match py_index (length acc) j with
           | Some k => build_smp_to_nodes (alter (fun l => l ++ [i]) k acc)
                         (S i) smpid'
           | None => raise IndexError
           end
  end.

Definition default_groups (dom : PDomain) : list (string * list Z) :=
  [("all", map Z.of_nat (seq 0 (n_simplices dom)))].

(** [Counter(chain( *boundary_groups.values()))[idx]]. *)
Definition simplex_count (bg : list (string * list Z)) (idx : Z) : nat :=
  count_occ Z.eq_dec (concat (map snd bg)) idx.

(** Lines 423-441: the user's groups as a dict, the warnings for the
    simplices not claimed exactly once, and the [ValueError] for indices
    that are not simplices. *)
Definition validate_groups (nsmp : nat) (bg_in : list (string * list Z))
  : list (nat * nat) * res (list (string * list Z)) :=
  let bg := dict_of_items bg_in in
  let warnings :=
    List.filter (fun p => negb (Nat.eqb p.2 1))
      (map (fun idx => (idx, simplex_count bg (Z.of_nat idx))) (seq 0 nsmp)) in
  (warnings,
   if existsb (fun x => negb (bool_decide (0 <= x < Z.of_nat nsmp)%Z))
              (concat (map snd bg))
   then raise ValueError else mret bg).

(** Line 454: the nodes of the simplices of one boundary group. *)
Definition boundary_idx (smp_to_nodes : list (list nat)) (bnd_smp : list Z)
  : res (list nat) :=
  ls ← mapM (fun s => match py_index (length smp_to_nodes) s with
                      | Some k => mret (smp_to_nodes !!! k)
                      | None => raise IndexError
                      end) bnd_smp;
  mret (concat ls).

Fixpoint add_boundary_groups (smp_to_nodes : list (list nat))
    (bg : list (string * list Z)) (groups : groups_t) : res groups_t :=
  match bg with
  | [] => mret groups
  | (name, bnd_smp) :: bg' =>
      bnd_idx ← boundary_idx smp_to_nodes bnd_smp;
      add_boundary_groups smp_to_nodes bg'
        (dict_set (String.append "boundary:" name) bnd_idx groups)
  end.

(** The state of the arrays between the grouping and the sorting. *)
Record Stage := {
  st_nodes : list row;
  st_normals : list row;
  st_groups : groups_t;
  st_warnings : list (nat * nat)
}.

(** Lines 403-455. *)
Definition stage_groups (dom : PDomain) (nodes : list row) (smpid : list Z)
    (pinned_nodes : option (list row))
    (boundary_groups : option (list (string * list Z))) : res Stage :=
  normals ← initial_normals dom nodes smpid;
  let groups := [("interior", where_idx (fun j => Z.eqb j (-1)) smpid)] in
  let '(nodes, normals, groups) :=
    match pinned_nodes with
    | None => (nodes, normals, groups)
    | Some p =>
        (nodes ++ p, normals ++ map nan_row p,
         dict_set "pinned" (map (fun k => k + length nodes) (seq 0 (length p)))
           groups)
    end in
  let '(warnings, bg) :=
    match boundary_groups with
    | None => ([], mret (default_groups dom))
    | Some bg => validate_groups (n_simplices dom) bg
    end in
  bg ← bg;
  s2n ← build_smp_to_nodes (repeat [] (n_simplices dom)) 0 smpid;
  groups ← add_boundary_groups s2n bg groups;
  mret {| st_nodes := nodes; st_normals := normals; st_groups := groups;
          st_warnings := warnings |}.

(** Lines 459-469, one flagged group at a time; [tree] holds the nodes the
    KD-tree was built from (line 460). *)
Fixpoint add_ghosts (tree : list row) (ghost_delta : Flt) (names : list string)
    (st : list row * list row * groups_t) : res (list row * list row * groups_t) :=
  match names with
  | [] => mret st
  | name :: names' =>
      let '(nodes, normals, groups) := st in
      bnd_idx ← match dict_get (String.append "boundary:" name) groups with
                | Some v => mret v
                | None => raise KeyError
                end;
      bnodes ← gather nodes bnd_idx;
      bnormals ← gather normals bnd_idx;
      let spacing := map (fun x => fmul ghost_delta (kd_nn tree x)) bnodes in
      let ghost_idx := map (fun k => k + length nodes) (seq 0 (length bnd_idx)) in
      let ghost_nodes :=
        zip_with (fun xs n => zip_with (fun xk nk => fadd xk (fmul xs.2 nk)) xs.1 n)
          (zip bnodes spacing) bnormals in
      add_ghosts tree ghost_delta names'
        (nodes ++ ghost_nodes, normals ++ map nan_row ghost_nodes,
         dict_set (String.append "ghosts:" name) ghost_idx groups)
  end.

(** Lines 474-478. *)
Definition reorder (sort_idx : list nat) (nodes normals : list row)
    (groups : groups_t) : res (list row * list row * groups_t) :=
  nodes' ← gather nodes sort_idx;
  normals' ← gather normals sort_idx;
  let reverse_sort_idx := argsort sort_idx in
  groups' ← mapM (fun kv => v ← gather reverse_sort_idx kv.2; mret (kv.1, v))
              groups;
  mret (nodes', normals', groups').

(** [prepare_nodes(nodes, domain, ..., pinned_nodes, ..., boundary_groups,
    boundary_groups_with_ghosts, ghost_delta, include_vertices,
    orient_simplices)].  The closing [_check_spacing] only logs and is
    left out. *)
Definition prepare_nodes (nodes : list row) (dom0 : PDomain)
    (pinned_nodes : option (list row))
    (boundary_groups : option (list (string * list Z)))
    (boundary_groups_with_ghosts : option (list string))
    (ghost_delta : Flt) (include_vertices orient_simplices : bool) : res Output :=
  '(dom, snapped, smpid) ←
     stage_snap nodes dom0 pinned_nodes include_vertices orient_simplices;
  st ← stage_groups dom snapped smpid pinned_nodes boundary_groups;
  let names := default [] boundary_groups_with_ghosts in
  '(nodes, normals, groups) ←
     add_ghosts (st_nodes st) ghost_delta names
       (st_nodes st, st_normals st, st_groups st);
  sort_idx ← neighbor_argsort nodes;
  '(nodes, normals, groups) ← reorder sort_idx nodes normals groups;
  mret {| out_nodes := nodes; out_groups := groups; out_normals := normals;
          out_warnings := st_warnings st |}.

End Prepare.
End Prepare.

(* ================================================================= *)
(** ** [disperse] over an explicit store of arrays

    numpy arrays are shared objects: [np.asarray(nodes, dtype=float)]
    returns the caller's array itself when it already is a float array, and
    the fancy assignments of lines 154 and 163 write into an array in
    place.  Here arrays live in a store indexed by locations, so that what
    [disperse] writes, and where, is explicit. *)

Module Store.
Import Arr Disperse.

Abbreviation loc := nat.
Abbreviation heap := (gmap loc (list point)).

(** A new array object. *)
Definition alloc (v : list point) (h : heap) : loc * heap :=
  let l := fresh (dom h) in (l, <[l := v]> h).

Section Store.

Variable knn : list point -> point -> nat -> option (list (R * nat)).

(** One iteration: [nodes] is the array at [l], [fixed_nodes] the array
    at [lfix]; [_disperse_step] returns a new array ([nodes + step] or
    [nodes.copy()]), which lines 154 and 163 then update in place. *)
Definition iteration_st (dm : Domain) (rho : point -> R) (lfix : loc)
    (neighbors : Z) (delta : R) (l : loc) (h : heap) : option (loc * heap) :=
  nodes ← h !! l;
  fixed ← h !! lfix;
  stepped ← disperse_step knn rho nodes fixed neighbors delta;
  let '(ln, h1) := alloc stepped h in
  new_nodes ← h1 !! ln;
  let '(crossed, bounced) := bounce dm nodes new_nodes in
  let h2 := <[ln := bounced]> h1 in
  new_nodes ← h2 !! ln;
  let h3 := <[ln := revert dm nodes crossed new_nodes]> h2 in
  Some (ln, h3).

Fixpoint loop_st (dm : Domain) (rho : point -> R) (lfix : loc) (neighbors : Z)
    (delta : R) (iterations : nat) (l : loc) (h : heap) : option (loc * heap) :=
  match iterations with
  | O => Some (l, h)
  | S it =>
      '(l', h') ← iteration_st dm rho lfix neighbors delta l h;
      loop_st dm rho lfix neighbors delta it l' h'
  end.

(** [disperse] called on the array at [ln] (and, when given, the fixed
    nodes at [lfixed]); returns the location of the result and the store
    afterwards. *)
Definition disperse_st (dm : Domain) (ln : loc) (iterations : nat)
    (rho : option (point -> R)) (lfixed : option loc) (neighbors : option Z)
    (delta : R) (h : heap) : option (loc * heap) :=
  nodes ← h !! ln;
  if negb (shape_ok (dom_dim dm) nodes) then None else
  let rho := default (fun _ => 1%R) rho in
  '(lf, h) ← match lfixed with
             | None => Some (alloc [] h)
             | Some lf => f ← h !! lf;
                          if shape_ok (dom_dim dm) f then Some (lf, h) else None
             end;
  fixed ← h !! lf;
  nb ← match neighbors with
       | Some m => Some m
       | None => if Nat.eqb (dom_dim dm) 2 then Some 3%Z
                 else if Nat.eqb (dom_dim dm) 3 then Some 4%Z else None
       end;
  let nb := Z.min nb (Z.of_nat (length nodes + length fixed) - 1) in
  loop_st dm rho lf nb delta iterations ln h.

End Store.
End Store.

(* ================================================================= *)
(** ** The spec's formulas and concrete instances *)

Module SpecSide.
Import Disperse.
Local Open Scope R_scope.

(** The bounce as the spec words it: "new position = intersection point
    - 2 * normal * (residual . normal)". *)
Definition bounce_claimed (dom : Domain) (x y : point) : point :=
  let ip := intersection_point dom x y in
  let n := dom_normals dom !!! ip.2 in
  let r := vsub y ip.1 in
  vsub ip.1 (map (fun nk => 2 * nk * vdot r n) n).

(** The domain [{(x, y) | y < 1}] of the plane, whose boundary is the
    single simplex [y = 1] with outward normal [(0, 1)]. *)
Definition ycoord (p : point) : R := nth 1 p 0.

Definition half_plane : Domain := {|
  dom_dim := 2;
  intersection_count := fun a b =>
    if Rlt_dec (ycoord a) 1 then (if Rle_dec 1 (ycoord b) then 1%nat else 0%nat)
    else (if Rlt_dec (ycoord b) 1 then 1%nat else 0%nat);
  intersection_point := fun a b =>
    let t := (1 - ycoord a) / (ycoord b - ycoord a) in
    (vadd a (map (fun z => t * z) (vsub b a)), 0%nat);
  dom_normals := [[0; 1]]
|}.

(** A fixed answer of the neighbour query, right for the query point
    [(0, 0)] in the pool [[(0, 0); (0, 2)]] with [k = 2]. *)
Definition knn_pair (pts : list point) (x : point) (k : nat)
  : option (list (R * nat)) :=
  Some [(0, 0%nat); (2, 1%nat)].

(** The pairwise force as the spec words it: [(x - y)] divided by
    [density(y) * density(x) * distance^3]. *)
Definition force_claimed (rho : point -> R) (x y : point) (d : R) : point :=
  map (fun k => k / (rho y * rho x * d ^ 3)) (vsub x y).

(** A neighbour query for a point alone in its pool: the point itself,
    at distance 0, if at least one point is asked for. *)
Definition knn_self (pts : list point) (x : point) (k : nat)
  : option (list (R * nat)) :=
  Some (firstn k [(0, 0%nat)]).

End SpecSide.

(* ================================================================= *)
(** ** The group bookkeeping of [prepare_nodes], spelled out *)

Module PrepareSpec.
Import Arr Prepare.

(** The indices of all the groups whose name starts with ["boundary:"],
    with repetitions. *)
Definition boundary_union (groups : groups_t) : list nat :=
  concat (map snd (List.filter (fun kv => String.prefix "boundary:" kv.1) groups)).

(** The groups after line 455, written out: "interior", "pinned" and one
    "boundary:name" group per boundary group, from the simplex-to-nodes
    table [s2n]. *)
Definition stage_groups0 {Flt} (dom : @PDomain Flt) (nodes : list (list Flt)) smpid
    (pinned : option (list (list Flt))) bgs (s2n : list (list nat)) : groups_t :=
  [("interior", where_idx (fun j => Z.eqb j (-1)) smpid)] ++
  match pinned with
  | None => []
  | Some p => [("pinned", map (fun k => k + length nodes) (seq 0 (length p)))]
  end ++
  map (fun kv => (String.append "boundary:" kv.1,
                  concat (map (fun s => s2n !!! Z.to_nat s) kv.2)))
    (match bgs with None => default_groups dom | Some bg => dict_of_items bg end).

End PrepareSpec.

(* ================================================================= *)
(** ** A concrete instance of [prepare_nodes] *)

Module Examples.
Import Arr Prepare.

(** Floats as [option Z], [None] standing for NaN. *)
Definition flt := option Z.
Definition fnan : flt := None.
Definition flt_add (a b : flt) : flt :=
  match a, b with Some x, Some y => Some (x + y)%Z | _, _ => None end.
Definition flt_mul (a b : flt) : flt :=
  match a, b with Some x, Some y => Some (x * y)%Z | _, _ => None end.

(** A square's two sides [y = 0] and [x = 0]. *)
Definition dom_ex : @PDomain flt := {|
  pdim := 2; vertices := []; n_simplices := 2;
  pnormals := [[Some 0%Z; Some (-1)%Z]; [Some (-1)%Z; Some 0%Z]] |}.

Definition orient_ex (d : @PDomain flt) : @PDomain flt := d.
Definition disperse_ex (nodes fixed : list (list flt)) : res (list (list flt)) := inr nodes.
Definition snap_row (r : list flt) : Z :=
  match r with
  | [_; Some y] => if Z.eqb y 0 then 0%Z else (-1)%Z
  | _ => (-1)%Z
  end.
Definition snap_ex (d : @PDomain flt) (nodes : list (list flt)) : list (list flt) * list Z :=
  (nodes, map snap_row nodes).
Definition kd_nn_ex (pts : list (list flt)) (x : list flt) : flt := Some 2%Z.
Definition knn_idx_ex (pts : list (list flt)) (x : list flt) (k : nat) : list nat := seq 0 k.
Definition rcm_ex (n : nat) (e : list (nat * nat)) : list nat := reverse (seq 0 n).

Definition nodes_ex : list (list flt) := [[Some 0%Z; Some 0%Z]; [Some 1%Z; Some 1%Z]].
Definition pinned_ex : list (list flt) := [[Some 5%Z; Some 5%Z]].

Definition prepare_ex bgs ghosts :=
  prepare_nodes fnan flt_add flt_mul orient_ex disperse_ex snap_ex kd_nn_ex knn_idx_ex rcm_ex
    nodes_ex dom_ex (Some pinned_ex) bgs ghosts (Some 1%Z) false false.

Definition empty_output : @Output flt :=
  {| out_nodes := []; out_groups := []; out_normals := []; out_warnings := [] |}.

Definition out_ex : @Output flt := Eval vm_compute in
  match prepare_ex None (Some ["all"]) with inr o => o | inl _ => empty_output end.

(** Two groups claiming simplex 0, none claiming simplex 1. *)
Definition bg_dup : list (string * list Z) := [("a", [0%Z]); ("b", [0%Z])].

End Examples.

(* ================================================================= *)
(** ** Facts about the array helpers *)

Module ArrFacts.
Import Arr.

Lemma lookup_map_std {A B} (f : A -> B) (l : list A) (i : nat) :
  map f l !! i = f <$> l !! i.
Proof. revert i; induction l as [|x l IH]; intros [|i]; simpl; auto. Qed.

Lemma length_map_std {A B} (f : A -> B) (l : list A) :
  length (map f l) = length l.
Proof. apply List.length_map. Qed.

Lemma zip_with_map_same {A B C D} (f : B -> C -> D) (g : A -> B) (h : A -> C)
    (l : list A) :
  zip_with f (map g l) (map h l) = map (fun a => f (g a) (h a)) l.
Proof. induction l as [|a l IH]; simpl; [done|]. by rewrite IH. Qed.

Lemma nonzero_from_elem (c : list nat) (k i : nat) :
  i ∈ nonzero_from k c <-> exists j x, i = k + j /\ c !! j = Some x /\ x <> 0.
Proof.
  revert k. induction c as [|x c IH]; intros k; simpl.
  - split; [intros H; inversion H|]. intros (j & y & _ & Hj & _). done.
  - destruct (Nat.eqb_spec x 0) as [->|Hx].
    + rewrite IH. split.
      * intros (j & y & -> & Hj & Hy). exists (S j), y. split; [lia|done].
      * intros (j & y & -> & Hj & Hy). destruct j as [|j]; simpl in Hj.
        { congruence. }
        exists j, y. split; [lia|done].
    + rewrite elem_of_cons, IH. split.
      * intros [->|(j & y & -> & Hj & Hy)].
        { exists 0, x. split; [lia|done]. }
        exists (S j), y. split; [lia|done].
      * intros (j & y & -> & Hj & Hy). destruct j as [|j]; simpl in Hj.
        { left. lia. }
        right. exists j, y. split; [lia|done].
Qed.

Lemma nonzero_elem (c : list nat) (i : nat) :
  i ∈ nonzero c <-> exists x, c !! i = Some x /\ x <> 0.
Proof.
  unfold nonzero. rewrite nonzero_from_elem. split.
  - intros (j & x & -> & ?). by exists x.
  - intros (x & ?). by exists i, x.
Qed.

Lemma length_scatter {A} (a : list A) (idx : list nat) (vals : list A) :
  length (scatter a idx vals) = length a.
Proof.
  revert a vals. induction idx as [|i idx IH]; intros a [|v vals]; simpl; auto.
  by rewrite IH, length_insert.
Qed.

Lemma scatter_notin {A} (a : list A) (idx : list nat) (vals : list A) (i : nat) :
  i ∉ idx -> scatter a idx vals !! i = a !! i.
Proof.
  revert a vals. induction idx as [|j idx IH]; intros a [|v vals] Hi; simpl; auto.
  rewrite elem_of_cons in Hi.
  rewrite IH by tauto. apply list_lookup_insert_ne. intros ->. tauto.
Qed.

(** Writing [g i] at every [i] of [idx] leaves [g i] at [i], repeated
    indices included. *)
Lemma scatter_map {A} (a : list A) (idx : list nat) (g : nat -> A) (i : nat) :
  i ∈ idx -> i < length a -> scatter a idx (map g idx) !! i = Some (g i).
Proof.
  revert a. induction idx as [|j idx IH]; intros a Hi Hlen; simpl.
  { inversion Hi. }
  destruct (decide (i ∈ idx)) as [Hin|Hnin].
  - apply IH; [done|]. by rewrite length_insert.
  - rewrite elem_of_cons in Hi. destruct Hi as [->|]; [|done].
    rewrite scatter_notin by done. by apply list_lookup_insert_eq.
Qed.

Lemma rows_map {A} `{Inhabited A} (a : list A) (idx : list nat) :
  rows a idx = map (fun i => a !!! i) idx.
Proof. reflexivity. Qed.

End ArrFacts.

(* ================================================================= *)
(** ** Facts about one dispersion iteration *)

Module DisperseFacts.
Import Arr ArrFacts Disperse.

(** [bounce] updates every crossed row with [bounce_row]. *)
Lemma bounce_rowwise (dm : Domain) (nodes new_nodes : list point) :
  bounce dm nodes new_nodes =
  (nonzero (zip_with (intersection_count dm) nodes new_nodes),
   scatter new_nodes (nonzero (zip_with (intersection_count dm) nodes new_nodes))
     (map (fun i => bounce_row dm (nodes !!! i) (new_nodes !!! i))
        (nonzero (zip_with (intersection_count dm) nodes new_nodes)))).
Proof.
  unfold bounce, bounce_row, rows. cbv zeta.
  set (crossed := nonzero _).
  repeat first [rewrite zip_with_map_same | rewrite List.map_map].
  reflexivity.
Qed.

Lemma map_fmap_std {A B} (f : A -> B) (l : list A) : map f l = f <$> l.
Proof. induction l as [|x l IH]; simpl; [done|]. by rewrite IH. Qed.

(** The nodes [revert] puts back are the crossed ones whose bounced
    position still crosses. *)
Lemma revert_back_elem (dm : Domain) (nodes : list point) (crossed : list nat)
    (bounced : list point) (i : nat) :
  i ∈ map (fun s => crossed !!! s)
        (nonzero (zip_with (intersection_count dm)
                   (rows nodes crossed) (rows bounced crossed)))
  <-> i ∈ crossed /\ intersection_count dm (nodes !!! i) (bounced !!! i) <> 0.
Proof.
  rewrite !rows_map, zip_with_map_same, map_fmap_std, list_elem_of_fmap.
  split.
  - intros (k & -> & Hk). apply nonzero_elem in Hk as (c & Hc & Hc0).
    rewrite lookup_map_std in Hc.
    destruct (crossed !! k) as [j|] eqn:E; simpl in Hc; inversion Hc; subst.
    rewrite (list_lookup_total_correct _ _ _ E).
    split; [by eapply list_elem_of_lookup_2|done].
  - intros (Hin & Hc). apply list_elem_of_lookup_1 in Hin as (k & Hk).
    exists k. split; [by rewrite (list_lookup_total_correct _ _ _ Hk)|].
    apply nonzero_elem. eexists. rewrite lookup_map_std, Hk. simpl. eauto.
Qed.

Lemma revert_lookup (dm : Domain) (nodes : list point) (crossed : list nat)
    (bounced : list point) (i : nat) (x : point) :
  length bounced = length nodes -> nodes !! i = Some x ->
  revert dm nodes crossed bounced !! i =
    if decide (i ∈ crossed /\ intersection_count dm x (bounced !!! i) <> 0)
    then Some x else bounced !! i.
Proof.
  intros Hlen Hx. pose proof (list_lookup_total_correct _ _ _ Hx) as Hx'.
  unfold revert. cbv zeta.
  destruct decide as [Hc|Hc].
  - unfold rows at 3. rewrite scatter_map.
    + by rewrite Hx'.
    + apply revert_back_elem. by rewrite Hx'.
    + rewrite Hlen. by eapply lookup_lt_Some.
  - rewrite scatter_notin; [done|]. rewrite revert_back_elem, Hx'. done.
Qed.

Lemma crossed_elem (dm : Domain) (nodes new_nodes : list point) (i : nat)
    (x y : point) :
  nodes !! i = Some x -> new_nodes !! i = Some y ->
  i ∈ nonzero (zip_with (intersection_count dm) nodes new_nodes)
  <-> intersection_count dm x y <> 0.
Proof.
  intros Hx Hy. rewrite nonzero_elem, lookup_zip_with, Hx, Hy. simpl.
  split; [intros (c & Hc & ?); congruence|]. eauto.
Qed.

Lemma bounce_lookup (dm : Domain) (nodes new_nodes : list point) (i : nat)
    (x y : point) :
  nodes !! i = Some x -> new_nodes !! i = Some y ->
  (i ∈ (bounce dm nodes new_nodes).1 <-> intersection_count dm x y <> 0) /\
  snd (bounce dm nodes new_nodes) !! i =
    Some (if decide (intersection_count dm x y <> 0) then bounce_row dm x y
          else y).
Proof.
  intros Hx Hy. rewrite bounce_rowwise. simpl.
  split; [by apply crossed_elem|].
  destruct decide as [Hc|Hc].
  - rewrite scatter_map.
    + by rewrite (list_lookup_total_correct _ _ _ Hx),
        (list_lookup_total_correct _ _ _ Hy).
    + by eapply crossed_elem.
    + by eapply lookup_lt_Some.
  - rewrite scatter_notin; [done|]. by rewrite (crossed_elem _ _ _ _ x y).
Qed.

Lemma length_bounce (dm : Domain) (nodes new_nodes : list point) :
  length (snd (bounce dm nodes new_nodes)) = length new_nodes.
Proof. rewrite bounce_rowwise. simpl. apply length_scatter. Qed.

Lemma length_bounce_revert (dm : Domain) (nodes new_nodes : list point) :
  length (bounce_revert dm nodes new_nodes) = length new_nodes.
Proof.
  unfold bounce_revert. destruct (bounce dm nodes new_nodes) as [c b] eqn:E.
  unfold revert. rewrite length_scatter.
  change b with (c, b).2. rewrite <- E. apply length_bounce.
Qed.

Lemma length_disperse_step knn rho (nodes fixed : list point) nb delta
    (new_nodes : list point) :
  disperse_step knn rho nodes fixed nb delta = Some new_nodes ->
  length new_nodes = length nodes.
Proof.
  unfold disperse_step. destruct nodes as [|x0 nodes0]; [congruence|].
  intros H. apply bind_Some in H as (qs & Eq & H).
  apply mapM_Some_1, Forall2_length in Eq.
  apply mapM_Some_1, Forall2_length in H.
  rewrite <- H, length_zip_with. lia.
Qed.

End DisperseFacts.

(* ================================================================= *)
(** ** Claims about [disperse] *)

Module DisperseClaims.
Import Arr ArrFacts Disperse DisperseFacts SpecSide.
Local Open Scope R_scope.

(** C1 (amended).  In an iteration of [disperse], a free node that moves
    from [x] to the proposed [y] across the boundary (positive intersection
    count) is bounced to [y - 2*n*(r . n)], where [p] is the intersection
    point, [n] the outward normal of the crossed simplex and [r = y - p]
    the residual: the intersection point plus the residual reflected
    across [n], not the intersection point minus [2*n*(r . n)]. *)
Theorem bounce_position (dm : Domain) (nodes new_nodes : list point) (i : nat)
    (x y : point)
    (Hx : nodes !! i = Some x) (Hy : new_nodes !! i = Some y)
    (Hc : (0 < intersection_count dm x y)%nat) :
  let p := fst (intersection_point dm x y) in
  let n := dom_normals dm !!! snd (intersection_point dm x y) in
  let r := vsub y p in
  i ∈ fst (bounce dm nodes new_nodes) /\
  snd (bounce dm nodes new_nodes) !! i =
    Some (vsub y (map (fun nk => 2 * nk * vdot r n) n)).
Proof.
  cbv zeta. destruct (bounce_lookup dm nodes new_nodes i x y Hx Hy) as [Hin Hb].
  split; [apply Hin; lia|].
  rewrite Hb. destruct decide; [reflexivity|lia].
Qed.

(** C1 as stated fails: in the half plane [y < 1], the node at [(0, 0)]
    proposed to move to [(0, 2)] crosses [y = 1] at [(0, 1)]; it is
    bounced to [(0, 0)], while the spec's formula gives [(0, -1)]. *)
Lemma bounce_claimed_counterexample :
  lt 0 (intersection_count half_plane [0; 0] [0; 2]) /\
  snd (bounce half_plane [[0; 0]] [[0; 2]]) !! 0%nat <>
    Some (bounce_claimed half_plane [0; 0] [0; 2]).
Proof.
  assert (Hc : intersection_count half_plane [0; 0] [0; 2] = 1%nat).
  { simpl. unfold ycoord. simpl.
    destruct (Rlt_dec 0 1); [|lra]. destruct (Rle_dec 1 2); [done|lra]. }
  split; [rewrite Hc; lia|].
  destruct (bounce_lookup half_plane [[0; 0]] [[0; 2]] 0 [0; 0] [0; 2])
    as [_ Hb]; [done|done|].
  rewrite Hb, Hc. simpl. unfold bounce_row, bounce_claimed, ycoord. simpl.
  intros H. injection H as _ H. unfold ycoord in H. simpl in H.
  assert (E : (1 - 0) / (2 - 0) * (2 - 0) = 1) by field.
  rewrite E in H. lra.
Qed.

(** Witness for [bounce_position]. *)
Lemma bounce_position_witness :
  lt 0 (intersection_count half_plane [0; 0] [0; 2]) /\
  0%nat ∈ fst (bounce half_plane [[0; 0]] [[0; 2]]).
Proof.
  assert (Hc : lt 0 (intersection_count half_plane [0; 0] [0; 2])).
  { simpl. unfold ycoord. simpl.
    destruct (Rlt_dec 0 1); [|lra]. destruct (Rle_dec 1 2); [lia|lra]. }
  split; [exact Hc|].
  exact (proj1 (bounce_position half_plane [[0; 0]] [[0; 2]] 0 [0; 0] [0; 2]
                  eq_refl eq_refl Hc)).
Defined.

Lemma half_plane_zero (z : point) : intersection_count half_plane z z = 0%nat.
Proof.
  simpl. destruct (Rlt_dec (ycoord z) 1); [destruct (Rle_dec 1 (ycoord z))|
    destruct (Rlt_dec (ycoord z) 1)]; first [lra | done].
Qed.

(** C5.  Every iteration of [disperse] ends each free node at the proposed
    position [y] if the move from its start [x] crosses nothing, else at
    its bounced position if that crosses nothing, else back at [x]: no
    second bounce.  When a zero-length segment crosses nothing, the segment
    from each node's position before the iteration to its position after
    it never crosses the boundary. *)
Theorem iteration_no_crossing knn (dm : Domain) (rho : point -> R)
    (fixed_nodes : list point) (neighbors : Z) (delta : R)
    (nodes out : list point)
    (Hzero : forall z, intersection_count dm z z = 0%nat)
    (Hit : disperse_iteration knn dm rho fixed_nodes neighbors delta nodes
           = Some out) :
  exists new_nodes,
    disperse_step knn rho nodes fixed_nodes neighbors delta = Some new_nodes /\
    length out = length nodes /\
    forall i x y z, nodes !! i = Some x -> new_nodes !! i = Some y ->
      out !! i = Some z ->
      z = (if decide (intersection_count dm x y = 0%nat) then y
           else if decide (intersection_count dm x (bounce_row dm x y) = 0%nat)
           then bounce_row dm x y else x) /\
      intersection_count dm x z = 0%nat.
Proof.
  unfold disperse_iteration in Hit.
  apply bind_Some in Hit as (new_nodes & Hs & Hout). injection Hout as <-.
  pose proof (length_disperse_step _ _ _ _ _ _ _ Hs) as Hlen.
  exists new_nodes. split; [done|]. split.
  { by rewrite length_bounce_revert. }
  intros i x y z Hx Hy Hz.
  destruct (bounce_lookup dm nodes new_nodes i x y Hx Hy) as [Hin Hb].
  unfold bounce_revert in Hz.
  destruct (bounce dm nodes new_nodes) as [crossed bounced] eqn:E.
  simpl in Hin, Hb.
  assert (Hlb : length bounced = length nodes).
  { change bounced with (snd (crossed, bounced)). rewrite <- E.
    by rewrite length_bounce. }
  rewrite (revert_lookup dm nodes crossed bounced i x Hlb Hx) in Hz.
  rewrite (list_lookup_total_correct _ _ _ Hb) in Hz.
  destruct (decide (intersection_count dm x y <> 0%nat)) as [Hc|Hc].
  - destruct decide as [[_ Hs2]|Hs2].
    + injection Hz as <-. rewrite Hzero.
      destruct decide; [done|]. destruct decide; [done|]. done.
    + rewrite Hb in Hz. injection Hz as <-.
      destruct decide; [done|].
      assert (intersection_count dm x (bounce_row dm x y) = 0%nat)
        by (destruct (decide (intersection_count dm x (bounce_row dm x y) = 0%nat));
            [done|exfalso; apply Hs2; split; [apply Hin|]; done]).
      destruct decide; done.
  - destruct decide as [[Hc2 _]|_].
    + exfalso. apply Hc. by apply Hin.
    + rewrite Hb in Hz. injection Hz as <-.
      destruct decide as [H0|H0]; [split; [done|lia]|lia].
Qed.

(** Witness for [iteration_no_crossing]. *)
Lemma iteration_no_crossing_witness :
  (forall z, intersection_count half_plane z z = 0%nat) /\
  exists out,
    disperse_iteration knn_pair half_plane (fun _ => 1) [[0; 2]] 1%Z (1 / 10)
      [[0; 0]] = Some out /\ length out = 1%nat.
Proof.
  split; [exact half_plane_zero|].
  destruct (disperse_iteration knn_pair half_plane (fun _ => 1) [[0; 2]] 1%Z
              (1 / 10) [[0; 0]]) as [out|] eqn:Hit.
  2: { simpl in Hit. discriminate Hit. }
  exists out. split; [reflexivity|].
  destruct (iteration_no_crossing knn_pair half_plane (fun _ => 1) [[0; 2]] 1%Z
              (1 / 10) [[0; 0]] out half_plane_zero Hit) as (nn & _ & Hl & _).
  exact Hl.
Defined.

End DisperseClaims.

(* ================================================================= *)
(** ** Claims about [disperse] on an empty node set, and its effects *)

Module DisperseRunClaims.
Import Arr ArrFacts Disperse DisperseFacts SpecSide Store.
Local Open Scope R_scope.

Lemma loop_empty knn (dm : Domain) rho (fixed_nodes : list point) nb delta
    (iterations : nat) :
  disperse_loop knn dm rho fixed_nodes nb delta iterations [] = Some [].
Proof. induction iterations as [|it IH]; simpl; [done|]. exact IH. Qed.

(** C9.  [disperse] on an empty free-node set returns the empty array,
    whatever the neighbour query does: it is never called, so it may even
    fault on every call. *)
Theorem disperse_empty knn (dm : Domain) (iterations : nat)
    (rho : option (point -> R)) (fixed_nodes : option (list point))
    (neighbors : option Z) (delta : R)
    (Hdim : dom_dim dm = 2%nat \/ dom_dim dm = 3%nat)
    (Hfixed : forall f, fixed_nodes = Some f -> shape_ok (dom_dim dm) f = true) :
  disperse knn dm [] iterations rho fixed_nodes neighbors delta = Some [].
Proof.
  unfold disperse. simpl.
  destruct fixed_nodes as [f|].
  - rewrite (Hfixed f eq_refl). simpl.
    destruct neighbors as [m|]; simpl; [apply loop_empty|].
    destruct Hdim as [-> | ->]; simpl; apply loop_empty.
  - simpl. destruct neighbors as [m|]; simpl; [apply loop_empty|].
    destruct Hdim as [-> | ->]; simpl; apply loop_empty.
Qed.

(** Witness for [disperse_empty], with a neighbour query that always
    faults. *)
Lemma disperse_empty_witness :
  dom_dim half_plane = 2%nat /\
  disperse (fun _ _ _ => None) half_plane [] 20 None None None (1 / 10)
    = Some [].
Proof.
  split; [reflexivity|].
  apply disperse_empty; [left; reflexivity|].
  intros f Hf. discriminate Hf.
Defined.

End DisperseRunClaims.

(* ================================================================= *)
(** ** The store model of [disperse] *)

Module StoreFacts.
Import Arr Disperse DisperseFacts Store.

Lemma alloc_fresh (v : list point) (h : heap) :
  fst (alloc v h) ∉ dom h.
Proof. unfold alloc. simpl. apply is_fresh. Qed.

Lemma iteration_st_spec knn dm rho lfix nb delta l h l' h' :
  iteration_st knn dm rho lfix nb delta l h = Some (l', h') ->
  (l' ∉ dom h) /\
  (forall l0, l0 ∈ dom h -> h' !! l0 = h !! l0) /\
  exists nodes fixed_nodes,
    h !! l = Some nodes /\ h !! lfix = Some fixed_nodes /\
    disperse_iteration knn dm rho fixed_nodes nb delta nodes = h' !! l' /\
    is_Some (h' !! l').
Proof.
  unfold iteration_st, alloc. intros H.
  apply bind_Some in H as (nodes & Hl & H).
  apply bind_Some in H as (fx & Hf & H).
  apply bind_Some in H as (st & Hs & H).
  cbv beta iota zeta in H.
  rewrite lookup_insert_eq in H.
  apply bind_Some in H as (st' & Hst & H). injection Hst as <-.
  destruct (bounce dm nodes st) as [crossed bounced] eqn:Hb.
  cbv beta iota zeta in H.
  rewrite lookup_insert_eq in H.
  apply bind_Some in H as (b' & Hb' & H). injection Hb' as <-.
  injection H as <- <-.
  pose proof (is_fresh (dom h)) as Hfr.
  split; [exact Hfr|]. split.
  - intros l0 Hl0.
    assert (l0 <> fresh (dom h)) by (intros ->; contradiction).
    rewrite !lookup_insert_ne by congruence. reflexivity.
  - exists nodes, fx. split; [done|]. split; [done|].
    unfold disperse_iteration. rewrite Hs. simpl.
    rewrite lookup_insert_eq. unfold bounce_revert. rewrite Hb.
    split; [reflexivity|eauto].
Qed.

Lemma loop_st_spec knn dm rho lfix nb delta it l h l' h' :
  loop_st knn dm rho lfix nb delta it l h = Some (l', h') ->
  (forall l0, l0 ∈ dom h -> h' !! l0 = h !! l0) /\
  (it <> 0%nat -> l' ∉ dom h) /\
  (it = 0%nat -> l' = l /\ h' = h).
Proof.
  revert l h. induction it as [|it IH]; intros l h H; simpl in H.
  - injection H as <- <-. split; [done|]. split; [lia|done].
  - destruct (iteration_st knn dm rho lfix nb delta l h) as [[l1 h1]|] eqn:E;
      simpl in H; [|discriminate].
    apply iteration_st_spec in E as (Hfr & Hfr1 & _).
    apply IH in H as (Hh & Hnew & Hzero).
    assert (Hsub : forall l0, l0 ∈ dom h -> l0 ∈ dom h1).
    { intros l0 Hl0. apply elem_of_dom in Hl0 as [v Hv].
      apply elem_of_dom. exists v. rewrite Hfr1; [done|].
      apply elem_of_dom. eauto. }
    split; [|split; [|lia]].
    + intros l0 Hl0. rewrite Hh by auto. auto.
    + intros _. destruct it as [|it].
      * destruct Hzero as [-> _]; [done|]. exact Hfr.
      * intros Hin. apply (Hnew ltac:(lia)). auto.
Qed.

Lemma loop_st_agree knn dm rho lfix nb delta it l h l' h' nodes fixed_nodes :
  loop_st knn dm rho lfix nb delta it l h = Some (l', h') ->
  h !! l = Some nodes -> h !! lfix = Some fixed_nodes ->
  disperse_loop knn dm rho fixed_nodes nb delta it nodes = h' !! l'.
Proof.
  revert l h nodes. induction it as [|it IH]; intros l h nodes H Hl Hf;
    simpl in H |- *.
  - injection H as <- <-. rewrite Hl. reflexivity.
  - destruct (iteration_st knn dm rho lfix nb delta l h) as [[l1 h1]|] eqn:E;
      simpl in H; [|discriminate].
    apply iteration_st_spec in E as (_ & Hfr & n0 & f0 & Hl0 & Hf0 & Hit & [n1 Hn1]).
    rewrite Hl in Hl0. injection Hl0 as <-.
    rewrite Hf in Hf0. injection Hf0 as <-.
    rewrite Hit, Hn1. simpl.
    apply (IH l1 h1 n1 H Hn1).
    rewrite Hfr; [exact Hf|]. apply elem_of_dom. eauto.
Qed.

End StoreFacts.

(* ================================================================= *)
(** ** [disperse] leaves its caller's arrays alone *)

Module DisperseStoreClaims.
Import Arr Disperse DisperseFacts Store StoreFacts SpecSide.
Local Open Scope R_scope.

(** C10.  A run of [disperse] on the arrays of a store [h] (free nodes at
    [ln], fixed nodes at [lfixed] when given) leaves every array that
    existed before the call unchanged; after one iteration or more its
    result is an array that did not exist before; and that result is the
    one the pure model [disperse] computes from the arrays' contents. *)
Theorem disperse_st_frame knn dm ln iterations rho lfixed neighbors delta
    (h : heap) l' h'
    (Hrun : disperse_st knn dm ln iterations rho lfixed neighbors delta h
            = Some (l', h')) :
  (forall l, l ∈ dom h -> h' !! l = h !! l) /\
  (iterations <> 0%nat -> l' ∉ dom h) /\
  exists nodes, h !! ln = Some nodes /\
    disperse knn dm nodes iterations rho (lfixed ≫= fun lf => h !! lf)
      neighbors delta = h' !! l'.
Proof.
  unfold disperse_st in Hrun.
  apply bind_Some in Hrun as (nodes & Hn & H).
  destruct (shape_ok (dom_dim dm) nodes) eqn:Hs; [|discriminate H].
  unfold negb in H. cbv beta iota zeta in H.
  destruct lfixed as [lf|].
  - apply bind_Some in H as ([lf' h0] & Ha & H).
    apply bind_Some in Ha as (f & Hf & Ha).
    destruct (shape_ok (dom_dim dm) f) eqn:Hsf; [|discriminate Ha].
    injection Ha as <- <-.
    apply bind_Some in H as (fx & Hfx & H). rewrite Hf in Hfx. injection Hfx as <-.
    apply bind_Some in H as (nb & Hnb & H).
    pose proof (loop_st_spec _ _ _ _ _ _ _ _ _ _ _ H) as (Hfr & Hnew & _).
    split; [exact Hfr|]. split; [exact Hnew|].
    exists nodes. split; [exact Hn|].
    rewrite <- (loop_st_agree _ _ _ _ _ _ _ _ _ _ _ _ _ H Hn Hf).
    unfold disperse. rewrite Hs. simpl. rewrite Hf. simpl. rewrite Hsf. simpl.
    rewrite Hnb. reflexivity.
  - apply bind_Some in H as ([lf' h0] & Ha & H).
    unfold alloc in Ha. injection Ha as <- <-.
    apply bind_Some in H as (fx & Hfx & H).
    rewrite lookup_insert_eq in Hfx. injection Hfx as <-.
    apply bind_Some in H as (nb & Hnb & H).
    pose proof (loop_st_spec _ _ _ _ _ _ _ _ _ _ _ H) as (Hfr & Hnew & _).
    pose proof (is_fresh (dom h)) as Hfresh.
    assert (Hframe : forall l, l ∈ dom h ->
              (<[fresh (dom h) := []]> h : heap) !! l = h !! l).
    { intros l Hl. rewrite lookup_insert_ne; [done|]. intros <-. contradiction. }
    assert (Hsub : forall l, l ∈ dom h -> l ∈ dom (<[fresh (dom h) := []]> h : heap)).
    { intros l Hl. rewrite dom_insert. set_solver. }
    split.
    { intros l Hl. rewrite Hfr by auto. auto. }
    split.
    { intros Hit Hin. apply (Hnew Hit). auto. }
    exists nodes. split; [exact Hn|].
    assert (Hn' : (<[fresh (dom h) := []]> h : heap) !! ln = Some nodes).
    { rewrite Hframe; [done|]. apply elem_of_dom. eauto. }
    rewrite <- (loop_st_agree _ _ _ _ _ _ _ _ _ _ _ _ _ H Hn'
                 ltac:(apply lookup_insert_eq)).
    unfold disperse. rewrite Hs. simpl. rewrite Hnb. reflexivity.
Qed.

(** Witness for [disperse_st_frame]: one iteration on a store holding the
    free nodes at 0 and the fixed nodes at 1. *)
Lemma disperse_st_frame_witness :
  exists l' h',
    disperse_st knn_pair half_plane 0%nat 1%nat None (Some 1%nat) (Some 1%Z)
      (1 / 10) (<[0%nat := [[0; 0]]]> (<[1%nat := [[0; 2]]]> ∅)) = Some (l', h') /\
    h' !! 0%nat = Some [[0; 0]].
Proof.
  destruct (disperse_st knn_pair half_plane 0%nat 1%nat None (Some 1%nat) (Some 1%Z)
      (1 / 10) (<[0%nat := [[0; 0]]]> (<[1%nat := [[0; 2]]]> ∅))) as [[l' h']|] eqn:Hrun.
  2: { vm_compute in Hrun. discriminate Hrun. }
  exists l', h'. split; [reflexivity|].
  destruct (disperse_st_frame _ _ _ _ _ _ _ _ _ _ _ Hrun) as (Hfr & _ & _).
  rewrite Hfr.
  - reflexivity.
  - rewrite elem_of_dom. eexists. reflexivity.
Defined.

End DisperseStoreClaims.


(* ================================================================= *)
(** ** Facts about one dispersion step *)

Module StepFacts.
Import Arr ArrFacts Disperse SpecSide.
Local Open Scope R_scope.

Lemma force_eq rho x y d : force rho x y d = force_claimed rho x y d.
Proof.
  unfold force, force_claimed. apply map_ext. intros k.
  unfold Rdiv. rewrite !Rinv_mult. ring.
Qed.

Lemma length_vsub x y : length (vsub x y) = Nat.min (length x) (length y).
Proof. unfold vsub. apply length_zip_with. Qed.

Lemma length_vadd x y : length (vadd x y) = Nat.min (length x) (length y).
Proof. unfold vadd. apply length_zip_with. Qed.

Lemma length_force rho x y d : length (force rho x y d) = Nat.min (length x) (length y).
Proof. unfold force. rewrite length_map_std. apply length_vsub. Qed.

Lemma length_sum (n : nat) (fs : list point) :
  Forall (fun f => length f = n) fs -> length (foldr vadd (repeat 0 n) fs) = n.
Proof.
  induction 1 as [|f fs Hf _ IH]; simpl; [apply List.repeat_length|].
  rewrite length_vadd, Hf, IH. lia.
Qed.

Lemma vdot_cons c v : vdot (c :: v) (c :: v) = c * c + vdot v v.
Proof. reflexivity. Qed.

Lemma vdot_nonneg v : 0 <= vdot v v.
Proof.
  induction v as [|c v IH]; [unfold vdot; simpl; lra|].
  rewrite vdot_cons. pose proof (Rle_0_sqr c). unfold Rsqr in *. lra.
Qed.

Lemma vdot_zero v : vdot v v = 0 -> v = repeat 0 (length v).
Proof.
  induction v as [|c v IH]; [done|]. rewrite vdot_cons. intros H.
  pose proof (Rle_0_sqr c). pose proof (vdot_nonneg v). unfold Rsqr in *.
  assert (Hc : c * c = 0) by lra.
  apply Rmult_integral in Hc. assert (c = 0) as -> by (destruct Hc; done).
  simpl. f_equal. apply IH. lra.
Qed.

Lemma vdot_repeat0 n : vdot (repeat 0 n) (repeat 0 n) = 0.
Proof.
  induction n as [|n IH]; [reflexivity|]. change (repeat 0 (S n)) with (0 :: repeat 0 n).
  rewrite vdot_cons, IH. ring.
Qed.

Lemma vdot_scale (a : R) v :
  vdot (map (fun c => c * a) v) (map (fun c => c * a) v) = vdot v v * (a * a).
Proof.
  induction v as [|c v IH]; [unfold vdot; simpl; ring|].
  cbn [map]. rewrite !vdot_cons, IH. ring.
Qed.

Lemma normalize_zero n : normalize (repeat 0 n) = repeat 0 n.
Proof.
  unfold normalize. unfold norm. rewrite vdot_repeat0, sqrt_0.
  induction n as [|n IH]; [done|]. cbn [repeat map]. rewrite IH.
  unfold ieee_div. destruct (Req_EM_T 0 0); [|contradiction]. reflexivity.
Qed.

Lemma normalize_unit (v : point) :
  v <> repeat 0 (length v) ->
  normalize v = map (fun c => c / norm v) v /\ norm (normalize v) = 1.
Proof.
  intros Hv.
  assert (Hn : norm v <> 0).
  { unfold norm. intros H. apply Hv, vdot_zero.
    pose proof (vdot_nonneg v). apply sqrt_eq_0 in H; done. }
  assert (Heq : normalize v = map (fun c => c / norm v) v).
  { unfold normalize. apply map_ext. intros c. unfold ieee_div.
    destruct (Req_EM_T (norm v) 0); [contradiction|]. reflexivity. }
  split; [done|]. rewrite Heq.
  assert (Hmap : map (fun c => c / norm v) v = map (fun c => c * / norm v) v)
    by (apply map_ext; intros c; reflexivity).
  unfold norm at 1. rewrite Hmap, vdot_scale.
  pose proof (vdot_nonneg v) as H0.
  assert (Hsq : vdot v v = norm v * norm v)
    by (unfold norm; rewrite sqrt_sqrt; done).
  rewrite Hsq. replace (norm v * norm v * (/ norm v * / norm v)) with 1
    by (field; done).
  apply sqrt_1.
Qed.

Lemma vadd_zero_step (x : point) (a : R) :
  vadd x (map (fun uk => a * uk) (repeat 0 (length x))) = x.
Proof.
  induction x as [|c x IH]; [done|]. cbn [length repeat map].
  unfold vadd in *. cbn [zip_with]. rewrite IH. f_equal. ring.
Qed.

Lemma forces_some rho (all : list point) x (q : list (R * nat)) :
  Forall (fun dj => is_Some (all !! dj.2)) q ->
  mapM (fun dj => y ← all !! dj.2; Some (force rho x y dj.1)) q =
    Some (map (fun dj => force rho x (all !!! dj.2) dj.1) q).
Proof.
  induction 1 as [|dj q [y Hy] _ IH]; [done|].
  cbn [mapM map]. rewrite Hy. cbn [mbind option_bind]. rewrite IH.
  cbn [mbind option_bind]. rewrite (list_lookup_total_correct _ _ _ Hy). done.
Qed.

Lemma step_row_some rho (all : list point) delta x d0 j0 q' :
  Forall (fun dj => is_Some (all !! dj.2)) ((d0, j0) :: q') ->
  step_row rho all delta x ((d0, j0) :: q') =
    Some (vadd x (map (fun uk => delta * d0 * uk)
      (normalize (foldr vadd (repeat 0 (length x))
         (map (fun dj => force rho x (all !!! dj.2) dj.1) ((d0, j0) :: q')))))).
Proof.
  intros Hq. unfold step_row. rewrite forces_some by done. reflexivity.
Qed.

(** The distance between [(0, 0)] and [(0, 2)]. *)
Lemma norm_pair_dist : norm (vsub [0; 0] [0; 2]) = 2.
Proof.
  unfold norm, vdot, vsub. cbn.
  replace ((0 - 0) * (0 - 0) + ((0 - 2) * (0 - 2) + 0)) with (2 * 2) by ring.
  apply sqrt_square. lra.
Qed.

End StepFacts.


(* ================================================================= *)
(** ** The rows of one dispersion step (C4) *)

Module StepClaims.
Import Arr ArrFacts Disperse DisperseFacts SpecSide StepFacts.
Local Open Scope R_scope.

(** C4.  For a non-empty set of free nodes, with a neighbour query that
    returns the query node itself first (at distance 0) followed by at
    least one other point of the merged free+fixed pool, each with its
    true distance, the nearest one first: the step succeeds with one row
    per free node, and row [i] is [x + delta * d0 * u], where [d0] is the
    distance from [x] to its nearest other point of the pool and [u] is
    the unit vector along the sum [F] of the forces
    [(x - y) / (rho y * rho x * d^3)] over the returned neighbours; when
    [F] is exactly zero, [u] is zero and the node stays at [x]. *)
Theorem disperse_step_rows knn rho (nodes fixed_nodes : list point) (neighbors : Z)
    (delta : R) (dim : nat) :
  nodes <> [] ->
  Forall (fun y => length y = dim) (nodes ++ fixed_nodes) ->
  (forall i x, nodes !! i = Some x ->
     exists q, knn (nodes ++ fixed_nodes) x (Z.to_nat (neighbors + 1)) = Some ((0, i) :: q) /\
       q <> [] /\
       Forall (fun dj => dj.2 <> i /\ exists y, (nodes ++ fixed_nodes) !! dj.2 = Some y /\
                                           dj.1 = norm (vsub x y)) q /\
       (forall j y, j <> i -> (nodes ++ fixed_nodes) !! j = Some y ->
          fst (hd (0, 0%nat) q) <= norm (vsub x y))) ->
  exists out, disperse_step knn rho nodes fixed_nodes neighbors delta = Some out /\
    length out = length nodes /\
    forall i x, nodes !! i = Some x ->
      exists q d0 u,
        knn (nodes ++ fixed_nodes) x (Z.to_nat (neighbors + 1)) = Some ((0, i) :: q) /\
        (exists j y, j <> i /\ (nodes ++ fixed_nodes) !! j = Some y /\ d0 = norm (vsub x y)) /\
        (forall j y, j <> i -> (nodes ++ fixed_nodes) !! j = Some y -> d0 <= norm (vsub x y)) /\
        out !! i = Some (vadd x (map (fun uk => delta * d0 * uk) u)) /\
        let F := foldr vadd (repeat 0 dim)
                   (map (fun dj => force_claimed rho x ((nodes ++ fixed_nodes) !!! dj.2) dj.1) q) in
        (F = repeat 0 dim -> u = repeat 0 dim /\ out !! i = Some x) /\
        (F <> repeat 0 dim -> u = map (fun c => c / norm F) F /\ norm u = 1).
Proof.
  intros Hne Hdim Hknn.
  assert (Hqs : is_Some (mapM (fun x => knn (nodes ++ fixed_nodes) x
                                         (Z.to_nat (neighbors + 1))) nodes)).
  { apply mapM_is_Some_2, Forall_lookup. intros i x Hx.
    destruct (Hknn i x Hx) as (q & Hq & _). unfold compose. rewrite Hq. eauto. }
  destruct Hqs as [qs Hqs].
  pose proof (mapM_Some_1 _ _ _ Hqs) as Hqs2.
  assert (Hrow : forall p x qx, nodes !! p = Some x -> qs !! p = Some qx ->
            exists q d0 j0 q',
              knn (nodes ++ fixed_nodes) x (Z.to_nat (neighbors + 1)) = Some ((0, p) :: q) /\
              qx = (0, p) :: q /\ q = (d0, j0) :: q' /\
              step_row rho (nodes ++ fixed_nodes) delta x (tail qx) =
                Some (vadd x (map (fun uk => delta * d0 * uk)
                  (normalize (foldr vadd (repeat 0 (length x))
                     (map (fun dj => force rho x ((nodes ++ fixed_nodes) !!! dj.2) dj.1) q)))))).
  { intros p x qx Hx Hqx.
    destruct (Forall2_lookup_l _ _ _ _ _ Hqs2 Hx) as (qx' & Hqx' & Hk).
    rewrite Hqx in Hqx'. injection Hqx' as <-.
    destruct (Hknn p x Hx) as (q & Hq & Hqne & Hqv & _).
    rewrite Hq in Hk. injection Hk as <-.
    destruct q as [|[d0 j0] q']; [contradiction|].
    exists ((d0, j0) :: q'), d0, j0, q'. split; [done|]. split; [done|]. split; [done|].
    cbn [tail]. apply step_row_some.
    eapply Forall_impl; [exact Hqv|]. intros dj (_ & y & Hy & _). rewrite Hy. eauto. }
  assert (Hrows : is_Some (mapM (fun xq => step_row rho (nodes ++ fixed_nodes) delta
                                              xq.1 (tail xq.2)) (zip nodes qs))).
  { apply mapM_is_Some_2, Forall_lookup. intros p [x qx] Hp.
    rewrite lookup_zip_with in Hp.
    destruct (nodes !! p) as [x'|] eqn:Hx; [|discriminate].
    destruct (qs !! p) as [qx'|] eqn:Hqx; [|discriminate].
    injection Hp as -> ->.
    destruct (Hrow p x qx Hx Hqx) as (q & d0 & j0 & q' & _ & _ & _ & Hs).
    unfold compose. cbn [fst snd]. rewrite Hs. eauto. }
  destruct Hrows as [out Hout].
  assert (Hds : disperse_step knn rho nodes fixed_nodes neighbors delta = Some out).
  { unfold disperse_step. destruct nodes as [|n0 ns]; [contradiction|].
    cbv zeta. rewrite Hqs. exact Hout. }
  exists out. split; [done|]. split; [exact (DisperseFacts.length_disperse_step _ _ _ _ _ _ _ Hds)|].
  intros i x Hx.
  destruct (Forall2_lookup_l _ _ _ _ _ Hqs2 Hx) as (qx & Hqx & _).
  destruct (Hrow i x qx Hx Hqx) as (q & d0 & j0 & q' & Hk & -> & -> & Hs).
  pose proof (mapM_Some_1 _ _ _ Hout) as Hout2.
  assert (Hz : zip nodes qs !! i = Some (x, (0, i) :: (d0, j0) :: q'))
    by (rewrite lookup_zip_with, Hx, Hqx; done).
  destruct (Forall2_lookup_l _ _ _ _ _ Hout2 Hz) as (r & Hr & Hsr).
  cbn [fst snd] in Hsr. rewrite Hs in Hsr. injection Hsr as <-.
  destruct (Hknn i x Hx) as (q0 & Hq0 & _ & Hqv & Hnear).
  rewrite Hk in Hq0. injection Hq0 as <-.
  assert (Hxl : length x = dim).
  { rewrite Forall_lookup in Hdim. apply (Hdim i). rewrite lookup_app_l; [done|].
    apply lookup_lt_Some in Hx. done. }
  set (F := foldr vadd (repeat 0 dim)
              (map (fun dj => force_claimed rho x ((nodes ++ fixed_nodes) !!! dj.2) dj.1)
                 ((d0, j0) :: q'))).
  assert (HF : foldr vadd (repeat 0 (length x))
                 (map (fun dj => force rho x ((nodes ++ fixed_nodes) !!! dj.2) dj.1)
                    ((d0, j0) :: q')) = F).
  { unfold F. rewrite Hxl. f_equal. apply map_ext. intros dj. apply force_eq. }
  cbn [map fold_right fst snd] in HF. rewrite HF in Hr.
  assert (HFl : length F = dim).
  { apply length_sum. apply Forall_forall. intros f Hf.
    apply list_elem_of_In, in_map_iff in Hf as (dj & <- & Hdj).
    rewrite Forall_forall in Hqv. destruct (Hqv dj (proj2 (list_elem_of_In _ _) Hdj))
      as (_ & y & Hy & _).
    unfold force_claimed. rewrite length_map_std, length_vsub.
    rewrite (list_lookup_total_correct _ _ _ Hy).
    rewrite Forall_lookup in Hdim. rewrite (Hdim _ _ Hy). lia. }
  exists ((d0, j0) :: q'), d0, (normalize F).
  split; [done|]. split.
  { apply Forall_cons in Hqv as [(Hj0 & y & Hy & Hd0) _].
    exists j0, y. done. }
  split; [intros j y Hj Hy; exact (Hnear j y Hj Hy)|].
  split; [done|]. cbv zeta. fold F. split.
  - intros HF0. rewrite HF0, normalize_zero. split; [done|].
    rewrite Hr, HF0, normalize_zero, <- Hxl, vadd_zero_step. done.
  - intros HF0. apply normalize_unit. rewrite HFl. done.
Qed.

(** Witness for [disperse_step_rows]. *)
Lemma disperse_step_rows_witness :
  exists out, disperse_step SpecSide.knn_pair (fun _ => 1) [[0; 0]] [[0; 2]] 1 1 = Some out /\
    length out = 1%nat.
Proof.
  destruct (disperse_step_rows SpecSide.knn_pair (fun _ => 1) [[0; 0]] [[0; 2]] 1 1 2)
    as (out & Hout & Hlen & _).
  - discriminate.
  - repeat constructor.
  - intros i x Hx. destruct i as [|i]; [|destruct i; discriminate].
    injection Hx as <-. exists [(2, 1%nat)]. split; [reflexivity|].
    split; [discriminate|]. split.
    + constructor; [|constructor]. split; [discriminate|].
      exists [0; 2]. split; [reflexivity|]. cbn [fst]. symmetry. apply norm_pair_dist.
    + intros j y Hj Hy. destruct j as [|[|j]]; [done| |discriminate].
      injection Hy as <-. cbn [hd fst]. rewrite norm_pair_dist. lra.
  - exists out. split; [exact Hout|exact Hlen].
Defined.

End StepClaims.


(* ================================================================= *)
(** ** Facts about the reordering, and the reordering claim (C2) *)

Module PrepareFacts.
Import Arr ArrFacts Prepare.

Lemma res_mapM_Forall2 {A B} (f : A -> res B) (l : list A) (k : list B) :
  mapM f l = inr k -> Forall2 (fun x y => f x = inr y) l k.
Proof.
  revert k. induction l as [|x l IH]; intros k H; simpl in H.
  - injection H as <-. constructor.
  - destruct (f x) as [e|y] eqn:Hf; simpl in H; [discriminate|].
    destruct (mapM f l) as [e|k'] eqn:Hm; simpl in H; [discriminate|].
    injection H as <-. constructor; auto.
Qed.

Lemma gather_spec {A} (a : list A) (idx : list nat) (l : list A) :
  gather a idx = inr l ->
  length l = length idx /\
  forall p i, idx !! p = Some i -> is_Some (a !! i) /\ l !! p = a !! i.
Proof.
  unfold gather. destruct (mapM (fun i => a !! i) idx) as [l'|] eqn:Hm;
    [|discriminate]. intros H. injection H as <-.
  apply mapM_Some_1 in Hm.
  split; [symmetry; exact (Forall2_length _ _ _ Hm)|].
  intros p i Hp.
  destruct (Forall2_lookup_l _ _ _ _ _ Hm Hp) as (y & Hy & Hai).
  rewrite Hy, Hai. eauto.
Qed.

Global Instance key_le_total : Total key_le.
Proof. intros a b. unfold key_le. lia. Qed.

Global Instance key_le_trans : Transitive key_le.
Proof. intros a b c. unfold key_le. lia. Qed.

Lemma sorted_seq (a n : nat) : Sorted le (seq a n).
Proof.
  revert a. induction n as [|n IH]; intros a; simpl; constructor; [apply IH|].
  destruct n; simpl; constructor; lia.
Qed.

(** [np.argsort] of a permutation of [0..n-1] is its inverse. *)
Lemma argsort_inv (sigma : list nat) (n : nat) :
  sigma ≡ₚ seq 0 n ->
  length (argsort sigma) = n /\
  forall i, i < n -> exists j, argsort sigma !! i = Some j /\ sigma !! j = Some i.
Proof.
  intros Hp.
  assert (Hlen : length sigma = n) by (rewrite Hp, length_seq; done).
  unfold argsort.
  set (L := zip sigma (seq 0 (length sigma))).
  set (M := merge_sort key_le L).
  assert (HM : M ≡ₚ L) by apply merge_sort_Permutation.
  assert (HS : Sorted key_le M) by (apply Sorted_merge_sort; apply _).
  assert (Hkeys : fst <$> M = seq 0 n).
  { apply (@Sorted_unique nat le); [apply _ | apply _ | | |].
    - apply (Sorted_fmap fst key_le le); [|exact HS]. intros x y Hxy. exact Hxy.
    - apply sorted_seq.
    - rewrite HM. unfold L. rewrite fst_zip by (rewrite length_seq; lia).
      exact Hp. }
  split.
  - rewrite length_map_std, <- (length_fmap fst M), Hkeys, length_seq. done.
  - intros i Hi.
    assert (Hk : (fst <$> M) !! i = Some i)
      by (rewrite Hkeys, lookup_seq_lt by lia; done).
    rewrite list_lookup_fmap in Hk.
    destruct (M !! i) as [[k j]|] eqn:Hm; simpl in Hk; [|discriminate].
    injection Hk as ->.
    exists j. split; [rewrite lookup_map_std, Hm; done|].
    assert (Hin : (i, j) ∈ L)
      by (rewrite <- HM; eapply list_elem_of_lookup_2; eauto).
    apply list_elem_of_lookup_1 in Hin as [p Hp'].
    unfold L in Hp'. rewrite lookup_zip_with in Hp'.
    destruct (sigma !! p) as [s|] eqn:Hs; simpl in Hp'; [|discriminate].
    destruct (seq 0 (length sigma) !! p) as [q|] eqn:Hq; simpl in Hp';
      [|discriminate].
    injection Hp' as -> ->.
    apply lookup_seq in Hq as [-> _]. exact Hs.
Qed.

Lemma reorder_spec {Flt} (sort_idx : list nat) (nodes normals : list (list Flt))
    groups nodes' normals' groups' :
  reorder sort_idx nodes normals groups = inr (nodes', normals', groups') ->
  gather nodes sort_idx = inr nodes' /\ gather normals sort_idx = inr normals' /\
  Forall2 (fun kv kv' => kv'.1 = kv.1 /\ gather (argsort sort_idx) kv.2 = inr kv'.2)
    groups groups'.
Proof.
  unfold reorder.
  destruct (gather nodes sort_idx) as [e|n1] eqn:Hn; simpl; [discriminate|].
  destruct (gather normals sort_idx) as [e|m1] eqn:Hm; simpl; [discriminate|].
  destruct (mapM _ groups) as [e|g1] eqn:Hg; simpl; [discriminate|].
  intros H. injection H as <- <- <-.
  split; [done|]. split; [done|].
  apply res_mapM_Forall2 in Hg. eapply Forall2_impl; [exact Hg|].
  intros [k v] [k' v'] H. simpl in H |- *.
  destruct (gather (argsort sort_idx) v) as [e|w] eqn:Hw; simpl in H; [discriminate|].
  injection H as <- <-. done.
Qed.

End PrepareFacts.

Module PrepareClaims.
Import Arr ArrFacts Prepare PrepareFacts.

(** C2.  Reordering the arrays by a permutation [sort_idx] of the node
    indices and remapping every group through [argsort sort_idx] keeps
    every association: the group keeps its name and its length, and the
    remapped [p]-th index of a group points, in the reordered arrays, at
    the node and the normal row its [p]-th index pointed at before. *)
Theorem reorder_roundtrip {Flt} (sort_idx : list nat) (nodes normals : list (list Flt))
    (groups : groups_t) nodes' normals' groups'
    (Hperm : sort_idx ≡ₚ seq 0 (length nodes))
    (Hr : reorder sort_idx nodes normals groups = inr (nodes', normals', groups')) :
  length groups' = length groups /\
  forall k name idx, groups !! k = Some (name, idx) ->
    exists idx', groups' !! k = Some (name, idx') /\ length idx' = length idx /\
      forall p i, idx !! p = Some i ->
        exists i', idx' !! p = Some i' /\ is_Some (nodes !! i) /\
          nodes' !! i' = nodes !! i /\ normals' !! i' = normals !! i.
Proof.
  apply reorder_spec in Hr as (Hn & Hm & Hg).
  destruct (argsort_inv sort_idx (length nodes) Hperm) as [Hal Hinv].
  apply gather_spec in Hn as [Hnl Hn]. apply gather_spec in Hm as [Hml Hm].
  split; [symmetry; exact (Forall2_length _ _ _ Hg)|].
  intros k name idx Hk.
  destruct (Forall2_lookup_l _ _ _ _ _ Hg Hk) as ([name' idx'] & Hk' & Heq & Hga).
  simpl in Heq, Hga. subst name'.
  apply gather_spec in Hga as [Hil Hga].
  exists idx'. split; [done|]. split; [done|].
  intros p i Hp.
  destruct (Hga p i Hp) as [[j Hj] Hpi].
  destruct (Hinv i) as (j' & Hj' & Hs).
  { apply lookup_lt_Some in Hj. rewrite Hal in Hj. exact Hj. }
  rewrite Hj in Hj'. injection Hj' as <-.
  exists j. split; [rewrite Hpi; exact Hj|].
  destruct (Hn j i Hs) as [Hni Hn']. destruct (Hm j i Hs) as [_ Hm'].
  auto.
Qed.

(** Witness for [reorder_roundtrip]: swapping two nodes. *)
Lemma reorder_roundtrip_witness :
  length [("interior", [1])] = length [("interior", [0])] /\
  reorder [1; 0] [[10]; [11]] [[20]; [21]] [("interior", [0])]
    = inr ([[11]; [10]], [[21]; [20]], [("interior", [1])]).
Proof.
  assert (Hr : reorder [1; 0] [[10]; [11]] [[20]; [21]] [("interior", [0])]
               = inr ([[11]; [10]], [[21]; [20]], [("interior", [1])]))
    by reflexivity.
  split; [|exact Hr].
  destruct (reorder_roundtrip [1; 0] [[10]; [11]] [[20]; [21]] [("interior", [0])]
              _ _ _ ltac:(apply perm_swap) Hr) as [Hl _].
  exact Hl.
Defined.

End PrepareClaims.


(* ================================================================= *)
(** ** Facts about the grouping stages *)

Module GroupFacts.
Import Arr ArrFacts Prepare PrepareFacts PrepareSpec.

Lemma dict_get_set {V} (k k' : string) (v : V) (d : list (string * V)) :
  dict_get k (dict_set k' v d) = if String.eqb k k' then Some v else dict_get k d.
Proof.
  induction d as [|[k1 v1] d IH]; simpl.
  - done.
  - destruct (String.eqb_spec k' k1) as [->|Hne]; simpl.
    + destruct (String.eqb k k1); done.
    + rewrite IH. destruct (String.eqb_spec k k1) as [->|]; [|done].
      destruct (String.eqb_spec k1 k') as [->|]; [congruence|done].
Qed.

Lemma dict_set_new {V} (k : string) (v : V) (d : list (string * V)) :
  dict_get k d = None -> dict_set k v d = d ++ [(k, v)].
Proof.
  induction d as [|[k1 v1] d IH]; simpl; [done|].
  destruct (String.eqb_spec k k1) as [->|Hne]; [discriminate|].
  intros H. by rewrite IH.
Qed.

Lemma dict_get_None {V} (k : string) (d : list (string * V)) :
  dict_get k d = None <-> k ∉ map fst d.
Proof.
  induction d as [|[k1 v1] d IH]; simpl.
  - split; [intros _ H; inversion H|done].
  - rewrite elem_of_cons. destruct (String.eqb_spec k k1) as [->|Hne].
    + split; [discriminate|]. intros H. exfalso. apply H. by left.
    + rewrite IH. split; [intros H [?|?]; [congruence|tauto]|]. tauto.
Qed.

Lemma map_fst_dict_set {V} (k : string) (v : V) (d : list (string * V)) :
  map fst (dict_set k v d) = if decide (k ∈ map fst d) then map fst d
                             else map fst d ++ [k].
Proof.
  induction d as [|[k1 v1] d IH]; simpl.
  - destruct (decide (k ∈ [])) as [H|]; [inversion H|done].
  - destruct (String.eqb_spec k k1) as [->|Hne]; simpl.
    + destruct (decide (k1 ∈ k1 :: map fst d)) as [|H]; [done|].
      exfalso. apply H. by left.
    + rewrite IH.
      destruct (decide (k ∈ map fst d)) as [Hin|Hnin];
      destruct (decide (k ∈ k1 :: map fst d)) as [Hin'|Hnin']; try done.
      * exfalso. apply Hnin'. by right.
      * rewrite elem_of_cons in Hin'. destruct Hin'; [congruence|contradiction].
Qed.

Lemma dict_of_items_nodup {V} (items : list (string * V)) :
  NoDup (map fst (dict_of_items items)).
Proof.
  unfold dict_of_items.
  assert (H : forall d, NoDup (map fst d) ->
            NoDup (map fst (foldl (fun d kv => dict_set kv.1 kv.2 d) d items))).
  { induction items as [|[k v] items IH]; intros d Hd; simpl; [done|].
    apply IH. rewrite map_fst_dict_set.
    destruct (decide (k ∈ map fst d)) as [|Hn]; [done|].
    apply NoDup_app. split; [done|]. split; [|apply NoDup_singleton].
    intros x Hx Hx'. apply list_elem_of_singleton in Hx'. subst. contradiction. }
  apply H. constructor.
Qed.

Lemma where_idx_elem {A} (p : A -> bool) (a : list A) (i : nat) :
  i ∈ where_idx p a <-> exists x, a !! i = Some x /\ p x = true.
Proof.
  unfold where_idx. rewrite list_elem_of_In, filter_In, <- list_elem_of_In,
    elem_of_seq. split.
  - intros [[_ Hi] Hp]. destruct (a !! i) as [x|] eqn:Hx; [|discriminate]. eauto.
  - intros (x & Hx & Hp). rewrite Hx. split; [|done].
    apply lookup_lt_Some in Hx. lia.
Qed.

Lemma where_idx_nodup {A} (p : A -> bool) (a : list A) : NoDup (where_idx p a).
Proof.
  unfold where_idx. apply NoDup_ListNoDup, List.NoDup_filter, NoDup_ListNoDup, NoDup_seq.
Qed.

Lemma scatter_nodup {A} (a : list A) (idx : list nat) (vals : list A) p i :
  NoDup idx -> length vals = length idx -> idx !! p = Some i -> i < length a ->
  scatter a idx vals !! i = vals !! p.
Proof.
  revert a vals p. induction idx as [|j idx IH]; intros a vals p Hnd Hl Hp Hi.
  { discriminate Hp. }
  destruct vals as [|v vals]; [discriminate Hl|]. simpl in Hl |- *.
  apply NoDup_cons in Hnd as [Hj Hnd].
  destruct p as [|p]; simpl in Hp.
  - injection Hp as <-. rewrite scatter_notin by done.
    apply list_lookup_insert_eq. done.
  - simpl. apply IH; [done|lia|done|]. by rewrite length_insert.
Qed.

Section PrepareStages.
Context {Flt : Type} (nan : Flt) (fadd fmul : Flt -> Flt -> Flt).

Lemma initial_normals_spec (dom : PDomain) (nodes : list (list Flt)) smpid normals :
  initial_normals nan dom nodes smpid = inr normals ->
  length smpid = length nodes ->
  length normals = length nodes /\
  forall i j, smpid !! i = Some j ->
    ((0 <= j)%Z -> is_Some (pnormals dom !! Z.to_nat j) /\
                   normals !! i = pnormals dom !! Z.to_nat j) /\
    ((j < 0)%Z -> normals !! i = nan_row nan <$> nodes !! i).
Proof.
  unfold initial_normals. intros H Hlen.
  set (pos := where_idx (fun j => Z.leb 0 j) smpid) in H.
  destruct (gather smpid pos) as [e|js] eqn:Hjs; simpl in H; [discriminate|].
  destruct (gather (pnormals dom) (map Z.to_nat js)) as [e|ns] eqn:Hns;
    simpl in H; [discriminate|].
  injection H as <-.
  apply gather_spec in Hjs as [Hjl Hjs]. apply gather_spec in Hns as [Hnl Hns].
  split; [by rewrite length_scatter, length_map_std|].
  intros i j Hij. split.
  - intros Hj.
    assert (Hin : i ∈ pos).
    { apply where_idx_elem. exists j. split; [done|]. by apply Z.leb_le. }
    apply list_elem_of_lookup_1 in Hin as [p Hp].
    destruct (Hjs p i Hp) as [_ Hjp]. rewrite Hij in Hjp.
    assert (Hmp : map Z.to_nat js !! p = Some (Z.to_nat j))
      by (rewrite lookup_map_std, Hjp; done).
    destruct (Hns p _ Hmp) as [Hsome Hnp].
    split; [done|].
    rewrite (scatter_nodup _ pos ns p i); [done|apply where_idx_nodup| |done|].
    + rewrite Hnl, length_map_std. lia.
    + rewrite length_map_std, <- Hlen. apply lookup_lt_Some in Hij. done.
  - intros Hj. rewrite scatter_notin.
    + apply lookup_map_std.
    + intros Hin. apply where_idx_elem in Hin as (x & Hx & Hle).
      rewrite Hij in Hx. injection Hx as <-. apply Z.leb_le in Hle. lia.
Qed.

End PrepareStages.

Lemma build_smp_to_nodes_spec (acc : list (list nat)) (i0 : nat) (smpid : list Z) :
  Forall (fun j => j = (-1)%Z \/ (0 <= j < Z.of_nat (length acc))%Z) smpid ->
  exists s2n, build_smp_to_nodes acc i0 smpid = inr s2n /\
    length s2n = length acc /\
    forall k, s2n !! k =
      (fun l => l ++ List.filter
                  (fun x => bool_decide (smpid !! (x - i0) = Some (Z.of_nat k)))
                  (seq i0 (length smpid))) <$> acc !! k.
Proof.
  revert acc i0. induction smpid as [|j smpid IH]; intros acc i0 Hc; simpl.
  - exists acc. split; [done|]. split; [done|].
    intros k. destruct (acc !! k); simpl; [by rewrite app_nil_r|done].
  - apply Forall_cons in Hc as [Hj Hc].
    assert (Hsplit : forall k, List.filter
        (fun x => bool_decide ((j :: smpid) !! (x - i0) = Some (Z.of_nat k)))
        (seq (S i0) (length smpid)) =
      List.filter (fun x => bool_decide (smpid !! (x - S i0) = Some (Z.of_nat k)))
        (seq (S i0) (length smpid))).
    { intros k. apply List.filter_ext_in. intros x Hx.
      apply list_elem_of_In, elem_of_seq in Hx.
      replace (x - i0) with (S (x - S i0)) by lia. done. }
    destruct (Z.eqb_spec j (-1)) as [->|Hne].
    + destruct (IH acc (S i0) Hc) as (s2n & Hb & Hl & Hk).
      exists s2n. split; [done|]. split; [done|].
      intros k. rewrite Hk. destruct (acc !! k) as [l|]; simpl; [|done].
      rewrite Nat.sub_diag. simpl. rewrite Hsplit.
      case_bool_decide as Hd; [|done]. injection Hd. lia.
    + destruct Hj as [|Hj]; [contradiction|].
      assert (Hpy : py_index (length acc) j = Some (Z.to_nat j)).
      { unfold py_index. rewrite decide_True by lia. done. }
      rewrite Hpy.
      destruct (IH (alter (fun l => l ++ [i0]) (Z.to_nat j) acc) (S i0))
        as (s2n & Hb & Hl & Hk).
      { rewrite length_alter. done. }
      exists s2n. split; [done|]. split; [by rewrite Hl, length_alter|].
      intros k. rewrite Hk. simpl. rewrite Nat.sub_diag. simpl. rewrite Hsplit.
      destruct (decide (k = Z.to_nat j)) as [->|Hk'].
      * rewrite list_lookup_alter. destruct (acc !! Z.to_nat j); simpl; [|by destruct decide].
        rewrite bool_decide_true by (f_equal; lia). rewrite decide_True by done. simpl. by rewrite <- app_assoc.
      * rewrite list_lookup_alter_ne by done.
        rewrite bool_decide_false; [done|]. intros Hd. injection Hd. lia.
Qed.

Lemma string_app_inj (p a b : string) :
  String.append p a = String.append p b -> a = b.
Proof. induction p as [|c p IH]; simpl; [done|]. intros H. injection H. auto. Qed.

Lemma prefix_append (p s : string) : String.prefix p (String.append p s) = true.
Proof.
  induction p as [|c p IH]; simpl; [by destruct s|].
  destruct (Ascii.ascii_dec c c); [exact IH|contradiction].
Qed.

Lemma dict_get_app {V} (k : string) (d1 d2 : list (string * V)) :
  dict_get k (d1 ++ d2) =
    match dict_get k d1 with Some v => Some v | None => dict_get k d2 end.
Proof.
  induction d1 as [|[k1 v1] d1 IH]; simpl; [done|].
  destruct (String.eqb k k1); done.
Qed.

Lemma gather_ok {A} (a : list A) (idx : list nat) :
  Forall (fun i => i < length a) idx ->
  exists l, gather a idx = inr l /\ length l = length idx.
Proof.
  intros Hidx. unfold gather.
  assert (H : exists l, mapM (fun i => a !! i) idx = Some l).
  { induction Hidx as [|i idx Hi _ [l IH]]; simpl; [by eexists|].
    apply lookup_lt_is_Some_2 in Hi as [x Hx]. rewrite Hx. simpl.
    rewrite IH. simpl. by eexists. }
  destruct H as [l Hl]. rewrite Hl. exists l. split; [done|].
  apply mapM_Some_1 in Hl. symmetry. exact (Forall2_length _ _ _ Hl).
Qed.

Lemma boundary_idx_ok (s2n : list (list nat)) (v : list Z) :
  Forall (fun s => (0 <= s < Z.of_nat (length s2n))%Z) v ->
  boundary_idx s2n v = inr (concat (map (fun s => s2n !!! Z.to_nat s) v)).
Proof.
  intros Hv. unfold boundary_idx.
  assert (H : mapM (fun s => match py_index (length s2n) s with
                             | Some k => mret (s2n !!! k)
                             | None => raise IndexError
                             end) v = inr (map (fun s => s2n !!! Z.to_nat s) v)).
  { induction Hv as [|s v Hs _ IH]; [done|]. cbn [mapM map].
    assert (Hpy : py_index (length s2n) s = Some (Z.to_nat s)).
    { unfold py_index. rewrite decide_True by lia. done. }
    rewrite Hpy, IH. done. }
  rewrite H. done.
Qed.

Lemma add_boundary_groups_ok (s2n : list (list nat)) (bg : list (string * list Z))
    (groups : groups_t) :
  Forall (fun kv => Forall (fun s => (0 <= s < Z.of_nat (length s2n))%Z) kv.2) bg ->
  NoDup (map fst bg) ->
  (forall name, name ∈ map fst bg ->
     dict_get (String.append "boundary:" name) groups = None) ->
  add_boundary_groups s2n bg groups =
    inr (groups ++ map (fun kv => (String.append "boundary:" kv.1,
                                   concat (map (fun s => s2n !!! Z.to_nat s) kv.2))) bg).
Proof.
  revert groups. induction bg as [|[name v] bg IH]; intros groups Hv Hnd Hfresh.
  { simpl. by rewrite app_nil_r. }
  apply Forall_cons in Hv as [Hv1 Hv]. simpl in Hnd.
  apply NoDup_cons in Hnd as [Hn Hnd].
  simpl. rewrite boundary_idx_ok by done. simpl.
  rewrite dict_set_new by (apply Hfresh; left).
  rewrite IH; [by rewrite <- app_assoc|done|done|].
  intros name' Hin. rewrite dict_get_app, Hfresh by (right; done).
  cbn [dict_get].
  destruct (String.eqb_spec (String.append "boundary:" name')
                            (String.append "boundary:" name)) as [He|]; [|done].
  apply string_app_inj in He. subst. contradiction.
Qed.

Lemma res_bind_inr {A B} (m : res A) (f : A -> res B) (b : B) :
  (m ≫= f) = inr b -> exists a, m = inr a /\ f a = inr b.
Proof. destruct m as [e|a]; simpl; [discriminate|]. eauto. Qed.

Lemma existsb_false_Forall {A} (f : A -> bool) (l : list A) :
  existsb f l = false -> Forall (fun x => f x = false) l.
Proof.
  induction l as [|x l IH]; simpl; [constructor|].
  intros H. apply orb_false_iff in H as [H1 H2]. constructor; auto.
Qed.

Lemma Forall_concat_snd {A B} (P : B -> Prop) (l : list (A * list B)) :
  Forall P (concat (map snd l)) -> Forall (fun kv => Forall P kv.2) l.
Proof.
  induction l as [|[a v] l IH]; simpl; [constructor|].
  intros H. apply Forall_app in H as [H1 H2]. constructor; auto.
Qed.

Section PrepareStages2.
Context {Flt : Type} (nan : Flt).

Lemma stage_groups_spec (dom : PDomain) (nodes : list (list Flt)) smpid pinned bgs st :
  stage_groups nan dom nodes smpid pinned bgs = inr st ->
  length smpid = length nodes ->
  Forall (fun j => j = (-1)%Z \/ (0 <= j < Z.of_nat (n_simplices dom))%Z) smpid ->
  exists normals0 s2n,
    initial_normals nan dom nodes smpid = inr normals0 /\
    build_smp_to_nodes (repeat [] (n_simplices dom)) 0 smpid = inr s2n /\
    Forall (fun kv => Forall (fun s => (0 <= s < Z.of_nat (n_simplices dom))%Z) kv.2)
      (match bgs with None => default_groups dom | Some bg => dict_of_items bg end) /\
    st_nodes st = nodes ++ default [] pinned /\
    st_normals st = normals0 ++ map (nan_row nan) (default [] pinned) /\
    st_warnings st = match bgs with
                     | None => []
                     | Some bg => (validate_groups (n_simplices dom) bg).1
                     end /\
    st_groups st =
      [("interior", where_idx (fun j => Z.eqb j (-1)) smpid)] ++
      match pinned with
      | None => []
      | Some p => [("pinned", map (fun k => k + length nodes) (seq 0 (length p)))]
      end ++
      map (fun kv => (String.append "boundary:" kv.1,
                      concat (map (fun s => s2n !!! Z.to_nat s) kv.2)))
        (match bgs with None => default_groups dom | Some bg => dict_of_items bg end).
Proof.
  intros H Hlen Hc.
  unfold stage_groups in H.
  apply res_bind_inr in H as (normals0 & Hn & H).
  destruct (build_smp_to_nodes_spec (repeat [] (n_simplices dom)) 0 smpid)
    as (s2n & Hb & Hs2nl & Hs2n).
  { rewrite List.repeat_length. done. }
  assert (Hbgd : exists w,
     (match bgs with
      | None => ([], mret (default_groups dom))
      | Some bg => validate_groups (n_simplices dom) bg
      end : list (nat * nat) * res (list (string * list Z))) = (w, inr
       (match bgs with None => default_groups dom | Some bg => dict_of_items bg end))
     \/ (match bgs with
      | None => ([], mret (default_groups dom))
      | Some bg => validate_groups (n_simplices dom) bg
      end).2 = raise ValueError).
  { destruct bgs as [bg|]; [|eexists; left; reflexivity].
    unfold validate_groups. simpl.
    destruct (existsb _ _); [exists []; right; done|]. eexists. left. reflexivity. }
  (* the validated groups *)
  revert H.
  set (bgd := match bgs with None => default_groups dom
                            | Some bg => dict_of_items bg end) in *.
  set (vg := match bgs with
             | None => ([], mret (default_groups dom))
             | Some bg => validate_groups (n_simplices dom) bg
             end) in *.
  assert (Hw : vg.1 = match bgs with
                      | None => []
                      | Some bg => (validate_groups (n_simplices dom) bg).1
                      end) by (subst vg; destruct bgs; done).
  assert (Hvalid : vg.2 = inr bgd ->
    Forall (fun kv => Forall (fun s => (0 <= s < Z.of_nat (n_simplices dom))%Z) kv.2) bgd).
  { subst vg bgd. destruct bgs as [bg|].
    - unfold validate_groups. simpl.
      destruct (existsb _ _) eqn:He; [discriminate|]. intros _.
      apply existsb_false_Forall in He. apply Forall_concat_snd.
      eapply Forall_impl; [exact He|]. intros x Hx. simpl in Hx.
      apply negb_false_iff, bool_decide_eq_true in Hx. done.
    - intros _. unfold default_groups. constructor; [|constructor]. simpl.
      apply Forall_forall. intros x Hx. apply list_elem_of_In, in_map_iff in Hx as (k & <- & Hk).
      apply in_seq in Hk. lia. }
  assert (Hnd : NoDup (map fst bgd)).
  { subst bgd. destruct bgs as [bg|]; [apply dict_of_items_nodup|].
    apply NoDup_singleton. }
  clearbody vg. destruct vg as [w r]. simpl in Hw, Hvalid.
  destruct Hbgd as [w' [Hbgd|Hbgd]]; [|simpl in Hbgd; subst r; destruct pinned;
    intros H; discriminate H].
  injection Hbgd as <- ->.
  specialize (Hvalid eq_refl).
  assert (Hfresh : forall groups0 : groups_t,
     Forall (fun kv => String.prefix "boundary:" kv.1 = false) groups0 ->
     forall name, name ∈ map fst bgd ->
     dict_get (String.append "boundary:" name) groups0 = None).
  { intros groups0 Hg name _. induction Hg as [|[k v] g Hk _ IH]; [done|].
    simpl in Hk. cbn [dict_get]. rewrite IH.
    destruct (String.eqb_spec (String.append "boundary:" name) k) as [<-|]; [|done].
    rewrite prefix_append in Hk. discriminate Hk. }
  assert (Hvalid' : Forall (fun kv => Forall
             (fun s => (0 <= s < Z.of_nat (length s2n))%Z) kv.2) bgd)
    by (rewrite Hs2nl, List.repeat_length; exact Hvalid).
  destruct pinned as [p|]; intros H; cbv iota zeta in H;
    apply res_bind_inr in H as (bgd' & Hr & H); injection Hr as <-;
    apply res_bind_inr in H as (s2n' & Hb' & H); rewrite Hb in Hb';
    injection Hb' as <-;
    apply res_bind_inr in H as (groups & Hg & H); injection H as <-;
    (rewrite add_boundary_groups_ok in Hg;
     [injection Hg as <- | exact Hvalid' | exact Hnd |
      apply Hfresh; repeat constructor]);
    exists normals0, s2n; repeat split; try done.
all: simpl; by rewrite ?app_nil_r.
Qed.


End PrepareStages2.

Lemma map_add_seq (c a n : nat) : map (fun k => k + c) (seq a n) = seq (a + c) n.
Proof.
  revert a. induction n as [|n IH]; intros a; simpl; [done|].
  rewrite IH. done.
Qed.

Lemma filter_dict_set {V} (P : string -> bool) (k : string) (v : V) d :
  P k = false ->
  List.filter (fun kv => P kv.1) (dict_set k v d) = List.filter (fun kv => P kv.1) d.
Proof.
  intros Hk. induction d as [|[k1 v1] d IH]; simpl; [by rewrite Hk|].
  destruct (String.eqb_spec k k1) as [<-|]; simpl.
  - by rewrite Hk.
  - rewrite IH. done.
Qed.

Lemma Forall_dict_set {V} (P : string * V -> Prop) (k : string) (v : V) d :
  Forall P d -> P (k, v) -> Forall P (dict_set k v d).
Proof.
  intros Hd Hkv. induction Hd as [|[k1 v1] d H1 Hd IH]; simpl; [by constructor|].
  destruct (String.eqb k k1); constructor; auto.
Qed.

Lemma prefix_ghosts_boundary (name : string) :
  String.prefix "ghosts:" (String.append "boundary:" name) = false.
Proof. reflexivity. Qed.

Section Ghosts.
Context {Flt : Type} (nan : Flt) (fadd fmul : Flt -> Flt -> Flt)
  (kd_nn : list (list Flt) -> list Flt -> Flt).

Lemma add_ghosts_cons tree gd name names (nodes normals : list (list Flt)) groups out :
  add_ghosts nan fadd fmul kd_nn tree gd (name :: names) (nodes, normals, groups)
    = inr out ->
  exists B bnodes bnormals,
    dict_get (String.append "boundary:" name) groups = Some B /\
    gather nodes B = inr bnodes /\ gather normals B = inr bnormals /\
    let gh := zip_with (fun xs n => zip_with (fun xk nk => fadd xk (fmul xs.2 nk)) xs.1 n)
                (zip bnodes (map (fun x => fmul gd (kd_nn tree x)) bnodes)) bnormals in
    add_ghosts nan fadd fmul kd_nn tree gd names
      (nodes ++ gh, normals ++ map (nan_row nan) gh,
       dict_set (String.append "ghosts:" name) (seq (length nodes) (length B)) groups)
      = inr out.
Proof.
  cbn [add_ghosts]. intros H.
  apply res_bind_inr in H as (B & HB & H).
  destruct (dict_get _ groups) as [B'|] eqn:Hg; [|discriminate HB].
  injection HB as ->.
  apply res_bind_inr in H as (bnodes & Hbn & H).
  apply res_bind_inr in H as (bnormals & Hbm & H).
  exists B, bnodes, bnormals. split; [done|]. split; [done|]. split; [done|].
  rewrite map_add_seq in H. exact H.
Qed.

Lemma ghost_rows_length (gd : Flt) tree (bnodes bnormals : list (list Flt)) :
  length bnormals = length bnodes ->
  length (zip_with (fun xs n => zip_with (fun xk nk => fadd xk (fmul xs.2 nk)) xs.1 n)
            (zip bnodes (map (fun x => fmul gd (kd_nn tree x)) bnodes)) bnormals)
  = length bnodes.
Proof.
  intros Hl. rewrite !length_zip_with, length_map_std, Hl. lia.
Qed.

Lemma add_ghosts_frame tree gd names (nodes normals : list (list Flt)) groups
    nodes' normals' groups' :
  add_ghosts nan fadd fmul kd_nn tree gd names (nodes, normals, groups)
    = inr (nodes', normals', groups') ->
  (exists ghosts, nodes' = nodes ++ ghosts /\
                  normals' = normals ++ map (nan_row nan) ghosts) /\
  (forall k, String.prefix "ghosts:" k = false -> dict_get k groups' = dict_get k groups) /\
  (forall k, (forall n, n ∈ names -> k <> String.append "ghosts:" n) ->
     dict_get k groups' = dict_get k groups) /\
  List.filter (fun kv => String.prefix "boundary:" kv.1) groups' =
    List.filter (fun kv => String.prefix "boundary:" kv.1) groups /\
  (Forall (fun kv => Forall (fun x => x < length nodes) kv.2) groups ->
   Forall (fun kv => Forall (fun x => x < length nodes') kv.2) groups').
Proof.
  revert nodes normals groups.
  induction names as [|name names IH]; intros nodes normals groups H.
  { simpl in H. injection H as <- <- <-.
    split; [exists []; by rewrite !app_nil_r|]. done. }
  apply add_ghosts_cons in H as (B & bnodes & bnormals & HB & Hbn & Hbm & H).
  apply IH in H as ([ghosts [-> ->]] & Hget & Hget' & Hfilt & Hval).
  apply gather_spec in Hbn as [Hbnl _]. apply gather_spec in Hbm as [Hbml _].
  split; [|split; [|split; [|split]]].
  - eexists. rewrite <- !app_assoc, map_app. split; reflexivity.
  - intros k Hk. rewrite Hget by done. rewrite dict_get_set.
    destruct (String.eqb_spec k (String.append "ghosts:" name)) as [->|]; [|done].
    rewrite prefix_append in Hk. discriminate Hk.
  - intros k Hk. rewrite Hget'.
    + rewrite dict_get_set.
      destruct (String.eqb_spec k (String.append "ghosts:" name)) as [->|]; [|done].
      exfalso. apply (Hk name); [left|]; done.
    + intros n Hn. apply Hk. by right.
  - rewrite Hfilt. apply filter_dict_set. reflexivity.
  - intros Hv. apply Hval. rewrite length_app, ghost_rows_length by lia.
    apply Forall_dict_set.
    + eapply Forall_impl; [exact Hv|]. intros kv Hkv.
      eapply Forall_impl; [exact Hkv|]. intros x Hx. simpl in Hx. lia.
    + simpl. apply Forall_forall. intros x Hx. apply elem_of_seq in Hx. lia.
Qed.

Lemma add_ghosts_spec tree gd names (nodes normals : list (list Flt)) groups
    nodes' normals' groups' :
  add_ghosts nan fadd fmul kd_nn tree gd names (nodes, normals, groups)
    = inr (nodes', normals', groups') ->
  NoDup names -> length normals = length nodes ->
  (forall name B, name ∈ names ->
     dict_get (String.append "boundary:" name) groups = Some B ->
     Forall (fun b => b < length nodes) B) ->
  concat (map (fun name => default [] (dict_get (String.append "ghosts:" name) groups'))
            names) = seq (length nodes) (length nodes' - length nodes) /\
  forall name, name ∈ names ->
    exists B G,
      dict_get (String.append "boundary:" name) groups = Some B /\
      dict_get (String.append "ghosts:" name) groups' = Some G /\
      length G = length B /\
      forall p b, B !! p = Some b ->
        exists g x n, G !! p = Some g /\ nodes !! b = Some x /\ normals !! b = Some n /\
          nodes' !! g = Some (zip_with (fun xk nk => fadd xk (fmul (fmul gd (kd_nn tree x)) nk)) x n) /\
          normals' !! g =
            Some (nan_row nan (zip_with (fun xk nk => fadd xk (fmul (fmul gd (kd_nn tree x)) nk)) x n)).
Proof.
  revert nodes normals groups.
  induction names as [|name names IH]; intros nodes normals groups H Hnd Hlen Hval.
  { simpl in H. injection H as <- <- <-. split; [by rewrite Nat.sub_diag|].
    intros name Hn. inversion Hn. }
  pose proof H as Hfr.
  apply add_ghosts_cons in H as (B & bnodes & bnormals & HB & Hbn & Hbm & H).
  apply NoDup_cons in Hnd as [Hnin Hnd].
  set (gh := zip_with _ _ _) in H.
  assert (HBv : Forall (fun b => b < length nodes) B) by (apply (Hval name); [left|]; done).
  pose proof Hbn as Hbn'. pose proof Hbm as Hbm'.
  apply gather_spec in Hbn' as [Hbnl Hbn'']. apply gather_spec in Hbm' as [Hbml Hbm''].
  assert (Hghl : length gh = length B)
    by (unfold gh; rewrite ghost_rows_length; lia).
  pose proof H as Hfr'.
  apply add_ghosts_frame in Hfr' as ([ghosts [Hn' Hm']] & _ & Hget' & _ & _).
  assert (Hbnd : forall n, dict_get (String.append "boundary:" n)
     (dict_set (String.append "ghosts:" name) (seq (length nodes) (length B)) groups)
     = dict_get (String.append "boundary:" n) groups).
  { intros n. rewrite dict_get_set.
    destruct (String.eqb_spec (String.append "boundary:" n) (String.append "ghosts:" name))
      as [He|]; [|done]. discriminate He. }
  apply IH in H as [Hcat Hnames]; [|done|rewrite !length_app, length_map_std; lia|].
  2: { intros n B' Hn HB'. rewrite Hbnd in HB'.
       eapply Forall_impl; [apply (Hval n B'); [by right|done]|].
       intros b Hb. simpl in Hb. rewrite length_app. lia. }
  assert (HG : dict_get (String.append "ghosts:" name) groups' =
               Some (seq (length nodes) (length B))).
  { rewrite Hget'; [rewrite dict_get_set, String.eqb_refl; done|].
    intros n Hn He. apply string_app_inj in He. subst. contradiction. }
  rewrite Hn' in Hcat |- *. rewrite Hm'.
  split.
  - simpl. rewrite HG. simpl. rewrite Hcat, !length_app, Hghl.
    rewrite <- seq_app. f_equal. lia.
  - intros n Hn. apply elem_of_cons in Hn as [->|Hn].
    + exists B, (seq (length nodes) (length B)).
      split; [done|]. split; [done|]. split; [by rewrite length_seq|].
      intros p b Hp.
      assert (Hpl : p < length B) by (by apply lookup_lt_Some in Hp).
      assert (Hb : b < length nodes)
        by (rewrite Forall_forall in HBv; apply HBv; eapply list_elem_of_lookup_2; eauto).
      destruct (lookup_lt_is_Some_2 nodes b Hb) as [x Hx].
      destruct (lookup_lt_is_Some_2 normals b ltac:(lia)) as [nv Hnv].
      exists (length nodes + p), x, nv.
      split; [by apply lookup_seq_lt|]. split; [done|]. split; [done|].
      destruct (Hbn'' p b Hp) as [_ Hbx]. destruct (Hbm'' p b Hp) as [_ Hbv].
      rewrite Hx in Hbx. rewrite Hnv in Hbv.
      assert (Hgh : gh !! p = Some (zip_with (fun xk nk =>
                  fadd xk (fmul (fmul gd (kd_nn tree x)) nk)) x nv)).
      { unfold gh. rewrite lookup_zip_with, lookup_zip_with, Hbx,
          lookup_map_std, Hbx, Hbv. done. }
      rewrite <- !app_assoc. split.
      * rewrite lookup_app_r by lia.
        replace (length nodes + p - length nodes) with p by lia.
        rewrite lookup_app_l by lia. exact Hgh.
      * rewrite lookup_app_r by lia.
        replace (length nodes + p - length normals) with p by lia.
        rewrite lookup_app_l by (rewrite length_map_std; lia).
        rewrite lookup_map_std, Hgh. done.
    + destruct (Hnames n Hn) as (B' & G & HB' & HG' & HGl & Hent).
      rewrite Hbnd in HB'.
      exists B', G. split; [done|]. split; [done|]. split; [done|].
      intros p b Hp. destruct (Hent p b Hp) as (g & x & nv & Hg & Hx & Hnv & Hng & Hmg).
      assert (Hb : b < length nodes).
      { pose proof (Hval n B' ltac:(by right) HB') as Hv.
        rewrite Forall_forall in Hv. apply Hv. eapply list_elem_of_lookup_2; eauto. }
      rewrite lookup_app_l in Hx by done.
      rewrite lookup_app_l in Hnv by lia.
      exists g, x, nv. rewrite <- Hn', <- Hm'. done.
Qed.

End Ghosts.

Lemma argsort_perm (sigma : list nat) :
  argsort sigma ≡ₚ seq 0 (length sigma).
Proof.
  unfold argsort. rewrite DisperseFacts.map_fmap_std.
  rewrite (merge_sort_Permutation key_le). rewrite snd_zip; [done|].
  rewrite length_seq. done.
Qed.

Lemma gather_map {A} `{Inhabited A} (a : list A) (idx : list nat) (l : list A) :
  gather a idx = inr l ->
  l = map (fun i => a !!! i) idx /\ Forall (fun i => i < length a) idx.
Proof.
  intros Hga. apply gather_spec in Hga as [Hl Hs]. split.
  - apply list_eq. intros p. rewrite lookup_map_std.
    destruct (idx !! p) as [i|] eqn:Hp; simpl.
    + destruct (Hs p i Hp) as [[x Hx] Hlp]. rewrite Hlp, Hx.
      rewrite (list_lookup_total_correct a i x Hx). done.
    + apply lookup_ge_None. apply lookup_ge_None in Hp. lia.
  - apply Forall_forall. intros i Hi. apply list_elem_of_lookup_1 in Hi as [p Hp].
    destruct (Hs p i Hp) as [[x Hx] _]. apply lookup_lt_Some in Hx. done.
Qed.

Lemma Forall2_dict_get {V W} (R : V -> W -> Prop) (d : list (string * V))
    (d' : list (string * W)) :
  Forall2 (fun kv kv' => kv'.1 = kv.1 /\ R kv.2 kv'.2) d d' ->
  forall k v, dict_get k d = Some v -> exists v', dict_get k d' = Some v' /\ R v v'.
Proof.
  induction 1 as [|[k1 v1] [k1' v1'] d d' [Hk HR] _ IH]; intros k v Hg;
    simpl in *; [discriminate|].
  subst k1'. destruct (String.eqb k k1); [injection Hg as <-; eauto|auto].
Qed.

Lemma Forall2_boundary_union (f : nat -> nat) (d d' : groups_t) :
  Forall2 (fun kv kv' => kv'.1 = kv.1 /\ kv'.2 = map f kv.2) d d' ->
  boundary_union d' = map f (boundary_union d).
Proof.
  unfold boundary_union.
  induction 1 as [|[k1 v1] [k1' v1'] d d' [Hk HR] _ IH]; simpl in *; [done|].
  subst k1' v1'. destruct (String.prefix "boundary:" k1); simpl; [|done].
  rewrite IH, map_app. done.
Qed.

Lemma reorder_rev {Flt} (sigma : list nat) (nodes normals : list (list Flt)) groups
    nodes' normals' groups' :
  reorder sigma nodes normals groups = inr (nodes', normals', groups') ->
  sigma ≡ₚ seq 0 (length nodes) ->
  argsort sigma ≡ₚ seq 0 (length nodes) /\
  length nodes' = length nodes /\ length normals' = length nodes /\
  (forall i i', argsort sigma !! i = Some i' ->
     nodes' !! i' = nodes !! i /\ normals' !! i' = normals !! i) /\
  (forall k v, dict_get k groups = Some v ->
     dict_get k groups' = Some (map (fun x => argsort sigma !!! x) v) /\
     Forall (fun x => x < length nodes) v) /\
  boundary_union groups' = map (fun x => argsort sigma !!! x) (boundary_union groups) /\
  (forall kv, kv ∈ groups' -> forall x, x ∈ kv.2 -> x < length nodes').
Proof.
  intros Hr Hperm.
  assert (Hsl : length sigma = length nodes) by (rewrite Hperm, length_seq; done).
  assert (Hap : argsort sigma ≡ₚ seq 0 (length nodes))
    by (rewrite <- Hsl; apply argsort_perm).
  destruct (argsort_inv sigma (length nodes) Hperm) as [Hal Hinv].
  apply reorder_spec in Hr as (Hn & Hm & Hg).
  assert (Hg' : Forall2 (fun kv kv' => kv'.1 = kv.1 /\
            kv'.2 = map (fun x => argsort sigma !!! x) kv.2 /\
            Forall (fun x => x < length nodes) kv.2) groups groups').
  { eapply Forall2_impl; [exact Hg|]. intros kv kv' [Hk Hga].
    apply gather_map in Hga as [-> Hv]. rewrite Hal in Hv. done. }
  pose proof Hn as Hn'. pose proof Hm as Hm'.
  apply gather_spec in Hn' as [Hnl Hns]. apply gather_spec in Hm' as [Hml Hms].
  split; [done|]. split; [lia|]. split; [lia|]. split; [|split; [|split]].
  - intros i i' Hi.
    assert (Hil : i < length nodes) by (apply lookup_lt_Some in Hi; lia).
    destruct (Hinv i Hil) as (j & Hj & Hs). rewrite Hi in Hj. injection Hj as <-.
    destruct (Hns i' i Hs) as [_ ->]. destruct (Hms i' i Hs) as [_ ->]. done.
  - intros k v Hk.
    destruct (Forall2_dict_get (fun v v' => v' = map (fun x => argsort sigma !!! x) v /\
                 Forall (fun x => x < length nodes) v) groups groups' Hg' k v Hk)
      as (v' & Hv' & -> & Hv).
    done.
  - apply Forall2_boundary_union. eapply Forall2_impl; [exact Hg'|].
    intros kv kv' (? & ? & _). done.
  - intros kv' Hin x Hx.
    apply list_elem_of_lookup_1 in Hin as [q Hq].
    destruct (Forall2_lookup_r _ _ _ _ _ Hg' Hq) as (kv & _ & _ & Heq & Hv).
    rewrite Heq in Hx. apply list_elem_of_fmap in Hx as (i & -> & Hi).
    rewrite Forall_forall in Hv. specialize (Hv i Hi).
    assert (Hil : i < length (argsort sigma)) by lia.
    apply lookup_lt_is_Some_2 in Hil as [j Hj].
    rewrite (list_lookup_total_correct _ _ _ Hj).
    apply list_elem_of_lookup_2 in Hj. rewrite Hap, elem_of_seq in Hj. lia.
Qed.

End GroupFacts.


(* ================================================================= *)
(** ** The pipeline of [prepare_nodes] *)

Module StageFacts.
Import Arr ArrFacts Prepare PrepareFacts PrepareSpec GroupFacts.

Lemma lookup_repeat_lt {A} (x : A) (n k : nat) : k < n -> repeat x n !! k = Some x.
Proof.
  revert k. induction n as [|n IH]; intros k Hk; [lia|].
  destruct k as [|k]; simpl; [done|]. apply IH. lia.
Qed.

Lemma count_occ_map_inj {A B} (dA : forall x y : A, {x = y} + {x <> y})
    (dB : forall x y : B, {x = y} + {x <> y}) (f : A -> B) (l : list A) (a : A) :
  (forall x, In x l -> f x = f a -> x = a) ->
  count_occ dB (map f l) (f a) = count_occ dA l a.
Proof.
  induction l as [|x l IH]; intros Hinj; simpl; [done|].
  destruct (dA x a) as [->|Hne].
  - destruct (dB (f a) (f a)); [|done].
    f_equal. apply IH. intros y Hy. apply Hinj. by right.
  - destruct (dB (f x) (f a)) as [He|].
    + exfalso. apply Hne, Hinj; [by left|done].
    + apply IH. intros y Hy. apply Hinj. by right.
Qed.

Lemma count_occ_filter_seq (P : nat -> bool) (n i : nat) :
  count_occ Nat.eq_dec (List.filter P (seq 0 n)) i =
    if bool_decide (i < n) && P i then 1 else 0.
Proof.
  assert (Hnd : List.NoDup (List.filter P (seq 0 n)))
    by (apply List.NoDup_filter, seq_NoDup).
  destruct (bool_decide (i < n) && P i) eqn:Hb.
  - apply andb_true_iff in Hb as [Hi Hp]. apply bool_decide_eq_true in Hi.
    apply (proj1 (NoDup_count_occ' Nat.eq_dec _) Hnd).
    apply filter_In. split; [apply in_seq; lia|done].
  - apply count_occ_not_In. intros Hin. apply filter_In in Hin as [Hin Hp].
    apply in_seq in Hin. rewrite Hp, andb_true_r in Hb.
    apply bool_decide_eq_false in Hb. lia.
Qed.

Lemma s2n_count (smpid : list Z) (nsmp : nat) (s2n : list (list nat)) :
  build_smp_to_nodes (repeat [] nsmp) 0 smpid = inr s2n ->
  Forall (fun j => j = (-1)%Z \/ (0 <= j < Z.of_nat nsmp)%Z) smpid ->
  forall L i, Forall (fun s => (0 <= s < Z.of_nat nsmp)%Z) L ->
  count_occ Nat.eq_dec (concat (map (fun s => s2n !!! Z.to_nat s) L)) i =
    match smpid !! i with Some j => count_occ Z.eq_dec L j | None => 0 end.
Proof.
  intros Hb Hc.
  destruct (build_smp_to_nodes_spec (repeat [] nsmp) 0 smpid) as (s2n' & Hb' & _ & Hk);
    [by rewrite List.repeat_length|].
  rewrite Hb in Hb'. injection Hb' as <-.
  induction L as [|s L IH]; intros i HL; simpl.
  { by destruct (smpid !! i). }
  apply Forall_cons in HL as [Hs HL].
  rewrite count_occ_app, IH by done.
  assert (Hsk : s2n !!! Z.to_nat s = List.filter
            (fun x => bool_decide (smpid !! (x - 0) = Some (Z.of_nat (Z.to_nat s))))
            (seq 0 (length smpid))).
  { apply list_lookup_total_correct. rewrite Hk, lookup_repeat_lt by lia. done. }
  rewrite Hsk, count_occ_filter_seq, Nat.sub_0_r, Z2Nat.id by lia.
  destruct (smpid !! i) as [j|] eqn:Hi.
  - assert (Hil : i < length smpid) by (apply lookup_lt_Some in Hi; done).
    rewrite (bool_decide_true (i < length smpid)) by done. simpl.
    destruct (Z.eq_dec s j) as [->|Hne].
    + rewrite bool_decide_true by done. lia.
    + rewrite bool_decide_false by congruence.
      lia.
  - apply lookup_ge_None in Hi.
    rewrite (bool_decide_false (i < length smpid)) by lia. done.
Qed.

Lemma boundary_union_stage0 {Flt} (dom : @PDomain Flt) (nodes : list (list Flt))
    smpid pinned bgs s2n :
  boundary_union (stage_groups0 dom nodes smpid pinned bgs s2n) =
    concat (map (fun s => s2n !!! Z.to_nat s)
      (concat (map snd (match bgs with None => default_groups dom
                                  | Some bg => dict_of_items bg end)))).
Proof.
  unfold boundary_union, stage_groups0.
  generalize (match bgs with None => default_groups dom | Some bg => dict_of_items bg end).
  intros bgd. rewrite !List.filter_app.
  assert (Hp : List.filter (fun kv : string * list nat => String.prefix "boundary:" kv.1)
            match pinned with
            | None => []
            | Some p => [("pinned", map (fun k => k + length nodes) (seq 0 (length p)))]
            end = []) by (destruct pinned; reflexivity).
  rewrite Hp. cbn [List.filter app fst]. change (String.prefix "boundary:" "interior")
    with false. cbn [app].
  induction bgd as [|[k v] bgd IH]; [done|].
  cbn [map List.filter fst snd]. rewrite prefix_append. cbn [map snd concat].
  rewrite IH, map_app, concat_app. done.
Qed.

Lemma where_idx_count {A} (p : A -> bool) (a : list A) (i : nat) :
  count_occ Nat.eq_dec (where_idx p a) i =
    match a !! i with Some x => if p x then 1 else 0 | None => 0 end.
Proof.
  destruct (a !! i) as [x|] eqn:Hx; [destruct (p x) eqn:Hp|].
  - apply (proj1 (NoDup_count_occ' Nat.eq_dec _)).
    + apply NoDup_ListNoDup, where_idx_nodup.
    + apply list_elem_of_In, where_idx_elem. eauto.
  - apply count_occ_not_In. intros Hin. apply list_elem_of_In, where_idx_elem in Hin
      as (y & Hy & Hpy). rewrite Hx in Hy. injection Hy as <-. congruence.
  - apply count_occ_not_In. intros Hin. apply list_elem_of_In, where_idx_elem in Hin
      as (y & Hy & _). congruence.
Qed.

Lemma Forall_snd_concat {A B} (P : B -> Prop) (l : list (A * list B)) :
  Forall (fun kv => Forall P kv.2) l -> Forall P (concat (map snd l)).
Proof.
  induction 1 as [|[a v] l Hv _ IH]; simpl; [constructor|].
  apply Forall_app. done.
Qed.

Lemma default_groups_count {Flt} (dom : @PDomain Flt) (j : Z) :
  (0 <= j < Z.of_nat (n_simplices dom))%Z ->
  count_occ Z.eq_dec (concat (map snd (default_groups dom))) j = 1.
Proof.
  intros Hj. unfold default_groups. cbn [map snd concat]. rewrite app_nil_r.
  apply (proj1 (NoDup_count_occ' Z.eq_dec _)).
  - apply NoDup_ListNoDup, NoDup_fmap_2; [intros ? ? ?; lia|apply NoDup_seq].
  - apply in_map_iff. exists (Z.to_nat j). split; [lia|]. apply in_seq. lia.
Qed.

Lemma reorder_lookup {Flt} (sigma : list nat) (nodes1 normals1 : list (list Flt)) groups1
    nodes' normals' groups' :
  reorder sigma nodes1 normals1 groups1 = inr (nodes', normals', groups') ->
  sigma ≡ₚ seq 0 (length nodes1) ->
  forall i, i < length nodes1 -> exists i', argsort sigma !! i = Some i' /\
    argsort sigma !!! i = i' /\ nodes' !! i' = nodes1 !! i /\ normals' !! i' = normals1 !! i.
Proof.
  intros Hr Hperm i Hi.
  apply reorder_rev in Hr as (Hap & _ & _ & Hrow & _); [|done].
  assert (Hi2 : i < length (argsort sigma))
    by (rewrite (Permutation_length Hap), length_seq; done).
  apply lookup_lt_is_Some_2 in Hi2 as [i' Hi']. exists i'.
  rewrite (list_lookup_total_correct _ _ _ Hi'). destruct (Hrow _ _ Hi'). done.
Qed.

Lemma reorder_inj {Flt} (sigma : list nat) (nodes1 normals1 : list (list Flt)) groups1
    nodes' normals' groups' :
  reorder sigma nodes1 normals1 groups1 = inr (nodes', normals', groups') ->
  sigma ≡ₚ seq 0 (length nodes1) ->
  forall x y, x < length nodes1 -> y < length nodes1 ->
    argsort sigma !!! x = argsort sigma !!! y -> x = y.
Proof.
  intros Hr Hperm x y Hx Hy Hxy.
  pose proof (reorder_lookup _ _ _ _ _ _ _ Hr Hperm) as Hlk.
  apply reorder_rev in Hr as (Hap & _); [|done].
  assert (Hnd : NoDup (argsort sigma)) by (rewrite Hap; apply NoDup_seq).
  destruct (Hlk x Hx) as (x' & Hx' & Hfx & _).
  destruct (Hlk y Hy) as (y' & Hy' & Hfy & _).
  rewrite Hfx, Hfy in Hxy. subst y'.
  eapply NoDup_lookup; [exact Hnd|exact Hx'|exact Hy'].
Qed.

Lemma dict_get_map_prefix {V W} (P k : string) (h : V -> W) (d : list (string * V)) B :
  dict_get k (map (fun kv => (String.append P kv.1, h kv.2)) d) = Some B ->
  exists kv, kv ∈ d /\ B = h kv.2.
Proof.
  induction d as [|[k1 v1] d IH]; simpl; [discriminate|].
  destruct (String.eqb k (String.append P k1)).
  - intros Hb. injection Hb as <-. exists (k1, v1). split; [left|]; done.
  - intros Hb. destruct (IH Hb) as (kv & Hin & ->). exists kv. split; [right|]; done.
Qed.

Lemma stage_boundary_entry {Flt} (dom : @PDomain Flt) (nodes : list (list Flt))
    smpid pinned bgs s2n name B :
  build_smp_to_nodes (repeat [] (n_simplices dom)) 0 smpid = inr s2n ->
  Forall (fun j => j = (-1)%Z \/ (0 <= j < Z.of_nat (n_simplices dom))%Z) smpid ->
  Forall (fun kv => Forall (fun s => (0 <= s < Z.of_nat (n_simplices dom))%Z) kv.2)
    (match bgs with None => default_groups dom | Some bg => dict_of_items bg end) ->
  dict_get (String.append "boundary:" name)
    (stage_groups0 dom nodes smpid pinned bgs s2n) = Some B ->
  forall b, b ∈ B -> exists j, smpid !! b = Some j /\
    (0 <= j < Z.of_nat (n_simplices dom))%Z.
Proof.
  intros Hb Hc Hbv Hg b Hin.
  unfold stage_groups0 in Hg.
  assert (Hg' : dict_get (String.append "boundary:" name)
      (map (fun kv => (String.append "boundary:" kv.1,
                       concat (map (fun s => s2n !!! Z.to_nat s) kv.2)))
        (match bgs with None => default_groups dom | Some bg => dict_of_items bg end))
      = Some B) by (destruct pinned; exact Hg).
  apply (dict_get_map_prefix "boundary:" _
           (fun v => concat (map (fun s => s2n !!! Z.to_nat s) v))) in Hg'
    as (kv & Hkv & ->).
  rewrite Forall_forall in Hbv. specialize (Hbv kv Hkv).
  apply list_elem_of_In, (count_occ_In Nat.eq_dec) in Hin.
  rewrite (s2n_count smpid (n_simplices dom) s2n Hb Hc kv.2 b Hbv) in Hin.
  destruct (smpid !! b) as [j|]; [|lia].
  apply (count_occ_In Z.eq_dec), list_elem_of_In in Hin.
  rewrite Forall_forall in Hbv. exists j. split; [done|]. apply Hbv. done.
Qed.

Lemma string_eqb_app (p a b : string) :
  String.eqb (String.append p a) (String.append p b) = String.eqb a b.
Proof.
  induction p as [|c p IH]; [done|]. cbn [String.append String.eqb].
  simpl. rewrite Ascii.eqb_refl. exact IH.
Qed.

Lemma dict_get_map_prefix_eq {V W} (P k : string) (h : V -> W) (d : list (string * V)) :
  dict_get (String.append P k) (map (fun kv => (String.append P kv.1, h kv.2)) d) =
    h <$> dict_get k d.
Proof.
  induction d as [|[k1 v1] d IH]; [done|]. cbn [map dict_get fst snd].
  rewrite string_eqb_app. destruct (String.eqb k k1); done.
Qed.

Lemma stage_groups0_boundary {Flt} (dom : @PDomain Flt) (nodes : list (list Flt))
    smpid pinned bgs s2n name :
  dict_get (String.append "boundary:" name) (stage_groups0 dom nodes smpid pinned bgs s2n) =
    (fun v => concat (map (fun s => s2n !!! Z.to_nat s) v)) <$>
      dict_get name (match bgs with None => default_groups dom
                               | Some bg => dict_of_items bg end).
Proof.
  rewrite <- (dict_get_map_prefix_eq "boundary:" name (fun v => concat (map (fun s => s2n !!! Z.to_nat s) v))). unfold stage_groups0.
  destruct pinned; reflexivity.
Qed.

Lemma stage_groups0_valid {Flt} (dom : @PDomain Flt) (nodes : list (list Flt))
    smpid pinned bgs s2n :
  build_smp_to_nodes (repeat [] (n_simplices dom)) 0 smpid = inr s2n ->
  Forall (fun j => j = (-1)%Z \/ (0 <= j < Z.of_nat (n_simplices dom))%Z) smpid ->
  Forall (fun kv => Forall (fun s => (0 <= s < Z.of_nat (n_simplices dom))%Z) kv.2)
    (match bgs with None => default_groups dom | Some bg => dict_of_items bg end) ->
  length smpid = length nodes ->
  Forall (fun kv => Forall (fun x => x < length (nodes ++ default [] pinned)) kv.2)
    (stage_groups0 dom nodes smpid pinned bgs s2n).
Proof.
  intros Hb Hc Hbv Hlen. rewrite length_app.
  unfold stage_groups0. apply Forall_app. split; [|apply Forall_app; split].
  - constructor; [|constructor]. apply Forall_forall. intros i Hi.
    apply where_idx_elem in Hi as (j & Hj & _). apply lookup_lt_Some in Hj. simpl. lia.
  - destruct pinned as [p|]; [|constructor]. constructor; [|constructor].
    apply Forall_forall. intros i Hi. simpl in Hi.
    apply list_elem_of_fmap in Hi as (k & -> & Hk). apply elem_of_seq in Hk. simpl. lia.
  - apply Forall_forall. intros [k v] Hkv. simpl. apply Forall_forall. intros b Hbin.
    apply list_elem_of_In, in_map_iff in Hkv as ([k' v'] & Heq & Hin').
    injection Heq as _ <-.
    rewrite Forall_forall in Hbv. specialize (Hbv _ (proj2 (list_elem_of_In _ _) Hin')).
    apply list_elem_of_In, (count_occ_In Nat.eq_dec) in Hbin.
    rewrite (s2n_count smpid (n_simplices dom) s2n Hb Hc v' b Hbv) in Hbin.
    destruct (smpid !! b) eqn:E; [apply lookup_lt_Some in E; lia|lia].
Qed.

Lemma reorder_ok {Flt} (sigma : list nat) (nodes normals : list (list Flt)) groups :
  sigma ≡ₚ seq 0 (length nodes) -> length normals = length nodes ->
  Forall (fun kv => Forall (fun x => x < length nodes) kv.2) groups ->
  exists r, reorder sigma nodes normals groups = inr r.
Proof.
  intros Hperm Hlen Hg.
  assert (Hs : Forall (fun i => i < length nodes) sigma).
  { apply Forall_forall. intros i Hi. rewrite Hperm, elem_of_seq in Hi. lia. }
  destruct (gather_ok nodes sigma Hs) as (nodes' & Hn & _).
  destruct (gather_ok normals sigma) as (normals' & Hm & _); [by rewrite Hlen|].
  assert (Hal : length (argsort sigma) = length nodes)
    by (rewrite (argsort_perm sigma), length_seq, Hperm, length_seq; done).
  assert (Hmap : exists groups', mapM (fun kv => v ← gather (argsort sigma) kv.2;
                                                 mret (kv.1, v)) groups = inr groups').
  { induction Hg as [|kv groups Hkv _ [groups' IH]]; [by eexists|].
    destruct (gather_ok (argsort sigma) kv.2) as (v & Hv & _); [by rewrite Hal|].
    cbn [mapM]. rewrite Hv. cbn [mbind res_bind]. rewrite IH. eexists. reflexivity. }
  destruct Hmap as [groups' Hmap].
  unfold reorder. rewrite Hn, Hm. cbn [mbind res_bind]. rewrite Hmap. eexists. reflexivity.
Qed.

Lemma dict_get_In {V} (k : string) (v : V) (d : list (string * V)) :
  dict_get k d = Some v -> In (k, v) d.
Proof.
  induction d as [|[k1 v1] d IH]; simpl; [discriminate|].
  destruct (String.eqb_spec k k1) as [->|]; [intros Hv; injection Hv as ->; by left|].
  intros Hv. right. auto.
Qed.

Lemma dict_get_key {V} (k : string) (d : list (string * V)) :
  k ∈ map fst d -> exists v, dict_get k d = Some v.
Proof.
  induction d as [|[k1 v1] d IH]; simpl; [intros Hk; inversion Hk|].
  intros Hk. destruct (String.eqb_spec k k1) as [->|Hne]; [by eexists|].
  apply IH. apply elem_of_cons in Hk as [->|Hk]; [contradiction|done].
Qed.

(** The Reverse-Cuthill-McKee stand-in of the example returns a permutation. *)
Lemma rcm_ex_perm n e : Examples.rcm_ex n e ≡ₚ seq 0 n.
Proof. apply reverse_Permutation. Qed.

End StageFacts.


(* ================================================================= *)
(** ** Claims about the result of [prepare_nodes] (C3, C6, C7, C8) *)

Module PipelineClaims.
Import Arr ArrFacts Prepare PrepareFacts PrepareSpec GroupFacts StageFacts.

Section Pipeline.
Context {Flt : Type} (nan : Flt) (fadd fmul : Flt -> Flt -> Flt)
  (orient : @PDomain Flt -> @PDomain Flt)
  (disperse_fn : list (list Flt) -> list (list Flt) -> res (list (list Flt)))
  (snap_fn : @PDomain Flt -> list (list Flt) -> list (list Flt) * list Z)
  (kd_nn : list (list Flt) -> list Flt -> Flt)
  (knn_idx : list (list Flt) -> list Flt -> nat -> list nat)
  (rcm : nat -> list (nat * nat) -> list nat).

Lemma prepare_nodes_inv nodes dom0 pinned bgs ghosts gd iv os out :
  prepare_nodes nan fadd fmul orient disperse_fn snap_fn kd_nn knn_idx rcm
    nodes dom0 pinned bgs ghosts gd iv os = inr out ->
  exists dom snapped smpid st nodes1 normals1 groups1,
    stage_snap orient disperse_fn snap_fn nodes dom0 pinned iv os
      = inr (dom, snapped, smpid) /\
    stage_groups nan dom snapped smpid pinned bgs = inr st /\
    add_ghosts nan fadd fmul kd_nn (st_nodes st) gd (default [] ghosts)
      (st_nodes st, st_normals st, st_groups st) = inr (nodes1, normals1, groups1) /\
    (exists sigma, neighbor_argsort knn_idx rcm nodes1 = inr sigma /\
       reorder sigma nodes1 normals1 groups1
         = inr (out_nodes out, out_normals out, out_groups out)) /\
    out_warnings out = st_warnings st.
Proof.
  unfold prepare_nodes. intros H.
  apply res_bind_inr in H as ([[dom snapped] smpid] & Hs & H).
  apply res_bind_inr in H as (st & Hg & H).
  apply res_bind_inr in H as ([[nodes1 normals1] groups1] & Ha & H).
  apply res_bind_inr in H as (sigma & Hsig & H).
  apply res_bind_inr in H as ([[nodes2 normals2] groups2] & Hr & H).
  injection H as <-. simpl.
  exists dom, snapped, smpid, st, nodes1, normals1, groups1. eauto 10.
Qed.

Lemma neighbor_argsort_perm (Hrcm : forall n e, rcm n e ≡ₚ seq 0 n) nodes sigma :
  neighbor_argsort knn_idx rcm nodes = inr sigma -> sigma ≡ₚ seq 0 (length nodes).
Proof.
  unfold neighbor_argsort. cbv zeta. destruct (Nat.eqb _ 0); [discriminate|].
  intros H. injection H as <-. apply Hrcm.
Qed.

Lemma neighbor_argsort_ok nodes :
  nodes <> [] -> exists sigma, neighbor_argsort knn_idx rcm nodes = inr sigma.
Proof.
  intros Hne. unfold neighbor_argsort. cbv zeta.
  destruct (Nat.eqb_spec (Nat.min (5 ^ match nodes with r :: _ => length r | [] => 0 end)
                                  (length nodes)) 0) as [He|]; [|by eexists].
  exfalso. destruct nodes as [|r nodes]; [done|].
  pose proof (Nat.pow_nonzero 5 (length r) ltac:(lia)). simpl in He. lia.
Qed.



Lemma prepare_trace nodes dom0 pinned bgs ghosts gd iv os dom snapped smpid out :
  stage_snap orient disperse_fn snap_fn nodes dom0 pinned iv os
    = inr (dom, snapped, smpid) ->
  length smpid = length snapped ->
  Forall (fun j => j = (-1)%Z \/ (0 <= j < Z.of_nat (n_simplices dom))%Z) smpid ->
  prepare_nodes nan fadd fmul orient disperse_fn snap_fn kd_nn knn_idx rcm
    nodes dom0 pinned bgs ghosts gd iv os = inr out ->
  exists normals0 s2n nodes1 normals1 groups1,
    initial_normals nan dom snapped smpid = inr normals0 /\
    build_smp_to_nodes (repeat [] (n_simplices dom)) 0 smpid = inr s2n /\
    Forall (fun kv => Forall (fun s => (0 <= s < Z.of_nat (n_simplices dom))%Z) kv.2)
      (match bgs with None => default_groups dom | Some bg => dict_of_items bg end) /\
    out_warnings out = match bgs with
                       | None => []
                       | Some bg => (validate_groups (n_simplices dom) bg).1
                       end /\
    add_ghosts nan fadd fmul kd_nn (snapped ++ default [] pinned) gd (default [] ghosts)
      (snapped ++ default [] pinned,
       normals0 ++ map (nan_row nan) (default [] pinned),
       stage_groups0 dom snapped smpid pinned bgs s2n) = inr (nodes1, normals1, groups1) /\
    (exists sigma, neighbor_argsort knn_idx rcm nodes1 = inr sigma /\
       reorder sigma nodes1 normals1 groups1
         = inr (out_nodes out, out_normals out, out_groups out)).
Proof.
  intros Hsnap Hlen Hc Hp.
  apply prepare_nodes_inv in Hp
    as (dom' & snapped' & smpid' & st & nodes1 & normals1 & groups1 &
        Hs & Hg & Ha & Hr & Hw).
  rewrite Hsnap in Hs. injection Hs as <- <- <-.
  apply stage_groups_spec in Hg as
    (normals0 & s2n & Hn & Hb & Hbv & Hsn & Hsm & Hsw & Hsg); [|done|done].
  rewrite Hsn, Hsm, Hsg in Ha.
  exists normals0, s2n, nodes1, normals1, groups1.
  rewrite Hw, Hsw. done.
Qed.



(** C7.  Assuming the snapping gives every node one simplex id, [-1] or
    a simplex index, and Reverse-Cuthill-McKee returns a permutation: the
    returned normals have one row per returned node; a node snapped to
    simplex [j] lands, after the reordering, at a row whose normal is
    simplex [j]'s outward normal; and every node of the "interior" and
    "pinned" groups has a row of NaNs as wide as the node. *)
Theorem prepare_normals (Hrcm : forall n e, rcm n e ≡ₚ seq 0 n)
    nodes dom0 pinned bgs ghosts gd iv os dom snapped smpid out :
  stage_snap orient disperse_fn snap_fn nodes dom0 pinned iv os
    = inr (dom, snapped, smpid) ->
  length smpid = length snapped ->
  Forall (fun j => j = (-1)%Z \/ (0 <= j < Z.of_nat (n_simplices dom))%Z) smpid ->
  prepare_nodes nan fadd fmul orient disperse_fn snap_fn kd_nn knn_idx rcm
    nodes dom0 pinned bgs ghosts gd iv os = inr out ->
  length (out_normals out) = length (out_nodes out) /\
  (exists rev, rev ≡ₚ seq 0 (length (out_nodes out)) /\
     forall i j, smpid !! i = Some j -> (0 <= j)%Z ->
       exists i' nrm, rev !! i = Some i' /\ out_nodes out !! i' = snapped !! i /\
         pnormals dom !! Z.to_nat j = Some nrm /\ out_normals out !! i' = Some nrm) /\
  (exists I, dict_get "interior" (out_groups out) = Some I /\
     forall i', i' ∈ I -> exists x,
       out_nodes out !! i' = Some x /\ out_normals out !! i' = Some (nan_row nan x)) /\
  (forall p, pinned = Some p -> exists P,
     dict_get "pinned" (out_groups out) = Some P /\ length P = length p /\
     forall i', i' ∈ P -> exists x,
       out_nodes out !! i' = Some x /\ out_normals out !! i' = Some (nan_row nan x)).
Proof.
  intros Hsnap Hlen Hc Hp.
  destruct (prepare_trace nodes dom0 pinned bgs ghosts gd iv os dom snapped smpid out Hsnap Hlen Hc Hp)
    as (normals0 & s2n & nodes1 & normals1 & groups1 & Hn & Hb & Hbv & Hw & Ha & sigma & Hsig & Hr).
  apply initial_normals_spec in Hn as [Hn0 Hni]; [|done].
  apply add_ghosts_frame in Ha as ([gnodes [Hn1 Hm1]] & Hget & _ & _ & _).
  pose proof (neighbor_argsort_perm Hrcm nodes1 sigma Hsig) as Hperm.
  pose proof (reorder_lookup _ _ _ _ _ _ _ Hr Hperm) as Hlk.
  apply reorder_rev in Hr as (Hap & Hl1 & Hl2 & _ & Hgrp & _ & _); [|done].
  set (rev := argsort sigma) in *.
  assert (Hl : length nodes1 = length snapped + length (default [] pinned) + length gnodes)
    by (subst nodes1; rewrite !length_app; lia).
  assert (Hsn : forall i, i < length snapped -> nodes1 !! i = snapped !! i)
    by (intros i Hi; subst nodes1; rewrite !lookup_app_l by (rewrite ?length_app; lia); done).
  assert (Hsm : forall i, i < length snapped -> normals1 !! i = normals0 !! i)
    by (intros i Hi; subst normals1; rewrite !lookup_app_l by (rewrite ?length_app; lia); done).
  split; [lia|]. split; [|split].
  - exists rev. split; [rewrite Hl1; done|]. intros i j Hij Hj.
    assert (Hi : i < length snapped) by (apply lookup_lt_Some in Hij; lia).
    destruct (Hlk i) as (i' & Hi' & _ & Hx & Hm); [lia|].
    destruct (Hni i j Hij) as [Hpos _]. destruct (Hpos Hj) as [[nrm Hnrm] Heq].
    exists i', nrm. rewrite Hx, Hm, Hsn, Hsm, Heq by done. done.
  - assert (HI : dict_get "interior" groups1 =
                 Some (where_idx (fun j => Z.eqb j (-1)) smpid))
      by (rewrite Hget by reflexivity; reflexivity).
    destruct (Hgrp _ _ HI) as [HI' Hv].
    eexists. split; [exact HI'|]. intros i' Hin.
    apply list_elem_of_lookup_1 in Hin as [q Hq].
    rewrite lookup_map_std in Hq.
    destruct (where_idx (fun j => Z.eqb j (-1)) smpid !! q) as [i|] eqn:Hwq; [|discriminate].
    injection Hq as Hq. apply list_elem_of_lookup_2 in Hwq.
    pose proof Hwq as Hwi. rewrite Forall_forall in Hv. specialize (Hv i Hwi).
    apply where_idx_elem in Hwq as (j & Hij & Hj). apply Z.eqb_eq in Hj. subst j.
    assert (Hi : i < length snapped) by (apply lookup_lt_Some in Hij; lia).
    destruct (Hlk i Hv) as (i'' & _ & Hri & Hx & Hm). rewrite Hri in Hq. subst i''.
    destruct (Hni i _ Hij) as [_ Hneg]. specialize (Hneg ltac:(lia)).
    destruct (lookup_lt_is_Some_2 snapped i Hi) as [x Hxs].
    exists x. rewrite Hx, Hm, Hsn, Hsm, Hneg, Hxs by done. done.
  - intros p ->.
    assert (HP : dict_get "pinned" groups1 =
                 Some (map (fun k => k + length snapped) (seq 0 (length p))))
      by (rewrite Hget by reflexivity; reflexivity).
    destruct (Hgrp _ _ HP) as [HP' Hv].
    eexists. split; [exact HP'|]. split; [by rewrite !length_map_std, length_seq|].
    intros i' Hin.
    apply list_elem_of_lookup_1 in Hin as [q Hq].
    rewrite lookup_map_std in Hq.
    destruct (map (fun k => k + length snapped) (seq 0 (length p)) !! q) as [i|] eqn:Hwq;
      [|discriminate].
    injection Hq as Hq. apply list_elem_of_lookup_2 in Hwq.
    pose proof Hwq as Hwi. rewrite Forall_forall in Hv. specialize (Hv i Hwi).
    apply list_elem_of_fmap in Hwq as (k & -> & Hk). apply elem_of_seq in Hk.
    destruct (Hlk _ Hv) as (i'' & _ & Hri & Hx & Hm). rewrite Hri in Hq. subst i''.
    destruct (lookup_lt_is_Some_2 p k ltac:(lia)) as [x Hxp].
    exists x. rewrite Hx, Hm. subst nodes1 normals1. change (default [] (Some p)) with p. split.
    + rewrite lookup_app_l by (rewrite length_app; lia).
      rewrite lookup_app_r by lia.
      replace (k + length snapped - length snapped) with k by lia. done.
    + rewrite lookup_app_l by (rewrite length_app, length_map_std; lia).
      rewrite lookup_app_r by lia. rewrite lookup_map_std.
      replace (k + length snapped - length normals0) with k by lia.
      rewrite Hxp. done.
Qed.

(** C3.  Under the same assumptions: every index of every returned group
    is a valid index of the returned nodes; no index of "interior" is in
    a "boundary:*" group; and when every simplex is claimed exactly once
    (always the case for the default groups), each snapped node, at its
    place after the reordering, occurs exactly once in "interior" and the
    "boundary:*" groups taken together, while pinned and ghost nodes occur
    there not at all. *)
Theorem prepare_groups_partition (Hrcm : forall n e, rcm n e ≡ₚ seq 0 n)
    nodes dom0 pinned bgs ghosts gd iv os dom snapped smpid out :
  stage_snap orient disperse_fn snap_fn nodes dom0 pinned iv os
    = inr (dom, snapped, smpid) ->
  length smpid = length snapped ->
  Forall (fun j => j = (-1)%Z \/ (0 <= j < Z.of_nat (n_simplices dom))%Z) smpid ->
  prepare_nodes nan fadd fmul orient disperse_fn snap_fn kd_nn knn_idx rcm
    nodes dom0 pinned bgs ghosts gd iv os = inr out ->
  (forall kv, kv ∈ out_groups out -> forall x, x ∈ kv.2 -> x < length (out_nodes out)) /\
  exists I, dict_get "interior" (out_groups out) = Some I /\
    (forall x, x ∈ I -> x ∉ boundary_union (out_groups out)) /\
    ((forall bg, bgs = Some bg -> forall s, (0 <= s < Z.of_nat (n_simplices dom))%Z ->
        simplex_count (dict_of_items bg) s = 1) ->
     exists rev, rev ≡ₚ seq 0 (length (out_nodes out)) /\
       (forall i, i < length snapped -> exists i', rev !! i = Some i' /\
          out_nodes out !! i' = snapped !! i /\
          count_occ Nat.eq_dec (I ++ boundary_union (out_groups out)) i' = 1) /\
       (forall i i', length snapped <= i -> rev !! i = Some i' ->
          count_occ Nat.eq_dec (I ++ boundary_union (out_groups out)) i' = 0)).
Proof.
  intros Hsnap Hlen Hc Hp.
  destruct (prepare_trace nodes dom0 pinned bgs ghosts gd iv os dom snapped smpid out
              Hsnap Hlen Hc Hp)
    as (normals0 & s2n & nodes1 & normals1 & groups1 & Hn & Hb & Hbv & Hw & Ha & sigma & Hsig & Hr).
  apply add_ghosts_frame in Ha as ([gnodes [Hn1 Hm1]] & Hget & _ & Hfilt & _).
  pose proof (neighbor_argsort_perm Hrcm nodes1 sigma Hsig) as Hperm.
  pose proof (reorder_lookup _ _ _ _ _ _ _ Hr Hperm) as Hlk.
  apply reorder_rev in Hr as (Hap & Hl1 & Hl2 & _ & Hgrp & Hbu & Hvalid); [|done].
  set (rev := argsort sigma) in *.
  set (W := where_idx (fun j => Z.eqb j (-1)) smpid).
  set (L := concat (map snd (match bgs with None => default_groups dom
                                        | Some bg => dict_of_items bg end))).
  set (BU := concat (map (fun s => s2n !!! Z.to_nat s) L)).
  assert (HI : dict_get "interior" groups1 = Some W)
    by (rewrite Hget by reflexivity; reflexivity).
  assert (HB : boundary_union groups1 = BU).
  { unfold boundary_union. rewrite Hfilt. apply boundary_union_stage0. }
  assert (HL : Forall (fun s => (0 <= s < Z.of_nat (n_simplices dom))%Z) L)
    by (apply Forall_snd_concat; done).
  assert (HBU : forall i, count_occ Nat.eq_dec BU i =
            match smpid !! i with Some j => count_occ Z.eq_dec L j | None => 0 end)
    by (intros i; apply (s2n_count smpid (n_simplices dom)); done).
  assert (HLm1 : count_occ Z.eq_dec L (-1)%Z = 0).
  { apply count_occ_not_In. intros Hin. rewrite Forall_forall in HL.
    apply list_elem_of_In in Hin. specialize (HL _ Hin). lia. }
  assert (Hcnt : forall i, count_occ Nat.eq_dec (W ++ BU) i =
            match smpid !! i with
            | Some j => (if Z.eqb j (-1) then 1 else 0) + count_occ Z.eq_dec L j
            | None => 0 end).
  { intros i. rewrite count_occ_app, HBU. unfold W. rewrite where_idx_count.
    destruct (smpid !! i); done. }
  assert (Hlt : forall x, In x (W ++ BU) -> x < length snapped).
  { intros x Hx. apply (count_occ_In Nat.eq_dec) in Hx. rewrite Hcnt in Hx.
    destruct (smpid !! x) eqn:E; [apply lookup_lt_Some in E; lia|lia]. }
  assert (HN : length snapped <= length nodes1) by (subst nodes1; rewrite !length_app; lia).
  assert (Hnd : NoDup rev) by (rewrite Hap; apply NoDup_seq).
  assert (Hinj : forall x y, x < length nodes1 -> y < length nodes1 ->
            rev !!! x = rev !!! y -> x = y).
  { intros x y Hx Hy Hxy.
    destruct (Hlk x Hx) as (x' & Hx' & Hfx & _).
    destruct (Hlk y Hy) as (y' & Hy' & Hfy & _).
    rewrite Hfx, Hfy in Hxy. subst y'.
    eapply NoDup_lookup; [exact Hnd|exact Hx'|exact Hy']. }
  assert (Hmap : forall i, i < length nodes1 ->
            count_occ Nat.eq_dec (map (fun x => rev !!! x) (W ++ BU)) (rev !!! i) =
            count_occ Nat.eq_dec (W ++ BU) i).
  { intros i Hi. apply (count_occ_map_inj Nat.eq_dec Nat.eq_dec (fun x => rev !!! x)).
    intros x Hx Hxi.
    apply Hinj; [specialize (Hlt x Hx); lia|done|done]. }
  destruct (Hgrp _ _ HI) as [HI' _].
  assert (HBo : boundary_union (out_groups out) = map (fun x => rev !!! x) BU)
    by (rewrite Hbu, HB; done).
  split; [rewrite Hl1; intros kv Hkv x Hx; rewrite <- Hl1; exact (Hvalid kv Hkv x Hx)|].
  exists (map (fun x => rev !!! x) W). split; [exact HI'|]. split.
  - intros x Hx Hxb. rewrite HBo in Hxb.
    apply list_elem_of_fmap in Hx as (w & -> & Hw').
    apply list_elem_of_fmap in Hxb as (b & Hwb & Hb').
    assert (Hwlt : w < length snapped) by (apply Hlt, in_or_app; left; apply list_elem_of_In; done).
    assert (Hblt : b < length snapped) by (apply Hlt, in_or_app; right; apply list_elem_of_In; done).
    apply Hinj in Hwb; [|lia|lia]. subst b.
    apply where_idx_elem in Hw' as (j & Hj & Hjm). apply Z.eqb_eq in Hjm. subst j.
    apply list_elem_of_In, (count_occ_In Nat.eq_dec) in Hb'.
    rewrite HBU, Hj, HLm1 in Hb'. lia.
  - intros Hpart. exists rev. split; [rewrite Hl1; done|]. split.
    + intros i Hi. destruct (Hlk i ltac:(lia)) as (i' & Hi' & Hfi & Hx & _).
      exists i'. split; [done|]. split.
      { rewrite Hx. subst nodes1. rewrite <- app_assoc, lookup_app_l by lia. done. }
      rewrite HBo, <- map_app, <- Hfi, Hmap, Hcnt by lia.
      destruct (lookup_lt_is_Some_2 smpid i ltac:(lia)) as [j Hj]. rewrite Hj.
      rewrite Forall_lookup in Hc. destruct (Hc i j Hj) as [->|Hjr].
      * rewrite HLm1. done.
      * rewrite (proj2 (Z.eqb_neq j (-1))) by lia. simpl.
        unfold L. destruct bgs as [bg|].
        -- apply (Hpart bg eq_refl j Hjr).
        -- apply default_groups_count. done.
    + intros i i' Hi Hii'.
      assert (Hin : i < length nodes1)
        by (apply lookup_lt_Some in Hii'; rewrite Hap, length_seq in Hii'; done).
      destruct (Hlk i Hin) as (i'' & Hi'' & Hfi & _).
      rewrite Hii' in Hi''. injection Hi'' as <-.
      rewrite HBo, <- map_app, <- Hfi, Hmap, Hcnt by done.
      rewrite (proj2 (lookup_ge_None smpid i)) by lia. done.
Qed.

(** C8, as amended.  Under the same assumptions, when every name of
    [boundary_groups_with_ghosts] is listed once: the returned nodes are
    the snapped nodes, the pinned nodes and the recorded ghosts, with no
    ghost index recorded twice; and for each flagged name, the group
    "ghosts:name" has one entry per entry of "boundary:name", the [p]-th
    ghost sitting at the [p]-th boundary node [x] plus [ghost_delta]
    times [x]'s nearest-neighbour distance (the KD-tree being built on
    the snapped and pinned nodes) times [x]'s outward normal, with a row
    of NaNs as its normal. *)
Theorem prepare_ghosts (Hrcm : forall n e, rcm n e ≡ₚ seq 0 n)
    nodes dom0 pinned bgs names gd iv os dom snapped smpid out :
  stage_snap orient disperse_fn snap_fn nodes dom0 pinned iv os
    = inr (dom, snapped, smpid) ->
  length smpid = length snapped ->
  Forall (fun j => j = (-1)%Z \/ (0 <= j < Z.of_nat (n_simplices dom))%Z) smpid ->
  NoDup names ->
  prepare_nodes nan fadd fmul orient disperse_fn snap_fn kd_nn knn_idx rcm
    nodes dom0 pinned bgs (Some names) gd iv os = inr out ->
  length (out_nodes out) = length snapped + length (default [] pinned) +
    length (concat (map (fun name =>
      default [] (dict_get (String.append "ghosts:" name) (out_groups out))) names)) /\
  NoDup (concat (map (fun name =>
      default [] (dict_get (String.append "ghosts:" name) (out_groups out))) names)) /\
  forall name, name ∈ names ->
    exists B G,
      dict_get (String.append "boundary:" name) (out_groups out) = Some B /\
      dict_get (String.append "ghosts:" name) (out_groups out) = Some G /\
      length G = length B /\
      forall p b, B !! p = Some b -> exists g x n i j,
        G !! p = Some g /\ out_nodes out !! b = Some x /\ out_normals out !! b = Some n /\
        snapped !! i = Some x /\ smpid !! i = Some j /\ pnormals dom !! Z.to_nat j = Some n /\
        out_nodes out !! g = Some (zip_with (fun xk nk =>
          fadd xk (fmul (fmul gd (kd_nn (snapped ++ default [] pinned) x)) nk)) x n) /\
        out_normals out !! g = Some (nan_row nan (zip_with (fun xk nk =>
          fadd xk (fmul (fmul gd (kd_nn (snapped ++ default [] pinned) x)) nk)) x n)).
Proof.
  intros Hsnap Hlen Hc Hnd Hp.
  destruct (prepare_trace nodes dom0 pinned bgs (Some names) gd iv os dom snapped smpid out
              Hsnap Hlen Hc Hp)
    as (normals0 & s2n & nodes1 & normals1 & groups1 & Hn & Hb & Hbv & Hw & Ha & sigma & Hsig & Hr).
  change (default [] (Some names)) with names in Ha.
  apply initial_normals_spec in Hn as [Hn0 Hni]; [|done].
  set (tree := snapped ++ default [] pinned) in *.
  set (G0 := stage_groups0 dom snapped smpid pinned bgs s2n) in *.
  assert (Hbe : forall name B, dict_get (String.append "boundary:" name) G0 = Some B ->
            forall b, b ∈ B -> exists j, smpid !! b = Some j /\
              (0 <= j < Z.of_nat (n_simplices dom))%Z)
    by (intros name B HB; exact (stage_boundary_entry dom snapped smpid pinned bgs s2n
                                   name B Hb Hc Hbv HB)).
  pose proof Ha as Ha'.
  apply add_ghosts_frame in Ha' as ([gnodes [Hn1 Hm1]] & Hget & _ & _ & _).
  apply add_ghosts_spec in Ha as [Hcat Hper]; [|done| |].
  2: { unfold tree. rewrite !length_app, length_map_std. lia. }
  2: { intros name B _ HB. apply Forall_forall. intros b Hbin.
       destruct (Hbe name B HB b Hbin) as (j & Hj & _).
       apply lookup_lt_Some in Hj. unfold tree. rewrite length_app. lia. }
  pose proof (neighbor_argsort_perm Hrcm nodes1 sigma Hsig) as Hperm.
  pose proof (reorder_lookup _ _ _ _ _ _ _ Hr Hperm) as Hlk.
  pose proof (reorder_inj _ _ _ _ _ _ _ Hr Hperm) as Hinj.
  apply reorder_rev in Hr as (Hap & Hl1 & Hl2 & _ & Hgrp & _ & _); [|done].
  set (f := fun x => argsort sigma !!! x) in *.
  assert (HN : length nodes1 = length tree + length gnodes)
    by (rewrite Hn1, length_app; done).
  assert (Hgh : forall name, name ∈ names ->
            exists G1, dict_get (String.append "ghosts:" name) groups1 = Some G1 /\
              dict_get (String.append "ghosts:" name) (out_groups out) = Some (map f G1)).
  { intros name Hname. destruct (Hper name Hname) as (B & G1 & _ & HG1 & _).
    exists G1. split; [done|]. apply (Hgrp _ _ HG1). }
  assert (Hcat' : concat (map (fun name =>
             default [] (dict_get (String.append "ghosts:" name) (out_groups out))) names) =
           map f (concat (map (fun name =>
             default [] (dict_get (String.append "ghosts:" name) groups1)) names))).
  { clear -Hgh. revert Hgh. induction names as [|name names IH]; intros Hgh; [done|].
    cbn [map concat]. rewrite map_app.
    destruct (Hgh name ltac:(left)) as (G1 & -> & ->).
    rewrite IH; [done|]. intros name' Hn'. apply Hgh. by right. }
  rewrite Hcat', Hcat, HN, Nat.add_sub' by lia.
  assert (Htree : length tree = length snapped + length (default [] pinned))
    by (unfold tree; rewrite length_app; done).
  split; [rewrite length_map_std, length_seq, Hl1, HN; lia|]. split.
  { apply NoDup_fmap_2_strong; [|apply NoDup_seq].
    intros x y Hx Hy Hxy. apply elem_of_seq in Hx, Hy. apply Hinj; [lia|lia|done]. }
  intros name Hname.
  destruct (Hper name Hname) as (B & G1 & HB & HG1 & HlG & Hent).
  assert (HB1 : dict_get (String.append "boundary:" name) groups1 = Some B)
    by (rewrite Hget by apply prefix_ghosts_boundary; done).
  destruct (Hgrp _ _ HB1) as [HBo HBv]. destruct (Hgrp _ _ HG1) as [HGo HGv].
  exists (map f B), (map f G1). split; [done|]. split; [done|].
  split; [rewrite !length_map_std; done|].
  intros p b' Hpb'. rewrite lookup_map_std in Hpb'.
  destruct (B !! p) as [b|] eqn:Hpb; [|discriminate]. injection Hpb' as <-.
  destruct (Hent p b Hpb) as (g & x & n & Hg & Hx & Hnn & Hgx & Hgn).
  assert (Hbin : b ∈ B) by (apply list_elem_of_lookup_2 in Hpb; done).
  destruct (Hbe name B HB b Hbin) as (j & Hj & Hjr).
  assert (Hbs : b < length snapped) by (apply lookup_lt_Some in Hj; lia).
  assert (Hgl : g < length nodes1) by (apply lookup_lt_Some in Hgx; done).
  destruct (Hlk b ltac:(lia)) as (b'' & _ & Hfb & Hxb & Hnb).
  destruct (Hlk g Hgl) as (g'' & _ & Hfg & Hxg & Hng).
  destruct (Hni b j Hj) as [Hpos _]. destruct (Hpos ltac:(lia)) as [_ Hnj].
  assert (Hsx : snapped !! b = Some x)
    by (unfold tree in Hx; rewrite lookup_app_l in Hx by lia; done).
  assert (Hsn : normals0 !! b = Some n)
    by (rewrite lookup_app_l in Hnn by lia; done).
  exists (f g), x, n, b, j.
  split; [rewrite lookup_map_std, Hg; done|].
  split; [unfold f; rewrite Hfb, Hxb, Hn1, lookup_app_l by lia; done|].
  split; [unfold f; rewrite Hfb, Hnb, Hm1, lookup_app_l
            by (rewrite length_app, length_map_std; lia); done|].
  split; [done|]. split; [done|]. split; [rewrite <- Hnj; done|].
  split; unfold f; rewrite Hfg; [rewrite Hxg|rewrite Hng]; done.
Qed.

Lemma initial_normals_ok (dom : @PDomain Flt) (nodes : list (list Flt)) smpid :
  Forall (fun j => j = (-1)%Z \/ (0 <= j < Z.of_nat (n_simplices dom))%Z) smpid ->
  n_simplices dom <= length (pnormals dom) ->
  exists normals0, initial_normals nan dom nodes smpid = inr normals0.
Proof.
  intros Hc Hpn. unfold initial_normals.
  set (pos := where_idx (fun j => Z.leb 0 j) smpid).
  destruct (gather_ok smpid pos) as (js & Hjs & _).
  { apply Forall_forall. intros i Hi. apply where_idx_elem in Hi as (j & Hj & _).
    apply lookup_lt_Some in Hj. done. }
  rewrite Hjs. simpl.
  destruct (gather_ok (pnormals dom) (map Z.to_nat js)) as (ns & Hns & _).
  { apply gather_spec in Hjs as [Hjl Hjs].
    apply Forall_forall. intros k Hk. apply list_elem_of_In, in_map_iff in Hk
      as (j & <- & Hj). apply list_elem_of_In, list_elem_of_lookup_1 in Hj as [q Hq].
    assert (Hq' : is_Some (pos !! q)) by (apply lookup_lt_is_Some_2;
      apply lookup_lt_Some in Hq; lia).
    destruct Hq' as [i Hi]. destruct (Hjs q i Hi) as [_ Hji]. rewrite Hq in Hji.
    apply list_elem_of_lookup_2, where_idx_elem in Hi as (j' & Hj' & Hle).
    rewrite Hj' in Hji. injection Hji as Hjj. subst j'. apply Z.leb_le in Hle.
    rewrite Forall_lookup in Hc. destruct (Hc i _ Hj') as [->|Hr]; [lia|]. lia. }
  rewrite Hns. simpl. eexists. reflexivity.
Qed.

Lemma stage_groups_invalid (dom : @PDomain Flt) (nodes : list (list Flt)) smpid pinned bg :
  Forall (fun j => j = (-1)%Z \/ (0 <= j < Z.of_nat (n_simplices dom))%Z) smpid ->
  n_simplices dom <= length (pnormals dom) ->
  (exists s, s ∈ concat (map snd (dict_of_items bg)) /\
             ~ (0 <= s < Z.of_nat (n_simplices dom))%Z) ->
  stage_groups nan dom nodes smpid pinned (Some bg) = inl ValueError.
Proof.
  intros Hc Hpn (s & Hs & Hr).
  destruct (initial_normals_ok dom nodes smpid Hc Hpn) as [normals0 Hn].
  assert (He : existsb (fun x => negb (bool_decide (0 <= x < Z.of_nat (n_simplices dom))%Z))
                 (concat (map snd (dict_of_items bg))) = true).
  { apply existsb_exists. exists s. split; [apply list_elem_of_In; done|].
    rewrite bool_decide_false by done. done. }
  unfold stage_groups. rewrite Hn. cbn [mbind res_bind].
  unfold validate_groups. rewrite He.
  destruct pinned; reflexivity.
Qed.


Lemma stage_groups_ok (dom : @PDomain Flt) (nodes : list (list Flt)) smpid pinned bgs :
  Forall (fun j => j = (-1)%Z \/ (0 <= j < Z.of_nat (n_simplices dom))%Z) smpid ->
  n_simplices dom <= length (pnormals dom) ->
  (forall bg, bgs = Some bg ->
     Forall (fun s => (0 <= s < Z.of_nat (n_simplices dom))%Z)
       (concat (map snd (dict_of_items bg)))) ->
  exists st, stage_groups nan dom nodes smpid pinned bgs = inr st.
Proof.
  intros Hc Hpn Hbg.
  destruct (initial_normals_ok dom nodes smpid Hc Hpn) as [normals0 Hn].
  destruct (build_smp_to_nodes_spec (repeat [] (n_simplices dom)) 0 smpid)
    as (s2n & Hb & Hs2nl & _); [by rewrite List.repeat_length|].
  assert (Hvalid : Forall (fun kv => Forall
             (fun s => (0 <= s < Z.of_nat (length s2n))%Z) kv.2)
             (match bgs with None => default_groups dom | Some bg => dict_of_items bg end)).
  { rewrite Hs2nl, List.repeat_length. destruct bgs as [bg|].
    - apply Forall_concat_snd, Hbg. done.
    - unfold default_groups. constructor; [|constructor]. simpl.
      apply Forall_forall. intros x Hx.
      apply list_elem_of_In, in_map_iff in Hx as (k & <- & Hk).
      apply in_seq in Hk. lia. }
  assert (Hnd : NoDup (map fst (match bgs with None => default_groups dom
                                          | Some bg => dict_of_items bg end)))
    by (destruct bgs as [bg|]; [apply dict_of_items_nodup|apply NoDup_singleton]).
  unfold stage_groups. rewrite Hn. cbn [mbind res_bind].
  assert (Hv : (match bgs with
                | None => ([], mret (default_groups dom))
                | Some bg => validate_groups (n_simplices dom) bg
                end).2 = inr (match bgs with None => default_groups dom
                                       | Some bg => dict_of_items bg end)).
  { destruct bgs as [bg|]; [|done]. unfold validate_groups. cbn [snd].
    destruct (existsb _ _) eqn:He; [|done].
    apply existsb_exists in He as (x & Hx & Hnx).
    specialize (Hbg bg eq_refl). rewrite Forall_forall in Hbg.
    rewrite bool_decide_true in Hnx; [discriminate|].
    apply Hbg, list_elem_of_In. done. }
  revert Hv Hvalid Hnd.
  generalize (match bgs with None => default_groups dom | Some bg => dict_of_items bg end).
  intros bgd.
  destruct (match bgs with
            | None => ([], mret (default_groups dom))
            | Some bg => validate_groups (n_simplices dom) bg
            end) as [w r].
  cbn [snd]. intros -> Hvalid Hnd.
  destruct pinned as [p|]; cbv iota zeta; cbn [mbind res_bind]; rewrite Hb;
    cbn [mbind res_bind]; rewrite add_boundary_groups_ok by
      (done || (intros name _; reflexivity)); eexists; reflexivity.
Qed.

Lemma add_ghosts_ok tree gd names (nodes normals : list (list Flt)) groups :
  length normals = length nodes ->
  (forall name, name ∈ names -> exists B,
     dict_get (String.append "boundary:" name) groups = Some B /\
     Forall (fun b => b < length nodes) B) ->
  exists r, add_ghosts nan fadd fmul kd_nn tree gd names (nodes, normals, groups) = inr r.
Proof.
  revert nodes normals groups.
  induction names as [|name names IH]; intros nodes normals groups Hlen HB.
  { eexists. reflexivity. }
  destruct (HB name ltac:(left)) as (B & HBg & HBv).
  destruct (gather_ok nodes B HBv) as (bnodes & Hbn & Hbnl).
  destruct (gather_ok normals B) as (bnormals & Hbm & Hbml); [by rewrite Hlen|].
  cbn [add_ghosts]. rewrite HBg. cbn [mbind res_bind mret res_ret].
  rewrite Hbn. cbn [mbind res_bind]. rewrite Hbm. cbn [mbind res_bind].
  apply IH.
  - rewrite !length_app, length_map_std. lia.
  - intros name' Hn'. destruct (HB name' ltac:(by right)) as (B' & HB' & HBv').
    exists B'. split.
    + rewrite dict_get_set.
      destruct (String.eqb_spec (String.append "boundary:" name')
                                (String.append "ghosts:" name)) as [He|]; [|done].
      discriminate He.
    + rewrite length_app. eapply Forall_impl; [exact HBv'|]. intros b Hb. simpl in Hb. lia.
Qed.

Lemma add_ghosts_nil tree gd names (normals : list (list Flt)) groups
    nodes1 normals1 groups1 :
  add_ghosts nan fadd fmul kd_nn tree gd names ([], normals, groups)
    = inr (nodes1, normals1, groups1) -> nodes1 = [].
Proof.
  revert normals groups.
  induction names as [|name names IH]; intros normals groups H.
  - simpl in H. injection H as <- _ _. done.
  - apply add_ghosts_cons in H as (B & bnodes & bnormals & _ & Hbn & _ & H).
    apply gather_spec in Hbn as [Hl Hlk].
    destruct B as [|b B].
    + destruct bnodes; [|discriminate Hl]. simpl in H. exact (IH _ _ H).
    + destruct (Hlk 0 b eq_refl) as [[x Hx] _]. discriminate Hx.
Qed.

Lemma prepare_nodes_intro nodes dom0 pinned bgs ghosts gd iv os dom snapped smpid st
    nodes1 normals1 groups1 sigma nodes' normals' groups' :
  stage_snap orient disperse_fn snap_fn nodes dom0 pinned iv os
    = inr (dom, snapped, smpid) ->
  stage_groups nan dom snapped smpid pinned bgs = inr st ->
  add_ghosts nan fadd fmul kd_nn (st_nodes st) gd (default [] ghosts)
    (st_nodes st, st_normals st, st_groups st) = inr (nodes1, normals1, groups1) ->
  neighbor_argsort knn_idx rcm nodes1 = inr sigma ->
  reorder sigma nodes1 normals1 groups1 = inr (nodes', normals', groups') ->
  prepare_nodes nan fadd fmul orient disperse_fn snap_fn kd_nn knn_idx rcm
    nodes dom0 pinned bgs ghosts gd iv os =
  inr {| out_nodes := nodes'; out_groups := groups'; out_normals := normals';
         out_warnings := st_warnings st |}.
Proof.
  intros Hs Hg Ha Hsig Hr. unfold prepare_nodes.
  rewrite Hs. cbn [mbind res_bind]. rewrite Hg. cbn [mbind res_bind].
  rewrite Ha. cbn [mbind res_bind]. rewrite Hsig. cbn [mbind res_bind].
  rewrite Hr. reflexivity.
Qed.

Lemma prepare_nodes_sort_error nodes dom0 pinned bgs ghosts gd iv os dom snapped smpid st
    nodes1 normals1 groups1 e :
  stage_snap orient disperse_fn snap_fn nodes dom0 pinned iv os
    = inr (dom, snapped, smpid) ->
  stage_groups nan dom snapped smpid pinned bgs = inr st ->
  add_ghosts nan fadd fmul kd_nn (st_nodes st) gd (default [] ghosts)
    (st_nodes st, st_normals st, st_groups st) = inr (nodes1, normals1, groups1) ->
  neighbor_argsort knn_idx rcm nodes1 = inl e ->
  prepare_nodes nan fadd fmul orient disperse_fn snap_fn kd_nn knn_idx rcm
    nodes dom0 pinned bgs ghosts gd iv os = inl e.
Proof.
  intros Hs Hg Ha Hsig. unfold prepare_nodes.
  rewrite Hs. cbn [mbind res_bind]. rewrite Hg. cbn [mbind res_bind].
  rewrite Ha. cbn [mbind res_bind]. rewrite Hsig. reflexivity.
Qed.

(** C6.  Under the same assumptions, and with a normal per simplex: a
    caller-supplied boundary-group assignment naming an index outside
    [[0, number of simplices)] makes [prepare_nodes] raise [ValueError];
    when every index is valid (and every ghost group named exists),
    the coverage does not make it fail: with no node left after snapping
    (pinned nodes counted) the final neighbour sort raises [ValueError];
    otherwise [prepare_nodes] returns a result whatever the coverage, its
    warnings are exactly the simplices claimed other than once, with their
    counts, and each "boundary:name" group holds the nodes snapped to the
    simplices of the given group. *)
Theorem prepare_group_validation (Hrcm : forall n e, rcm n e ≡ₚ seq 0 n)
    nodes dom0 pinned bg ghosts gd iv os dom snapped smpid :
  stage_snap orient disperse_fn snap_fn nodes dom0 pinned iv os
    = inr (dom, snapped, smpid) ->
  length smpid = length snapped ->
  Forall (fun j => j = (-1)%Z \/ (0 <= j < Z.of_nat (n_simplices dom))%Z) smpid ->
  n_simplices dom <= length (pnormals dom) ->
  ((exists s, s ∈ concat (map snd (dict_of_items bg)) /\
              ~ (0 <= s < Z.of_nat (n_simplices dom))%Z) ->
   prepare_nodes nan fadd fmul orient disperse_fn snap_fn kd_nn knn_idx rcm
     nodes dom0 pinned (Some bg) ghosts gd iv os = inl ValueError) /\
  (Forall (fun s => (0 <= s < Z.of_nat (n_simplices dom))%Z)
     (concat (map snd (dict_of_items bg))) ->
   (forall name, name ∈ default [] ghosts -> name ∈ map fst (dict_of_items bg)) ->
   (snapped ++ default [] pinned = [] ->
    prepare_nodes nan fadd fmul orient disperse_fn snap_fn kd_nn knn_idx rcm
      nodes dom0 pinned (Some bg) ghosts gd iv os = inl ValueError) /\
   (snapped ++ default [] pinned <> [] ->
   exists out,
     prepare_nodes nan fadd fmul orient disperse_fn snap_fn kd_nn knn_idx rcm
       nodes dom0 pinned (Some bg) ghosts gd iv os = inr out /\
     (forall idx c, In (idx, c) (out_warnings out) <->
        idx < n_simplices dom /\
        c = simplex_count (dict_of_items bg) (Z.of_nat idx) /\ c <> 1) /\
     exists rev, rev ≡ₚ seq 0 (length (out_nodes out)) /\
       (forall i, i < length snapped ->
          exists i', rev !! i = Some i' /\ out_nodes out !! i' = snapped !! i) /\
       forall name v, dict_get name (dict_of_items bg) = Some v ->
         exists B, dict_get (String.append "boundary:" name) (out_groups out) = Some B /\
           forall i i', rev !! i = Some i' ->
             count_occ Nat.eq_dec B i' =
               match smpid !! i with Some j => count_occ Z.eq_dec v j | None => 0 end)).
Proof.
  intros Hsnap Hlen Hc Hpn. split.
  { intros Hbad. unfold prepare_nodes. rewrite Hsnap. cbn [mbind res_bind].
    rewrite stage_groups_invalid by done. reflexivity. }
  intros Hok Hnames.
  destruct (stage_groups_ok dom snapped smpid pinned (Some bg) Hc Hpn) as [st Hg];
    [intros bg' Hbg'; injection Hbg' as <-; done|].
  pose proof Hg as Hg'.
  apply stage_groups_spec in Hg' as
    (normals0 & s2n & Hn & Hb & Hbv & Hsn & Hsm & Hsw & Hsg); [|done|done].
  apply initial_normals_spec in Hn as [Hn0 Hni]; [|done].
  set (G0 := stage_groups0 dom snapped smpid pinned (Some bg) s2n).
  assert (HsgG : st_groups st = G0) by exact Hsg.
  assert (Hbe : forall name B, dict_get (String.append "boundary:" name) G0 = Some B ->
            forall b, b ∈ B -> exists j, smpid !! b = Some j /\
              (0 <= j < Z.of_nat (n_simplices dom))%Z)
    by (intros name B HB; exact (stage_boundary_entry dom snapped smpid pinned (Some bg) s2n
                                   name B Hb Hc Hbv HB)).
  assert (Hstl : length (st_normals st) = length (st_nodes st))
    by (rewrite Hsn, Hsm, !length_app, length_map_std; lia).
  destruct (add_ghosts_ok (st_nodes st) gd (default [] ghosts) (st_nodes st) (st_normals st)
              (st_groups st) Hstl) as [[[nodes1 normals1] groups1] Ha].
  { intros name Hname. apply Hnames in Hname.
    destruct (dict_get_key _ _ Hname) as [v Hv].
    exists (concat (map (fun s => s2n !!! Z.to_nat s) v)).
    assert (HB : dict_get (String.append "boundary:" name) G0 =
                 Some (concat (map (fun s => s2n !!! Z.to_nat s) v)))
      by (unfold G0; rewrite stage_groups0_boundary; cbn [default_groups]; rewrite Hv; done).
    rewrite HsgG. split; [done|].
    apply Forall_forall. intros b Hbin. destruct (Hbe _ _ HB b Hbin) as (j & Hj & _).
    apply lookup_lt_Some in Hj. rewrite Hsn, length_app. lia. }
  pose proof Ha as Ha'.
  apply add_ghosts_frame in Ha' as ([gnodes [Hn1 Hm1]] & Hget & _ & _ & Hval).
  assert (Hval1 : Forall (fun kv => Forall (fun x => x < length nodes1) kv.2) groups1).
  { apply Hval. rewrite HsgG, Hsn.
    apply (stage_groups0_valid dom snapped smpid pinned (Some bg) s2n Hb Hc Hbv Hlen). }
  split.
  { intros Hemp. pose proof Ha as Ha0. rewrite Hsn, Hemp in Ha0.
    apply add_ghosts_nil in Ha0.
    eapply prepare_nodes_sort_error; [exact Hsnap|exact Hg|exact Ha|].
    rewrite Ha0. reflexivity. }
  intros Hne.
  destruct (neighbor_argsort_ok nodes1) as [sigma Hsig].
  { rewrite Hn1, Hsn. intros He. apply app_eq_nil in He as [He _]. contradiction. }
  pose proof (neighbor_argsort_perm Hrcm nodes1 sigma Hsig) as Hperm.
  destruct (reorder_ok sigma nodes1 normals1 groups1 Hperm)
    as [[[nodes' normals'] groups'] Hr]; [rewrite Hn1, Hm1, !length_app, length_map_std; lia
                                          |done|].
  pose proof (prepare_nodes_intro _ _ _ _ _ _ _ _ _ _ _ _ _ _ _ _ _ _ _ Hsnap Hg Ha Hsig Hr)
    as Hp.
  eexists. split; [exact Hp|]. cbn [out_warnings out_nodes out_groups]. split.
  { intros idx c. rewrite Hsw. unfold validate_groups. cbn [fst].
    rewrite filter_In, in_map_iff. split.
    - intros [(idx' & Heq & Hin) Hc1]. injection Heq as <- <-. apply in_seq in Hin.
      cbn [snd] in Hc1. apply negb_true_iff, Nat.eqb_neq in Hc1. lia.
    - intros (Hi & -> & Hc1). split; [exists idx; split; [done|apply in_seq; lia]|].
      cbn [snd]. apply negb_true_iff, Nat.eqb_neq. done. }
  pose proof (reorder_lookup _ _ _ _ _ _ _ Hr Hperm) as Hlk.
  pose proof (reorder_inj _ _ _ _ _ _ _ Hr Hperm) as Hinj.
  apply reorder_rev in Hr as (Hap & Hl1 & Hl2 & _ & Hgrp & _ & _); [|done].
  set (f := fun x => argsort sigma !!! x) in *.
  assert (HN : length snapped <= length nodes1)
    by (rewrite Hn1, Hsn, !length_app; lia).
  exists (argsort sigma).
  split; [rewrite Hl1; done|]. split.
  { intros i Hi. destruct (Hlk i ltac:(lia)) as (i' & Hi' & _ & Hx & _).
    exists i'. split; [done|]. rewrite Hx, Hn1, Hsn, <- !app_assoc, lookup_app_l by lia.
    done. }
  intros name v Hv.
  assert (HB : dict_get (String.append "boundary:" name) G0 =
               Some (concat (map (fun s => s2n !!! Z.to_nat s) v)))
    by (unfold G0; rewrite stage_groups0_boundary; cbn [default_groups]; rewrite Hv; done).
  assert (HB1 : dict_get (String.append "boundary:" name) groups1 =
                Some (concat (map (fun s => s2n !!! Z.to_nat s) v)))
    by (rewrite Hget, HsgG by apply prefix_ghosts_boundary; done).
  destruct (Hgrp _ _ HB1) as [HBo _].
  eexists. split; [exact HBo|]. intros i i' Hii'.
  assert (Hin : i < length nodes1)
    by (apply lookup_lt_Some in Hii'; rewrite Hap, length_seq in Hii'; done).
  destruct (Hlk i Hin) as (i'' & Hi'' & Hfi & _).
  rewrite Hii' in Hi''. injection Hi'' as <-. rewrite <- Hfi.
  assert (Hvr : Forall (fun s => (0 <= s < Z.of_nat (n_simplices dom))%Z) v).
  { apply dict_get_In in Hv. rewrite Forall_forall in Hbv.
    apply (Hbv (name, v)). apply list_elem_of_In. done. }
  pose proof (count_occ_map_inj Nat.eq_dec Nat.eq_dec f
                (concat (map (fun s => s2n !!! Z.to_nat s) v)) i) as Hcm.
  unfold f in Hcm |- *. rewrite Hcm.
  - apply (s2n_count smpid (n_simplices dom)); done.
  - intros x Hx Hfx. apply Hinj; [|done|done].
    destruct (Hbe _ _ HB x (proj2 (list_elem_of_In _ _) Hx)) as (j & Hj & _).
    apply lookup_lt_Some in Hj. lia.
Qed.

End Pipeline.

Import Examples.


(** Witness for [prepare_normals]. *)
Lemma prepare_normals_witness :
  prepare_ex None (Some ["all"]) = inr out_ex /\
  length (out_normals out_ex) = length (out_nodes out_ex).
Proof.
  assert (Hp : prepare_ex None (Some ["all"]) = inr out_ex) by (vm_compute; reflexivity).
  split; [exact Hp|].
  destruct (prepare_normals fnan flt_add flt_mul orient_ex disperse_ex snap_ex kd_nn_ex knn_idx_ex
              rcm_ex rcm_ex_perm nodes_ex dom_ex (Some pinned_ex) None (Some ["all"])
              (Some 1%Z) false false dom_ex nodes_ex [0%Z; (-1)%Z] out_ex)
    as [Hl _].
  - vm_compute. reflexivity.
  - reflexivity.
  - constructor; [right; cbn; lia|constructor; [left; reflexivity|constructor]].
  - exact Hp.
  - exact Hl.
Defined.

(** Witness for [prepare_groups_partition]. *)
Lemma prepare_groups_partition_witness :
  prepare_ex None (Some ["all"]) = inr out_ex /\
  forall kv, kv ∈ out_groups out_ex -> forall x, x ∈ kv.2 -> x < length (out_nodes out_ex).
Proof.
  assert (Hp : prepare_ex None (Some ["all"]) = inr out_ex) by (vm_compute; reflexivity).
  split; [exact Hp|].
  destruct (prepare_groups_partition fnan flt_add flt_mul orient_ex disperse_ex snap_ex kd_nn_ex
              knn_idx_ex rcm_ex rcm_ex_perm nodes_ex dom_ex (Some pinned_ex) None (Some ["all"])
              (Some 1%Z) false false dom_ex nodes_ex [0%Z; (-1)%Z] out_ex)
    as [Hv _].
  - vm_compute. reflexivity.
  - reflexivity.
  - constructor; [right; cbn; lia|constructor; [left; reflexivity|constructor]].
  - exact Hp.
  - exact Hv.
Defined.

(** Witness for [prepare_ghosts]. *)
Lemma prepare_ghosts_witness :
  prepare_ex None (Some ["all"]) = inr out_ex /\
  length (out_nodes out_ex) = length nodes_ex + length pinned_ex +
    length (concat (map (fun name =>
      default [] (dict_get (String.append "ghosts:" name) (out_groups out_ex)))
      ["all"])).
Proof.
  assert (Hp : prepare_ex None (Some ["all"]) = inr out_ex) by (vm_compute; reflexivity).
  split; [exact Hp|].
  destruct (prepare_ghosts fnan flt_add flt_mul orient_ex disperse_ex snap_ex kd_nn_ex
              knn_idx_ex rcm_ex rcm_ex_perm nodes_ex dom_ex (Some pinned_ex) None ["all"]
              (Some 1%Z) false false dom_ex nodes_ex [0%Z; (-1)%Z] out_ex)
    as [Hl _].
  - vm_compute. reflexivity.
  - reflexivity.
  - constructor; [right; cbn; lia|constructor; [left; reflexivity|constructor]].
  - constructor; [set_solver|constructor].
  - exact Hp.
  - exact Hl.
Defined.

(** Witness for [prepare_group_validation]: an unknown simplex raises,
    a simplex claimed twice is only a warning. *)
Lemma prepare_group_validation_witness :
  prepare_ex (Some [("a", [7%Z])]) None = inl ValueError /\
  exists out, prepare_ex (Some bg_dup) None = inr out /\ In (0, 2) (out_warnings out).
Proof.
  assert (Hs : stage_snap orient_ex disperse_ex snap_ex nodes_ex dom_ex (Some pinned_ex)
                 false false = inr (dom_ex, nodes_ex, [0%Z; (-1)%Z])) by reflexivity.
  assert (Hc : Forall (fun j => j = (-1)%Z \/ (0 <= j < Z.of_nat (n_simplices dom_ex))%Z)
                 [0%Z; (-1)%Z])
    by (constructor; [right; cbn; lia|constructor; [left; reflexivity|constructor]]).
  split.
  - destruct (prepare_group_validation fnan flt_add flt_mul orient_ex disperse_ex snap_ex kd_nn_ex
                knn_idx_ex rcm_ex rcm_ex_perm nodes_ex dom_ex (Some pinned_ex)
                [("a", [7%Z])] None (Some 1%Z) false false dom_ex nodes_ex [0%Z; (-1)%Z]
                Hs eq_refl Hc) as [Herr _].
    + cbn. lia.
    + apply Herr. exists 7%Z. split; [cbn; set_solver|cbn; lia].
  - destruct (prepare_group_validation fnan flt_add flt_mul orient_ex disperse_ex snap_ex kd_nn_ex
                knn_idx_ex rcm_ex rcm_ex_perm nodes_ex dom_ex (Some pinned_ex)
                bg_dup None (Some 1%Z) false false dom_ex nodes_ex [0%Z; (-1)%Z]
                Hs eq_refl Hc) as [_ Hok].
    + cbn. lia.
    + destruct Hok as [_ Hok].
      * repeat constructor; cbn; lia.
      * intros name Hn. cbn in Hn. set_solver.
      * destruct Hok as (out & Hout & Hw & _); [cbn; discriminate|].
        exists out. split; [exact Hout|]. apply Hw. cbn. split; [lia|]. split; [reflexivity|lia].
Defined.

(** C6 as stated fails for an empty node set: with no nodes and no pinned
    nodes, valid boundary groups that claim simplex 0 twice and simplex 1
    not at all do not give a result, because the final neighbour sort
    raises [ValueError]. *)
Lemma prepare_group_validation_counterexample :
  Forall (fun s => (0 <= s < Z.of_nat (n_simplices dom_ex))%Z)
    (concat (map snd (dict_of_items bg_dup))) /\
  prepare_nodes fnan flt_add flt_mul orient_ex disperse_ex snap_ex kd_nn_ex knn_idx_ex rcm_ex
    [] dom_ex None (Some bg_dup) None (Some 1%Z) false false = inl ValueError.
Proof. split; [repeat constructor; cbn; lia|vm_compute; reflexivity]. Qed.

(** C8 as stated fails when a group is flagged twice: with
    [boundary_groups_with_ghosts = ["all"; "all"]] the one boundary node
    gets two ghost nodes at the same place, only the second is recorded
    in "ghosts:all", and the first (index 1) is in no group at all. *)
Lemma prepare_ghosts_counterexample :
  exists out, prepare_ex None (Some ["all"; "all"]) = inr out /\
    dict_get "boundary:all" (out_groups out) = Some [4] /\
    dict_get "ghosts:all" (out_groups out) = Some [0] /\
    length (out_nodes out) = length nodes_ex + length pinned_ex + 2 /\
    out_nodes out !! 1 = out_nodes out !! 0 /\
    Forall (fun kv => 1 ∉ kv.2) (out_groups out).
Proof.
  eexists. split; [vm_compute; reflexivity|].
  split; [reflexivity|]. split; [reflexivity|]. split; [reflexivity|].
  split; [reflexivity|].
  repeat constructor; cbn; set_solver.
Qed.

End PipelineClaims.

(* ================================================================= *)
(** ** [disperse]: shapes, errors, and the iteration count *)

Module DisperseExtraFacts.
Import Arr ArrFacts Disperse DisperseFacts StepFacts.
Local Open Scope R_scope.

Lemma shape_ok_Forall d (a : list point) :
  shape_ok d a = true <-> Forall (fun r => length r = d) a.
Proof.
  unfold shape_ok. rewrite forallb_forall, Forall_forall.
  split; intros H r Hr; [apply Nat.eqb_eq; apply H; by apply list_elem_of_In
                        |apply Nat.eqb_eq; apply H; by apply list_elem_of_In].
Qed.

Lemma disperse_loop_iter_length knn dm rho fixed nb delta it nodes out :
  disperse_loop knn dm rho fixed nb delta it nodes = Some out ->
  length out = length nodes.
Proof.
  revert nodes. induction it as [|it IH]; intros nodes H; simpl in H.
  - by injection H as <-.
  - apply bind_Some in H as (n1 & H1 & H2).
    unfold disperse_iteration in H1. apply bind_Some in H1 as (nn & Hs & Hb).
    injection Hb as <-. rewrite (IH _ H2), length_bounce_revert.
    exact (length_disperse_step _ _ _ _ _ _ _ Hs).
Qed.

(** Every row a step produces has the width of its node, when all the
    points have the same width. *)
Lemma step_row_width rho (all : list point) delta x q r d :
  Forall (fun y => length y = d) all -> length x = d ->
  step_row rho all delta x q = Some r -> length r = d.
Proof.
  intros Hall Hx H. unfold step_row in H.
  apply bind_Some in H as (fs & Hfs & H).
  destruct q as [|[d0 j0] q']; [discriminate|]. injection H as <-.
  rewrite length_vadd, length_map_std. unfold normalize. rewrite length_map_std.
  rewrite length_sum; [lia|].
  apply mapM_Some_1 in Hfs. apply Forall_forall. intros f Hf.
  apply list_elem_of_lookup_1 in Hf as [p Hp].
  destruct (Forall2_lookup_r _ _ _ _ _ Hfs Hp) as (dj & _ & Hdj).
  apply bind_Some in Hdj as (y & Hy & Hf). injection Hf as <-.
  rewrite length_force. rewrite Forall_lookup in Hall. rewrite (Hall _ _ Hy). lia.
Qed.

Lemma disperse_step_width knn rho (nodes fixed : list point) nb delta new d :
  Forall (fun y => length y = d) (nodes ++ fixed) ->
  disperse_step knn rho nodes fixed nb delta = Some new ->
  Forall (fun y => length y = d) new.
Proof.
  intros Hall H. unfold disperse_step in H.
  destruct nodes as [|x0 ns]; [by injection H as <-|].
  cbv zeta in H. apply bind_Some in H as (qs & _ & H).
  apply mapM_Some_1 in H. apply Forall_forall. intros r Hr.
  apply list_elem_of_lookup_1 in Hr as [p Hp].
  destruct (Forall2_lookup_r _ _ _ _ _ H Hp) as ([x q] & Hxq & Hs).
  rewrite lookup_zip_with in Hxq.
  destruct ((x0 :: ns) !! p) as [x'|] eqn:Hx; [|discriminate].
  destruct (qs !! p); [|discriminate]. injection Hxq as -> ->.
  apply (step_row_width _ _ _ _ _ _ d Hall) in Hs; [done|].
  rewrite Forall_lookup in Hall. apply (Hall p). rewrite lookup_app_l; [done|].
  by eapply lookup_lt_Some.
Qed.

(** Each row of an iteration's result is the node's start, its proposed
    position, or its bounced position. *)
Lemma iteration_rows knn dm rho fixed nb delta nodes out :
  disperse_iteration knn dm rho fixed nb delta nodes = Some out ->
  exists new, disperse_step knn rho nodes fixed nb delta = Some new /\
    length out = length nodes /\
    forall i z, out !! i = Some z -> exists x y,
      nodes !! i = Some x /\ new !! i = Some y /\
      (z = x \/ z = y \/ z = bounce_row dm x y).
Proof.
  intros H. unfold disperse_iteration in H.
  apply bind_Some in H as (new & Hs & Hout). injection Hout as <-.
  pose proof (length_disperse_step _ _ _ _ _ _ _ Hs) as Hlen.
  exists new. split; [done|]. split; [by rewrite length_bounce_revert|].
  intros i z Hz.
  assert (Hi : (i < length nodes)%nat).
  { apply lookup_lt_Some in Hz. rewrite length_bounce_revert in Hz. lia. }
  destruct (lookup_lt_is_Some_2 nodes i Hi) as [x Hx].
  destruct (lookup_lt_is_Some_2 new i ltac:(rewrite Hlen; exact Hi)) as [y Hy].
  exists x, y. split; [done|]. split; [done|].
  destruct (bounce_lookup dm nodes new i x y Hx Hy) as [_ Hb].
  unfold bounce_revert in Hz.
  destruct (bounce dm nodes new) as [crossed bounced] eqn:E. simpl in Hb.
  assert (Hlb : length bounced = length nodes).
  { change bounced with (snd (crossed, bounced)). rewrite <- E.
    by rewrite length_bounce. }
  rewrite (revert_lookup dm nodes crossed bounced i x Hlb Hx) in Hz.
  destruct decide.
  - injection Hz as <-. by left.
  - rewrite Hb in Hz. injection Hz as <-. right. destruct decide; [by right|by left].
Qed.

End DisperseExtraFacts.

Module DisperseExtras.
Import Arr ArrFacts Disperse DisperseFacts StepFacts DisperseExtraFacts SpecSide.
Local Open Scope R_scope.

Lemma bounce_row_width dm x y d :
  Forall (fun n => length n = d) (dom_normals dm) ->
  (forall x y, ((intersection_point dm x y).2 < length (dom_normals dm))%nat) ->
  length y = d -> length (bounce_row dm x y) = d.
Proof.
  intros Hn Hi Hy. unfold bounce_row. cbv zeta.
  rewrite length_vsub, length_map_std.
  destruct (lookup_lt_is_Some_2 (dom_normals dm) (intersection_point dm x y).2 (Hi x y))
    as [n Hnl].
  rewrite (list_lookup_total_correct _ _ _ Hnl).
  rewrite Forall_lookup in Hn. rewrite (Hn _ _ Hnl). lia.
Qed.

Lemma loop_width knn dm rho fixed nb delta it nodes out :
  Forall (fun n => length n = dom_dim dm) (dom_normals dm) ->
  (forall x y, ((intersection_point dm x y).2 < length (dom_normals dm))%nat) ->
  Forall (fun r => length r = dom_dim dm) fixed ->
  Forall (fun r => length r = dom_dim dm) nodes ->
  disperse_loop knn dm rho fixed nb delta it nodes = Some out ->
  Forall (fun r => length r = dom_dim dm) out.
Proof.
  intros Hn Hi Hf. revert nodes. induction it as [|it IH]; intros nodes Hw H; simpl in H.
  - by injection H as <-.
  - apply bind_Some in H as (n1 & H1 & H2). apply (IH n1); [|exact H2].
    destruct (iteration_rows _ _ _ _ _ _ _ _ H1) as (new & Hs & _ & Hrows).
    apply (disperse_step_width _ _ _ _ _ _ _ (dom_dim dm)) in Hs;
      [|apply Forall_app; split; done].
    apply Forall_lookup. intros i z Hz.
    destruct (Hrows i z Hz) as (x & y & Hx & Hy & Hz').
    rewrite Forall_lookup in Hw, Hs.
    destruct Hz' as [->|[->| ->]]; [exact (Hw _ _ Hx)|exact (Hs _ _ Hy)|].
    apply bounce_row_width; [done|done|exact (Hs _ _ Hy)].
Qed.

(** [disperse] returns an [(n, d)] array for [(n, d)] input: one row per
    free node, each as wide as the domain, provided every normal of the
    domain has that width and the intersection query names one of its
    simplices. *)
Theorem disperse_shape knn dm nodes iterations rho fixed_nodes neighbors delta out :
  Forall (fun n => length n = dom_dim dm) (dom_normals dm) ->
  (forall x y, ((intersection_point dm x y).2 < length (dom_normals dm))%nat) ->
  disperse knn dm nodes iterations rho fixed_nodes neighbors delta = Some out ->
  length out = length nodes /\ Forall (fun r => length r = dom_dim dm) out.
Proof.
  intros Hn Hi H. unfold disperse in H.
  destruct (shape_ok (dom_dim dm) nodes) eqn:Hs; [|discriminate]. simpl in H.
  apply bind_Some in H as (fixed & Hf & H).
  assert (Hfw : Forall (fun r => length r = dom_dim dm) fixed).
  { destruct fixed_nodes as [f|].
    - destruct (shape_ok (dom_dim dm) f) eqn:E; [|discriminate].
      injection Hf as <-. by apply shape_ok_Forall.
    - injection Hf as <-. constructor. }
  apply bind_Some in H as (nb & _ & H).
  split; [exact (disperse_loop_iter_length _ _ _ _ _ _ _ _ _ H)|].
  eapply loop_width; [exact Hn|exact Hi|exact Hfw| |exact H].
  by apply shape_ok_Forall.
Qed.

(** With a neighbour query that returns at most the [k] points asked for,
    an iteration over free nodes faults when no neighbour is left besides
    the node itself: [neighbors <= 0], or a single point in all. *)
Theorem disperse_too_few_points knn dm nodes iterations rho fixed_nodes nb delta :
  (forall pts x k l, knn pts x k = Some l -> (length l <= k)%nat) ->
  nodes <> [] -> (0 < iterations)%nat ->
  ((nb <= 0)%Z \/ (length nodes + length (default [] fixed_nodes) = 1)%nat) ->
  disperse knn dm nodes iterations rho fixed_nodes (Some nb) delta = None.
Proof.
  intros Hk Hne Hit Hnb. unfold disperse.
  destruct (shape_ok (dom_dim dm) nodes); [|done]. simpl.
  destruct (match fixed_nodes with
            | Some f => if shape_ok (dom_dim dm) f then Some f else None
            | None => Some [] end) as [fixed|] eqn:Ef; [|done]. simpl.
  assert (Hlf : length fixed = length (default [] fixed_nodes)).
  { destruct fixed_nodes as [f|]; simpl in Ef;
      [destruct (shape_ok (dom_dim dm) f); [|discriminate]|];
      injection Ef as <-; done. }
  set (nb' := Z.min nb (Z.of_nat (length nodes + length fixed) - 1)).
  assert (Hnb' : (nb' <= 0)%Z).
  { unfold nb'. rewrite Hlf. destruct Hnb as [H|H]; [lia|].
    rewrite H. simpl. lia. }
  destruct iterations as [|it]; [lia|]. simpl.
  unfold disperse_iteration, disperse_step.
  destruct nodes as [|x0 ns]; [done|]. cbv zeta.
  destruct (mapM _ (x0 :: ns)) as [qs|] eqn:Eq; [|done]. simpl.
  pose proof (mapM_Some_1 _ _ _ Eq) as Hq.
  destruct qs as [|q0 qs']; [by apply Forall2_length in Hq|].
  apply Forall2_cons in Hq as [Hq0 _].
  apply Hk in Hq0. replace (Z.to_nat (nb' + 1)) with (if decide (nb' = 0)%Z then 1%nat else 0%nat) in Hq0
    by (destruct decide; lia).
  assert (Ht : tail q0 = []).
  { destruct q0 as [|a [|b q0']]; [done|done|]. simpl in Hq0. destruct decide; lia. }
  simpl. rewrite Ht. reflexivity.
Qed.

(** Witness for [disperse_shape]. *)
Lemma disperse_shape_witness :
  exists out, disperse knn_pair half_plane [[0; 0]] 1 None (Some [[0; 2]]) (Some 1%Z) (1 / 10)
    = Some out /\ length out = 1%nat.
Proof.
  destruct (disperse knn_pair half_plane [[0; 0]] 1 None (Some [[0; 2]]) (Some 1%Z) (1 / 10))
    as [out|] eqn:H.
  2: { simpl in H. discriminate H. }
  exists out. split; [reflexivity|].
  destruct (disperse_shape knn_pair half_plane [[0; 0]] 1 None (Some [[0; 2]]) (Some 1%Z)
              (1 / 10) out) as [Hl _].
  - repeat constructor.
  - intros x y. simpl. lia.
  - exact H.
  - exact Hl.
Defined.

(** Witness for [disperse_too_few_points]: a lone node, no fixed nodes. *)
Lemma disperse_too_few_points_witness :
  disperse knn_self half_plane [[0; 0]] 1 None None (Some 3%Z) (1 / 10) = None.
Proof.
  apply disperse_too_few_points.
  - intros pts x k l H. injection H as <-. rewrite length_firstn. simpl. lia.
  - discriminate.
  - lia.
  - right. reflexivity.
Defined.

End DisperseExtras.

(* ================================================================= *)
(** ** [np.argsort] and the reordering *)

Module ReorderExtraFacts.
Import Arr ArrFacts Prepare PrepareFacts GroupFacts.

Lemma gather_eq {A} `{Inhabited A} (a : list A) (idx : list nat) :
  Forall (fun i => i < length a) idx -> gather a idx = inr (map (fun i => a !!! i) idx).
Proof.
  intros Hidx. destruct (gather_ok a idx Hidx) as (l & Hl & _).
  rewrite Hl. by apply gather_map in Hl as [-> _].
Qed.

Lemma perm_seq_lt (sigma : list nat) n :
  sigma ≡ₚ seq 0 n -> Forall (fun i => i < n) sigma.
Proof.
  intros Hp. apply Forall_forall. intros i Hi.
  apply list_elem_of_In in Hi. rewrite Hp in Hi. apply in_seq in Hi. lia.
Qed.

Lemma perm_seq_lookup (sigma : list nat) n i :
  sigma ≡ₚ seq 0 n -> i < n -> exists k, sigma !! i = Some k /\ k < n.
Proof.
  intros Hp Hi. pose proof (Permutation_length Hp) as Hl. rewrite length_seq in Hl.
  destruct (lookup_lt_is_Some_2 sigma i ltac:(lia)) as [k Hk].
  exists k. split; [done|].
  pose proof (perm_seq_lt _ _ Hp) as Hf. rewrite Forall_lookup in Hf. exact (Hf _ _ Hk).
Qed.

Lemma perm_seq_inj (sigma : list nat) n i j k :
  sigma ≡ₚ seq 0 n -> sigma !! i = Some k -> sigma !! j = Some k -> i = j.
Proof.
  intros Hp Hi Hj. assert (Hnd : NoDup sigma) by (rewrite Hp; apply NoDup_seq).
  exact (NoDup_lookup sigma i j k Hnd Hi Hj).
Qed.

Lemma argsort_both_inv (sigma : list nat) (n : nat) :
  sigma ≡ₚ seq 0 n ->
  length (argsort sigma) = n /\
  forall i, i < n ->
    sigma !!! (argsort sigma !!! i) = i /\ argsort sigma !!! (sigma !!! i) = i.
Proof.
  intros Hp. destruct (argsort_inv sigma n Hp) as [Hl Hinv].
  split; [done|]. intros i Hi. split.
  - destruct (Hinv i Hi) as (j & Hj & Hs).
    rewrite (list_lookup_total_correct _ _ _ Hj), (list_lookup_total_correct _ _ _ Hs).
    done.
  - destruct (perm_seq_lookup sigma n i Hp Hi) as (k & Hk & Hkn).
    destruct (Hinv k Hkn) as (j & Hj & Hs).
    rewrite (list_lookup_total_correct _ _ _ Hk), (list_lookup_total_correct _ _ _ Hj).
    exact (perm_seq_inj sigma n j i k Hp Hs Hk).
Qed.


Lemma lookup_total_map_lt {A B} `{Inhabited A} `{Inhabited B} (f : A -> B) (l : list A) k :
  k < length l -> map f l !!! k = f (l !!! k).
Proof.
  intros Hk. rewrite !list_lookup_total_alt, lookup_map_std.
  rewrite (list_lookup_lookup_total_lt l k Hk). done.
Qed.

Lemma argsort_argsort (sigma : list nat) n :
  sigma ≡ₚ seq 0 n -> argsort (argsort sigma) = sigma.
Proof.
  intros Hp. destruct (argsort_both_inv sigma n Hp) as [Hl Hb].
  pose proof (Permutation_length Hp) as Hls. rewrite length_seq in Hls.
  assert (Hp' : argsort sigma ≡ₚ seq 0 n) by (rewrite <- Hls; apply argsort_perm).
  destruct (argsort_both_inv (argsort sigma) n Hp') as [Hl' Hb'].
  apply list_eq. intros i.
  destruct (decide (i < n)) as [Hi|Hi].
  - rewrite (list_lookup_lookup_total_lt (argsort (argsort sigma)) i) by lia.
    rewrite (list_lookup_lookup_total_lt sigma i) by lia. f_equal.
    pose proof (perm_seq_lt _ _ Hp) as Hs1. pose proof (perm_seq_lt _ _ Hp') as Hs2.
    assert (Hs3 : Forall (fun i => i < n) (argsort (argsort sigma)))
      by (apply perm_seq_lt; rewrite <- Hl; apply argsort_perm).
    rewrite Forall_lookup in Hs1, Hs3.
    assert (Ha : argsort (argsort sigma) !!! i < n)
      by (apply (Hs3 i); apply list_lookup_lookup_total_lt; lia).
    assert (Hc : sigma !!! i < n)
      by (apply (Hs1 i); apply list_lookup_lookup_total_lt; lia).
    apply (perm_seq_inj (argsort sigma) n _ _ i Hp').
    + rewrite list_lookup_lookup_total_lt by lia. f_equal. apply (Hb' i Hi).
    + rewrite list_lookup_lookup_total_lt by lia. f_equal. apply (Hb i Hi).
  - rewrite !lookup_ge_None_2; [done|lia|].
    lia.
Qed.

Lemma regroup_back (sigma tau : list nat) n (groups groups' : groups_t) :
  length sigma = n -> length tau = n ->
  (forall x, x < n -> sigma !!! (tau !!! x) = x /\ tau !!! x < n) ->
  Forall2 (fun kv kv' => kv'.1 = kv.1 /\ gather tau kv.2 = inr kv'.2) groups groups' ->
  mapM (fun kv => v ← gather sigma kv.2; mret (kv.1, v)) groups' = inr groups.
Proof.
  intros Hs Ht Hx Hg. induction Hg as [|[k v] [k' v'] groups groups' [Hk Hv] _ IH];
    [done|]. simpl in *. subst k'.
  apply gather_map in Hv as [-> Hlt].
  rewrite gather_eq.
  2: { apply Forall_forall. intros y Hy.
       apply list_elem_of_In, in_map_iff in Hy as (x & <- & Hxin).
       rewrite Forall_forall in Hlt. specialize (Hlt x (proj2 (list_elem_of_In _ _) Hxin)).
       rewrite Hs. apply Hx. lia. }
  cbn [mbind res_bind mret res_ret]. rewrite IH. cbn [mbind res_bind mret res_ret].
  do 3 f_equal. rewrite List.map_map.
  rewrite <- (List.map_id v) at 2. apply List.map_ext_in. intros x Hin.
  rewrite Forall_forall in Hlt. apply Hx. rewrite <- Ht.
  apply Hlt. by apply list_elem_of_In.
Qed.

End ReorderExtraFacts.

Module ReorderExtras.
Import Arr ArrFacts Prepare PrepareFacts GroupFacts ReorderExtraFacts.

(** [np.argsort] of a permutation [sigma] of [0..n-1] is its inverse on
    both sides: [sigma[argsort(sigma)[i]] = i] and
    [argsort(sigma)[sigma[i]] = i] for every [i < n]. *)
Theorem argsort_inverse (sigma : list nat) (n : nat) :
  sigma ≡ₚ seq 0 n ->
  length (argsort sigma) = n /\
  forall i, i < n ->
    sigma !!! (argsort sigma !!! i) = i /\ argsort sigma !!! (sigma !!! i) = i.
Proof. apply argsort_both_inv. Qed.

(** Reordering by [argsort(sigma)] undoes the reordering of [prepare_nodes]
    by a permutation [sigma]: it gives back the nodes, the normals and
    the groups as they were. *)
Theorem reorder_undo {Flt} (sigma : list nat) (nodes normals : list (list Flt))
    groups nodes' normals' groups' :
  sigma ≡ₚ seq 0 (length nodes) -> length normals = length nodes ->
  reorder sigma nodes normals groups = inr (nodes', normals', groups') ->
  reorder (argsort sigma) nodes' normals' groups' = inr (nodes, normals, groups).
Proof.
  intros Hp Hln Hr. set (n := length nodes) in *.
  apply reorder_spec in Hr as (Hn & Hm & Hg).
  apply gather_map in Hn as [-> Hsn]. apply gather_map in Hm as [-> _].
  destruct (argsort_both_inv sigma n Hp) as [Hl Hb].
  pose proof (Permutation_length Hp) as Hls. rewrite length_seq in Hls.
  assert (Hpt : argsort sigma ≡ₚ seq 0 n) by (rewrite <- Hls; apply argsort_perm).
  pose proof (perm_seq_lt _ _ Hpt) as Htl.
  assert (Hrow : forall (a : list (list Flt)), length a = n ->
    gather (map (fun j => a !!! j) sigma) (argsort sigma) = inr a).
  { intros a Ha. rewrite gather_eq.
    2: { rewrite length_map_std, Hls. exact Htl. }
    f_equal. apply list_eq. intros i. rewrite lookup_map_std.
    destruct (decide (i < n)) as [Hi|Hi].
    - rewrite (list_lookup_lookup_total_lt (argsort sigma) i) by lia. simpl.
      rewrite Forall_lookup in Htl.
      assert (Hti : argsort sigma !!! i < n)
        by (apply (Htl i); apply list_lookup_lookup_total_lt; lia).
      rewrite lookup_total_map_lt by lia. rewrite (proj1 (Hb i Hi)).
      symmetry. apply list_lookup_lookup_total_lt. lia.
    - rewrite !lookup_ge_None_2; [done|lia|lia]. }
  unfold reorder. rewrite (Hrow nodes eq_refl), (Hrow normals Hln).
  cbn [mbind res_bind]. rewrite (argsort_argsort sigma n Hp).
  rewrite (regroup_back sigma (argsort sigma) n groups groups' Hls Hl).
  - reflexivity.
  - intros x Hx. split; [apply (Hb x Hx)|].
    rewrite Forall_lookup in Htl. apply (Htl x). apply list_lookup_lookup_total_lt. lia.
  - exact Hg.
Qed.

(** Witness for [argsort_inverse]. *)
Lemma argsort_inverse_witness :
  [2; 0; 1] ≡ₚ seq 0 3 /\ length (argsort [2; 0; 1]) = 3.
Proof.
  assert (Hp : [2; 0; 1] ≡ₚ seq 0 3)
    by (change (seq 0 3) with ([0; 1] ++ [2]); apply Permutation_cons_app; reflexivity).
  split; [exact Hp|]. exact (proj1 (argsort_inverse [2; 0; 1] 3 Hp)).
Defined.

(** Witness for [reorder_undo]: swapping two nodes back. *)
Lemma reorder_undo_witness :
  reorder [1; 0] [[10]; [11]] [[20]; [21]] [("interior", [0])]
    = inr ([[11]; [10]], [[21]; [20]], [("interior", [1])]) /\
  reorder (argsort [1; 0]) [[11]; [10]] [[21]; [20]] [("interior", [1])]
    = inr ([[10]; [11]], [[20]; [21]], [("interior", [0])]).
Proof.
  assert (Hr : reorder [1; 0] [[10]; [11]] [[20]; [21]] [("interior", [0])]
               = inr ([[11]; [10]], [[21]; [20]], [("interior", [1])]))
    by reflexivity.
  split; [exact Hr|].
  exact (reorder_undo [1; 0] [[10]; [11]] [[20]; [21]] [("interior", [0])] _ _ _
           ltac:(apply perm_swap) eq_refl Hr).
Defined.

End ReorderExtras.

(* ================================================================= *)
(** ** [prepare_nodes]: errors, group names, pinned nodes *)

Module PrepareExtraFacts.
Import Arr ArrFacts Prepare PrepareFacts PrepareSpec GroupFacts StageFacts PipelineClaims.

Lemma keys_dict_set {V} (k : string) (v : V) (d : list (string * V)) :
  (forall x, x ∈ map fst (dict_set k v d) <-> x = k \/ x ∈ map fst d) /\
  (NoDup (map fst d) -> NoDup (map fst (dict_set k v d))).
Proof.
  rewrite map_fst_dict_set. destruct (decide (k ∈ map fst d)) as [Hin|Hnin].
  - split; [|done]. intros x. split; [tauto|]. intros [->|?]; done.
  - split.
    + intros x. rewrite elem_of_app, list_elem_of_singleton. tauto.
    + intros Hnd. apply NoDup_app. split; [done|]. split; [|apply NoDup_singleton].
      intros x Hx Hx'. apply list_elem_of_singleton in Hx'. subst. contradiction.
Qed.

Lemma keys_dict_of_items {V} (items : list (string * V)) :
  forall x, x ∈ map fst (dict_of_items items) <-> x ∈ map fst items.
Proof.
  unfold dict_of_items.
  assert (H : forall d x, x ∈ map fst (foldl (fun d kv => dict_set kv.1 kv.2 d) d items) <->
                          x ∈ map fst d \/ x ∈ map fst items).
  { induction items as [|[k v] items IH]; intros d x; simpl.
    - split; [tauto|]. intros [?|Hx]; [done|inversion Hx].
    - rewrite IH, (proj1 (keys_dict_set k v d)), elem_of_cons. tauto. }
  intros x. rewrite H. split; [intros [Hx|Hx]; [inversion Hx|done]|tauto].
Qed.

Lemma boundary_key_neq (a b : string) :
  String.append "boundary:" a <> String.append "ghosts:" b.
Proof. discriminate. Qed.

Lemma add_boundary_groups_keys (s2n : list (list nat)) (bg : list (string * list Z))
    (groups g : groups_t) :
  add_boundary_groups s2n bg groups = inr g ->
  (forall x, x ∈ map fst g <->
     x ∈ map fst groups \/ exists name, x = String.append "boundary:" name /\ name ∈ map fst bg) /\
  (NoDup (map fst groups) -> NoDup (map fst g)).
Proof.
  revert groups. induction bg as [|[name v] bg IH]; intros groups H; simpl in H.
  - injection H as <-. split; [|done]. intros x. split; [tauto|].
    intros [?|(n & _ & Hn)]; [done|inversion Hn].
  - apply res_bind_inr in H as (bnd & _ & H).
    destruct (IH _ H) as [Hk Hnd].
    destruct (keys_dict_set (String.append "boundary:" name) bnd groups) as [Hk1 Hnd1].
    split; [|auto].
    intros x. rewrite Hk, Hk1. simpl. split.
    + intros [[->|Hx]|(n & -> & Hn)]; [right; exists name; split; [done|left]|left; done|].
      right. exists n. split; [done|right; done].
    + intros [Hx|(n & -> & Hn)]; [left; right; done|].
      apply elem_of_cons in Hn as [->|Hn]; [left; left; done|].
      right. exists n. done.
Qed.

Lemma validate_groups_ok (n : nat) (bg_in : list (string * list Z)) bg :
  (validate_groups n bg_in).2 = inr bg -> bg = dict_of_items bg_in.
Proof.
  unfold validate_groups. cbn [snd]. destruct (existsb _ _); [discriminate|].
  intros H. injection H as <-. done.
Qed.

Lemma stage_groups_keys {Flt} (nan : Flt) (dom : @PDomain Flt) nodes smpid pinned bgs st :
  stage_groups nan dom nodes smpid pinned bgs = inr st ->
  (forall x, x ∈ map fst (st_groups st) <->
     x = "interior" \/ (x = "pinned" /\ is_Some pinned) \/
     exists name, x = String.append "boundary:" name /\
       match bgs with None => name = "all" | Some bg => name ∈ map fst bg end) /\
  NoDup (map fst (st_groups st)).
Proof.
  unfold stage_groups. intros H.
  apply res_bind_inr in H as (normals0 & _ & H).
  set (g0 := match pinned with
             | None => [("interior", where_idx (fun j => Z.eqb j (-1)) smpid)]
             | Some p => dict_set "pinned" (map (fun k => k + length nodes) (seq 0 (length p)))
                           [("interior", where_idx (fun j => Z.eqb j (-1)) smpid)]
             end).
  assert (Hg0 : (forall x, x ∈ map fst g0 <-> x = "interior" \/ (x = "pinned" /\ is_Some pinned))
                /\ NoDup (map fst g0)).
  { unfold g0. destruct pinned as [p|]; simpl.
    - split.
      + intros x. rewrite !elem_of_cons. split.
        * intros [->|[->|Hx]]; [tauto|right; split; [done|by eexists]|inversion Hx].
        * intros [->|[-> _]]; tauto.
      + constructor; [|apply NoDup_singleton]. rewrite list_elem_of_singleton. discriminate.
    - split; [|apply NoDup_singleton].
      intros x. rewrite list_elem_of_singleton. split; [tauto|].
      intros [->|[_ Hs]]; [done|inversion Hs; discriminate]. }
  assert (Hgen : forall (s2n : list (list nat)) bgd g,
             (forall name, name ∈ map fst bgd <->
                match bgs with None => name = "all" | Some bg => name ∈ map fst bg end) ->
             add_boundary_groups s2n bgd g0 = inr g ->
             (forall x, x ∈ map fst g <->
                x = "interior" \/ (x = "pinned" /\ is_Some pinned) \/
                exists name, x = String.append "boundary:" name /\
                  match bgs with None => name = "all" | Some bg => name ∈ map fst bg end) /\
             NoDup (map fst g)).
  { intros s2n bgd g Hb Ha.
    destruct (add_boundary_groups_keys s2n bgd g0 g Ha) as [Hk Hnd].
    destruct Hg0 as [Hk0 Hnd0].
    split; [|auto]. intros x. rewrite Hk, Hk0. split.
    - intros [Hx|(n & -> & Hn)]; [tauto|]. right; right. exists n. rewrite <- Hb. done.
    - intros [Hx|[Hx|(n & -> & Hn)]]; [tauto|tauto|]. right. exists n. rewrite Hb. done. }
  destruct pinned as [p|]; cbv iota zeta in H; fold g0 in H || idtac;
  destruct bgs as [bg|]; cbn [fst snd] in H.
  all: first
    [ destruct (validate_groups (n_simplices dom) bg) as [w r] eqn:Hv;
      apply res_bind_inr in H as (bgd & Hr & H);
      assert (Hbgd : bgd = dict_of_items bg)
        by (apply (validate_groups_ok (n_simplices dom) bg); rewrite Hv; exact Hr);
      subst bgd
    | apply res_bind_inr in H as (bgd & Hr & H); injection Hr as <- ].
  all: apply res_bind_inr in H as (s2n & _ & H);
       apply res_bind_inr in H as (g & Ha & H);
       injection H as <-; cbn [st_groups];
       refine (Hgen s2n _ g _ Ha).
  all: intros name; first [apply keys_dict_of_items
                          | unfold default_groups; simpl; rewrite list_elem_of_singleton; done].
Qed.

Section GhostKeys.
Context {Flt : Type} (nan : Flt) (fadd fmul : Flt -> Flt -> Flt)
  (kd_nn : list (list Flt) -> list Flt -> Flt).

Lemma add_ghosts_keys tree gd names (nodes normals : list (list Flt)) groups
    nodes' normals' groups' :
  add_ghosts nan fadd fmul kd_nn tree gd names (nodes, normals, groups)
    = inr (nodes', normals', groups') ->
  (forall x, x ∈ map fst groups' <->
     x ∈ map fst groups \/ exists name, x = String.append "ghosts:" name /\ name ∈ names) /\
  (NoDup (map fst groups) -> NoDup (map fst groups')).
Proof.
  revert nodes normals groups.
  induction names as [|name names IH]; intros nodes normals groups H.
  - simpl in H. injection H as <- <- <-. split; [|done]. intros x. split; [tauto|].
    intros [?|(n & _ & Hn)]; [done|inversion Hn].
  - apply add_ghosts_cons in H as (B & bnodes & bnormals & _ & _ & _ & H).
    apply IH in H as [Hk Hnd].
    destruct (keys_dict_set (String.append "ghosts:" name)
                (seq (length nodes) (length B)) groups) as [Hk1 Hnd1].
    split; [|auto]. intros x. rewrite Hk, Hk1. split.
    + intros [[->|Hx]|(n & -> & Hn)]; [right; exists name; split; [done|left]|left; done|].
      right. exists n. split; [done|right; done].
    + intros [Hx|(n & -> & Hn)]; [left; right; done|].
      apply elem_of_cons in Hn as [->|Hn]; [left; left; done|].
      right. exists n. done.
Qed.

Lemma add_ghosts_missing tree gd names (nodes normals : list (list Flt)) groups :
  length normals = length nodes ->
  (forall name B, name ∈ names ->
     dict_get (String.append "boundary:" name) groups = Some B ->
     Forall (fun b => b < length nodes) B) ->
  (exists name, name ∈ names /\ dict_get (String.append "boundary:" name) groups = None) ->
  add_ghosts nan fadd fmul kd_nn tree gd names (nodes, normals, groups) = inl KeyError.
Proof.
  revert nodes normals groups.
  induction names as [|name names IH]; intros nodes normals groups Hlen HB (n & Hn & Hmiss).
  { inversion Hn. }
  cbn [add_ghosts].
  destruct (dict_get (String.append "boundary:" name) groups) as [B|] eqn:HBg; [|reflexivity].
  pose proof (HB name B ltac:(left) HBg) as HBv.
  destruct (gather_ok nodes B HBv) as (bnodes & Hbn & Hbnl).
  destruct (gather_ok normals B) as (bnormals & Hbm & Hbml); [by rewrite Hlen|].
  cbn [mbind res_bind mret res_ret]. rewrite Hbn. cbn [mbind res_bind]. rewrite Hbm.
  cbn [mbind res_bind].
  assert (Hframe : forall m, dict_get (String.append "boundary:" m)
            (dict_set (String.append "ghosts:" name)
               (map (fun k => k + length nodes) (seq 0 (length B))) groups) =
            dict_get (String.append "boundary:" m) groups).
  { intros m. rewrite dict_get_set.
    destruct (String.eqb_spec (String.append "boundary:" m)
                              (String.append "ghosts:" name)) as [He|]; [|done].
    discriminate He. }
  apply IH.
  - rewrite !length_app, length_map_std. lia.
  - intros m B' Hm HB'. rewrite Hframe in HB'.
    apply HB in HB'; [|by right].
    rewrite length_app. eapply Forall_impl; [exact HB'|]. simpl. lia.
  - exists n. split; [|by rewrite Hframe].
    apply elem_of_cons in Hn as [->|Hn]; [congruence|done].
Qed.

End GhostKeys.

Lemma reorder_keys {Flt} (sigma : list nat) (nodes normals : list (list Flt)) groups
    nodes' normals' groups' :
  reorder sigma nodes normals groups = inr (nodes', normals', groups') ->
  map fst groups' = map fst groups.
Proof.
  intros H. apply reorder_spec in H as (_ & _ & H).
  induction H as [|kv kv' g g' [Hk _] _ IH]; simpl; [done|]. rewrite Hk, IH. done.
Qed.

End PrepareExtraFacts.

Module PrepareExtras.
Import Arr ArrFacts Prepare PrepareFacts PrepareSpec GroupFacts StageFacts PipelineClaims PrepareExtraFacts.

Section PrepareRun.
Context {Flt : Type} (nan : Flt) (fadd fmul : Flt -> Flt -> Flt)
  (orient : @PDomain Flt -> @PDomain Flt)
  (disperse_fn : list (list Flt) -> list (list Flt) -> res (list (list Flt)))
  (snap_fn : @PDomain Flt -> list (list Flt) -> list (list Flt) * list Z)
  (kd_nn : list (list Flt) -> list Flt -> Flt)
  (knn_idx : list (list Flt) -> list Flt -> nat -> list nat)
  (rcm : nat -> list (nat * nat) -> list nat).

(** Once the snapping has succeeded (every node with one simplex id, [-1]
    or a simplex index, a normal per simplex, valid boundary groups):
    naming in [boundary_groups_with_ghosts] a group that is not a boundary
    group makes [prepare_nodes] raise [KeyError]. *)
Theorem prepare_ghost_missing nodes dom0 pinned bgs names gd iv os dom snapped smpid name :
  stage_snap orient disperse_fn snap_fn nodes dom0 pinned iv os
    = inr (dom, snapped, smpid) ->
  length smpid = length snapped ->
  Forall (fun j => j = (-1)%Z \/ (0 <= j < Z.of_nat (n_simplices dom))%Z) smpid ->
  n_simplices dom <= length (pnormals dom) ->
  (forall bg, bgs = Some bg ->
     Forall (fun s => (0 <= s < Z.of_nat (n_simplices dom))%Z)
       (concat (map snd (dict_of_items bg)))) ->
  name ∈ names ->
  match bgs with None => name <> "all" | Some bg => name ∉ map fst bg end ->
  prepare_nodes nan fadd fmul orient disperse_fn snap_fn kd_nn knn_idx rcm
    nodes dom0 pinned bgs (Some names) gd iv os = inl KeyError.
Proof.
  intros Hsnap Hlen Hc Hpn Hbg Hname Hmiss.
  destruct (stage_groups_ok nan dom snapped smpid pinned bgs Hc Hpn Hbg) as [st Hst].
  pose proof Hst as Hst'.
  apply stage_groups_spec in Hst' as
    (normals0 & s2n & Hn & Hb & Hbv & Hsn & Hsm & _ & Hsg); [|done|done].
  apply initial_normals_spec in Hn as [Hn0 _]; [|done].
  assert (Hsg0 : st_groups st = stage_groups0 dom snapped smpid pinned bgs s2n)
    by (rewrite Hsg; reflexivity).
  unfold prepare_nodes. rewrite Hsnap. cbn [mbind res_bind]. rewrite Hst.
  cbn [mbind res_bind]. change (default [] (Some names)) with names.
  rewrite add_ghosts_missing; [reflexivity| | |].
  - rewrite Hsn, Hsm, !length_app, length_map_std. lia.
  - intros m B _ HB. rewrite Hsg0 in HB.
    pose proof (stage_groups0_valid dom snapped smpid pinned bgs s2n Hb Hc Hbv Hlen) as Hv.
    apply dict_get_In in HB. rewrite Forall_forall in Hv.
    specialize (Hv _ (proj2 (list_elem_of_In _ _) HB)). simpl in Hv. rewrite Hsn. exact Hv.
  - exists name. split; [done|]. rewrite Hsg0, stage_groups0_boundary.
    assert (Hnone : dict_get name (match bgs with None => default_groups dom
                                               | Some bg => dict_of_items bg end) = None).
    { apply dict_get_None. destruct bgs as [bg|].
      - rewrite keys_dict_of_items. exact Hmiss.
      - unfold default_groups. simpl. rewrite list_elem_of_singleton. exact Hmiss. }
    rewrite Hnone. reflexivity.
Qed.

(** The names of the returned groups are distinct, and they are exactly:
    "interior"; "pinned" when pinned nodes are given; "boundary:name" for
    each name of [boundary_groups] (just "boundary:all" when it is not
    given); and "ghosts:name" for each name of
    [boundary_groups_with_ghosts]. *)
Theorem prepare_group_names nodes dom0 pinned bgs ghosts gd iv os out :
  prepare_nodes nan fadd fmul orient disperse_fn snap_fn kd_nn knn_idx rcm
    nodes dom0 pinned bgs ghosts gd iv os = inr out ->
  NoDup (map fst (out_groups out)) /\
  forall k, k ∈ map fst (out_groups out) <->
    k = "interior" \/ (k = "pinned" /\ is_Some pinned) \/
    (exists name, k = String.append "boundary:" name /\
       match bgs with None => name = "all" | Some bg => name ∈ map fst bg end) \/
    (exists name, k = String.append "ghosts:" name /\ name ∈ default [] ghosts).
Proof.
  intros Hp.
  apply prepare_nodes_inv in Hp
    as (dom & snapped & smpid & st & nodes1 & normals1 & groups1 & _ & Hg & Ha & (sigma & _ & Hr) & _).
  apply reorder_keys in Hr. rewrite Hr.
  apply stage_groups_keys in Hg as [Hk0 Hnd0].
  apply add_ghosts_keys in Ha as [Hk1 Hnd1].
  split; [auto|]. intros k. rewrite Hk1, Hk0. tauto.
Qed.

(** Under the assumptions of the snapping stage and with a permutation
    from Reverse-Cuthill-McKee: the "pinned" group lists the pinned nodes
    in the order given, its [k]-th index being the row of the returned
    nodes that holds the [k]-th pinned node. *)
Theorem prepare_pinned_rows (Hrcm : forall n e, rcm n e ≡ₚ seq 0 n)
    nodes dom0 p bgs ghosts gd iv os dom snapped smpid out :
  stage_snap orient disperse_fn snap_fn nodes dom0 (Some p) iv os
    = inr (dom, snapped, smpid) ->
  length smpid = length snapped ->
  Forall (fun j => j = (-1)%Z \/ (0 <= j < Z.of_nat (n_simplices dom))%Z) smpid ->
  prepare_nodes nan fadd fmul orient disperse_fn snap_fn kd_nn knn_idx rcm
    nodes dom0 (Some p) bgs ghosts gd iv os = inr out ->
  exists P, dict_get "pinned" (out_groups out) = Some P /\ length P = length p /\
    forall k x, p !! k = Some x -> exists i', P !! k = Some i' /\ out_nodes out !! i' = Some x.
Proof.
  intros Hsnap Hlen Hc Hp.
  destruct (prepare_trace nan fadd fmul orient disperse_fn snap_fn kd_nn knn_idx rcm
              nodes dom0 (Some p) bgs ghosts gd iv os dom snapped smpid out Hsnap Hlen Hc Hp)
    as (normals0 & s2n & nodes1 & normals1 & groups1 & Hn & Hb & Hbv & Hw & Ha & sigma & Hsig & Hr).
  apply initial_normals_spec in Hn as [Hn0 _]; [|done].
  apply add_ghosts_frame in Ha as ([gnodes [Hn1 Hm1]] & Hget & _ & _ & _).
  pose proof (neighbor_argsort_perm knn_idx rcm Hrcm nodes1 sigma Hsig) as Hperm.
  pose proof (reorder_lookup _ _ _ _ _ _ _ Hr Hperm) as Hlk.
  apply reorder_rev in Hr as (_ & _ & _ & _ & Hgrp & _ & _); [|done].
  assert (HP : dict_get "pinned" groups1 =
               Some (map (fun k => k + length snapped) (seq 0 (length p))))
    by (rewrite Hget by reflexivity; reflexivity).
  destruct (Hgrp _ _ HP) as [HP' Hv].
  eexists. split; [exact HP'|]. split; [by rewrite !length_map_std, length_seq|].
  intros k x Hk.
  assert (Hkp : k < length p) by (apply lookup_lt_Some in Hk; done).
  assert (Hi : k + length snapped < length nodes1)
    by (subst nodes1; rewrite !length_app; simpl; lia).
  destruct (Hlk _ Hi) as (i' & _ & Hri & Hx & _).
  exists i'. split.
  - rewrite lookup_map_std, lookup_map_std, lookup_seq_lt by done. simpl. rewrite Hri. done.
  - rewrite Hx. subst nodes1. change (default [] (Some p)) with p.
    rewrite lookup_app_l by (rewrite length_app; lia).
    rewrite lookup_app_r by lia.
    replace (k + length snapped - length snapped) with k by lia. exact Hk.
Qed.

End PrepareRun.

Import Examples.

(** Witness for [prepare_ghost_missing]: ghosts asked for a group "b"
    that the default boundary groups do not have. *)
Lemma prepare_ghost_missing_witness :
  prepare_ex None (Some ["b"]) = inl KeyError.
Proof.
  apply (prepare_ghost_missing fnan flt_add flt_mul orient_ex disperse_ex snap_ex kd_nn_ex
           knn_idx_ex rcm_ex nodes_ex dom_ex (Some pinned_ex) None ["b"] (Some 1%Z)
           false false dom_ex nodes_ex [0%Z; (-1)%Z] "b").
  - reflexivity.
  - reflexivity.
  - constructor; [right; cbn; lia|constructor; [left; reflexivity|constructor]].
  - cbn. lia.
  - intros bg Hbg. discriminate Hbg.
  - constructor.
  - discriminate.
Defined.

(** Witness for [prepare_group_names]. *)
Lemma prepare_group_names_witness :
  prepare_ex None (Some ["all"]) = inr out_ex /\ NoDup (map fst (out_groups out_ex)).
Proof.
  assert (Hp : prepare_ex None (Some ["all"]) = inr out_ex) by (vm_compute; reflexivity).
  split; [exact Hp|].
  exact (proj1 (prepare_group_names fnan flt_add flt_mul orient_ex disperse_ex snap_ex kd_nn_ex
                  knn_idx_ex rcm_ex nodes_ex dom_ex (Some pinned_ex) None (Some ["all"])
                  (Some 1%Z) false false out_ex Hp)).
Defined.

(** Witness for [prepare_pinned_rows]. *)
Lemma prepare_pinned_rows_witness :
  prepare_ex None (Some ["all"]) = inr out_ex /\
  exists P, dict_get "pinned" (out_groups out_ex) = Some P /\ length P = length pinned_ex.
Proof.
  assert (Hp : prepare_ex None (Some ["all"]) = inr out_ex) by (vm_compute; reflexivity).
  split; [exact Hp|].
  destruct (prepare_pinned_rows fnan flt_add flt_mul orient_ex disperse_ex snap_ex kd_nn_ex
              knn_idx_ex rcm_ex rcm_ex_perm nodes_ex dom_ex pinned_ex None (Some ["all"])
              (Some 1%Z) false false dom_ex nodes_ex [0%Z; (-1)%Z] out_ex)
    as (P & HP & Hl & _).
  - vm_compute. reflexivity.
  - reflexivity.
  - constructor; [right; cbn; lia|constructor; [left; reflexivity|constructor]].
  - exact Hp.
  - exists P. split; [exact HP|exact Hl].
Defined.

End PrepareExtras.
